(** * kakeibo-pwa: the aggregation, budgeting, rollover and CSV core of
    [src/App.jsx], embedded in Rocq.

    JavaScript strings are sequences of UTF-16 code units, amounts are the
    integers the [budgets] and [transactions] tables store, plain objects
    used as dictionaries are finite maps, and the calls to the hosted store
    are state transitions over an explicit world. *)

From Stdlib Require Import ZArith NArith List Bool Lia.
From Stdlib Require Import Strings.String Strings.Byte.
From Stdlib Require Import Floats.SpecFloat.
From Stdlib Require Import QArith Qpower Lqa.
From Stdlib Require Import Numbers.DecimalString Numbers.DecimalN Numbers.DecimalFacts.
From stdpp Require Import base option list gmap fin_maps.

Set Default Proof Using "Type".
Open Scope Z_scope.

(** ** JavaScript strings *)

(** A string value: its UTF-16 code units, in order. *)
Definition jsstring : Type := list N.

(** Source literals are written in UTF-8 in this file; [utf16_of_utf8]
    turns the bytes of a literal into the code units the engine holds. *)
Fixpoint utf16_of_utf8 (bs : list N) : jsstring :=
  match bs with
  | [] => []
  | b0 :: r0 =>
    if (b0 <? 0x80)%N then b0 :: utf16_of_utf8 r0
    else
      match r0 with
      | [] => []
      | b1 :: r1 =>
        if (b0 <? 0xE0)%N then
          N.lor (N.shiftl (N.land b0 0x1F) 6) (N.land b1 0x3F) :: utf16_of_utf8 r1
        else
          match r1 with
          | [] => []
          | b2 :: r2 =>
            if (b0 <? 0xF0)%N then
              N.lor (N.shiftl (N.land b0 0x0F) 12)
                (N.lor (N.shiftl (N.land b1 0x3F) 6) (N.land b2 0x3F))
                :: utf16_of_utf8 r2
            else
              match r2 with
              | [] => []
              | b3 :: r3 =>
                let cp :=
                  N.lor (N.shiftl (N.land b0 0x07) 18)
                    (N.lor (N.shiftl (N.land b1 0x3F) 12)
                       (N.lor (N.shiftl (N.land b2 0x3F) 6) (N.land b3 0x3F))) in
                let v := (cp - 0x10000)%N in
                (0xD800 + N.shiftr v 10)%N :: (0xDC00 + N.land v 0x3FF)%N
                  :: utf16_of_utf8 r3
              end
          end
      end
  end.

Definition js (s : string) : jsstring :=
  utf16_of_utf8 (List.map Byte.to_N (list_byte_of_string s)).

Global Arguments js : simpl never.

(** [a === b] on strings. *)
Definition str_eqb (a b : jsstring) : bool := bool_decide (a = b).

(** [a < b] on strings: lexicographic order on code units. *)
Fixpoint str_ltb (a b : jsstring) : bool :=
  match a, b with
  | _, [] => false
  | [], _ :: _ => true
  | x :: a', y :: b' =>
    if (x <? y)%N then true
    else if (y <? x)%N then false
    else str_ltb a' b'
  end.

(** A string is truthy when it is not empty. *)
Definition truthy (s : jsstring) : bool :=
  match s with [] => false | _ :: _ => true end.

(** [s.startsWith(q)]. *)
Fixpoint startsWith (s q : jsstring) : bool :=
  match q, s with
  | [], _ => true
  | _ :: _, [] => false
  | y :: q', x :: s' => (x =? y)%N && startsWith s' q'
  end.

(** [s.includes(q)]: [q] occurs at some position of [s]. *)
Fixpoint includes (s q : jsstring) : bool :=
  startsWith s q ||
  match s with
  | [] => false
  | _ :: s' => includes s' q
  end.

(** [String.prototype.toLowerCase] restricted to the ASCII letters; every
    other code unit is kept.  It agrees with the engine on strings whose
    only cased characters are ASCII, and serves as a concrete instance
    where the development is parametric in the case mapping. *)
Definition asciiLower (s : jsstring) : jsstring :=
  List.map (fun c => if (0x41 <=? c)%N && (c <=? 0x5A)%N then (c + 0x20)%N else c) s.

(** ** Transactions and the filter engine *)

(** A row of [transactions] as the client receives it.  [note] is a
    nullable column. *)
Record Transaction : Type := mkTransaction {
  tx_date : jsstring;
  tx_amount : Z;
  tx_type : jsstring;
  tx_purpose : jsstring;
  tx_category : jsstring;
  tx_note : option jsstring
}.

(** The [filters] state of the component. *)
Record Filters : Type := mkFilters {
  f_type : jsstring;
  f_purpose : jsstring;
  f_category : jsstring;
  f_query : jsstring;
  f_dateFrom : jsstring;
  f_dateTo : jsstring
}.

Definition s_all : jsstring := Eval vm_compute in js "all".
Definition s_expense : jsstring := Eval vm_compute in js "expense".
Definition s_income : jsstring := Eval vm_compute in js "income".

(** [toMonth]: [value?.slice(0, 7) || '']. *)
Definition toMonth (value : jsstring) : jsstring := take 7 value.

Section FilterEngine.

(** [String.prototype.toLowerCase]; the filter is correct for any case
    mapping, so none is fixed here. *)
Variable toLowerCase : jsstring -> jsstring.

Definition monthItems (transactions : list Transaction) (month : jsstring)
  : list Transaction :=
  List.filter (fun item => str_eqb (toMonth (tx_date item)) month) transactions.

(** The callback of [filteredItems]. *)
Definition filterPredicate (filters : Filters) (item : Transaction) : bool :=
  if negb (str_eqb (f_type filters) s_all)
     && negb (str_eqb (tx_type item) (f_type filters)) then false
  else if negb (str_eqb (f_purpose filters) s_all)
          && str_eqb (tx_type item) s_expense
          && negb (str_eqb (tx_purpose item) (f_purpose filters)) then false
  else if negb (str_eqb (f_category filters) s_all)
          && negb (str_eqb (tx_category item) (f_category filters)) then false
  else if truthy (f_query filters)
          && (let target := toLowerCase (default [] (tx_note item)) in
              negb (includes target (toLowerCase (f_query filters)))) then false
  else if truthy (f_dateFrom filters)
          && str_ltb (tx_date item) (f_dateFrom filters) then false
  else if truthy (f_dateTo filters)
          && str_ltb (f_dateTo filters) (tx_date item) then false
  else true.

Definition filteredItems (monthItems : list Transaction) (filters : Filters)
  : list Transaction :=
  List.filter (filterPredicate filters) monthItems.

(** Replacing one predicate of a filter by its pass-all value. *)
Inductive relaxed (f : Filters) : Filters -> Prop :=
  | relax_type :
      relaxed f (mkFilters s_all (f_purpose f) (f_category f) (f_query f)
                   (f_dateFrom f) (f_dateTo f))
  | relax_purpose :
      relaxed f (mkFilters (f_type f) s_all (f_category f) (f_query f)
                   (f_dateFrom f) (f_dateTo f))
  | relax_category :
      relaxed f (mkFilters (f_type f) (f_purpose f) s_all (f_query f)
                   (f_dateFrom f) (f_dateTo f))
  | relax_query :
      relaxed f (mkFilters (f_type f) (f_purpose f) (f_category f) []
                   (f_dateFrom f) (f_dateTo f))
  | relax_dateFrom :
      relaxed f (mkFilters (f_type f) (f_purpose f) (f_category f) (f_query f)
                   [] (f_dateTo f))
  | relax_dateTo :
      relaxed f (mkFilters (f_type f) (f_purpose f) (f_category f) (f_query f)
                   (f_dateFrom f) []).

End FilterEngine.


(** ** Budget evaluator *)

(** *** Numbers

    Amounts are [integer] columns and their sums are integers, kept here as
    [Z].  The only place where the component leaves the integers is the
    quotient in [percent]; it is computed on IEEE-754 binary64 values, for
    which the standard library's executable specification is used. *)

Definition b64_of_Z (z : Z) : spec_float := binary_normalize 53 1024 z 0 false.
Definition b64_div : spec_float -> spec_float -> spec_float := SFdiv 53 1024.
Definition b64_mul : spec_float -> spec_float -> spec_float := SFmul 53 1024.

(** The value of [Math.round]: it is an integer, or one of the values
    [Math.round] hands back unchanged.  Every integer it can produce is a
    binary64 value, so the integer stands for the number. *)
Inductive Rounded : Type :=
  | R_int (n : Z)
  | R_negzero
  | R_inf (negative : bool)
  | R_nan.

(** [Math.round]: the integer closest to [x], the one towards +infinity at
    a tie; NaN, the infinities and the zeros are returned as they are, and a
    negative [x] that rounds to zero gives -0. *)
Definition Math_round (x : spec_float) : Rounded :=
  match x with
  | S754_nan => R_nan
  | S754_infinity s => R_inf s
  | S754_zero s => if s then R_negzero else R_int 0
  | S754_finite s m e =>
    let v := cond_Zopp s (Zpos m) in
    let n :=
      if 0 <=? e then v * 2 ^ e
      else (2 * v + 2 ^ (- e)) / (2 * 2 ^ (- e)) in
    if (n =? 0) && s then R_negzero else R_int n
  end.

(** The [budgets] state: an object from category name to amount, built by
    [loadBudgets] from the rows of the selected month.  It is read only
    through its own keys. *)
Abbreviation Budgets := (gmap jsstring Z).

(** [items.filter((item) => item.type === 'expense')
         .reduce((sum, item) => sum + item.amount, 0)] *)
Definition expenseSum (items : list Transaction) : Z :=
  fold_left (fun sum item => sum + tx_amount item)
    (List.filter (fun item => str_eqb (tx_type item) s_expense) items) 0.

(** [Object.keys(budgets)].  The engine lists keys in insertion order; the
    only use of the list is a sum of integers. *)
Definition Object_keys (budgets : Budgets) : list jsstring :=
  (map_to_list budgets).*1.

(** [budgets[name] || 0] *)
Definition budgetOf (budgets : Budgets) (name : jsstring) : Z :=
  default 0 (budgets !! name).

Definition budgetCategories (budgets : Budgets) (filters : Filters) : list jsstring :=
  if str_eqb (f_type filters) s_income then []
  else if str_eqb (f_category filters) s_all then Object_keys budgets
  else [f_category filters].

Definition budgetTotal (budgets : Budgets) (filters : Filters) : Z :=
  fold_left (fun sum name => sum + budgetOf budgets name)
    (budgetCategories budgets filters) 0.

(** [budgetTotal > 0 ? Math.round((expenseTotal / budgetTotal) * 100) : 0] *)
Definition percentOf (expenseTotal budgetTotal : Z) : Rounded :=
  if 0 <? budgetTotal then
    Math_round (b64_mul (b64_div (b64_of_Z expenseTotal) (b64_of_Z budgetTotal))
                  (b64_of_Z 100))
  else R_int 0.

(** The value of [budgetStats], without [daysLeft] and [daysInMonth], which
    read the clock and take no part in the totals. *)
Record BudgetStats : Type := mkBudgetStats {
  bs_budgetTotal : Z;
  bs_expenseTotal : Z;
  bs_remaining : Z;
  bs_percent : Rounded
}.

Definition budgetStats (budgets : Budgets) (filteredItems : list Transaction)
    (filters : Filters) : BudgetStats :=
  let expenseTotal := expenseSum filteredItems in
  let budgetTotal := budgetTotal budgets filters in
  let percent := percentOf expenseTotal budgetTotal in
  mkBudgetStats budgetTotal expenseTotal (budgetTotal - expenseTotal) percent.

(** [categorySpendMap]: spend per category over the expense items. *)
Definition categorySpendMap (filteredItems : list Transaction) : gmap jsstring Z :=
  fold_left
    (fun (map : gmap jsstring Z) item =>
       <[tx_category item := default 0 (map !! tx_category item) + tx_amount item]> map)
    (List.filter (fun item => str_eqb (tx_type item) s_expense) filteredItems)
    ∅.

Record ChartRow : Type := mkChartRow {
  row_name : jsstring;
  row_budget : Z;
  row_spent : Z;
  row_remaining : Z;
  row_over : Z
}.

Definition budgetChartData (budgets : Budgets) (categories : list jsstring)
    (categorySpendMap : gmap jsstring Z) : list ChartRow :=
  List.filter (fun item => (0 <? row_budget item) || (0 <? row_spent item))
    (List.map
       (fun name =>
          let budget := budgetOf budgets name in
          let spent := default 0 (categorySpendMap !! name) in
          let remaining := Z.max (budget - spent) 0 in
          let over := Z.max (spent - budget) 0 in
          mkChartRow name budget spent remaining over)
       categories).

(** The reading of the specification: the quotient taken exactly and
    rounded to the nearest integer, upwards at a tie. *)
Definition roundHalfUpPercent (expenseTotal budgetTotal : Z) : Z :=
  (200 * expenseTotal + budgetTotal) / (2 * budgetTotal).

(** [n] is the integer nearest to the value of the binary64 number [x],
    the upper one at a tie: n - 1/2 <= x < n + 1/2. *)
Definition nearestTiesUp (x : spec_float) (n : Z) : Prop :=
  match x with
  | S754_zero _ => n = 0
  | S754_finite s m e =>
    let v := cond_Zopp s (Zpos m) in
    if 0 <=? e then n = v * 2 ^ e
    else (2 * n - 1) * 2 ^ (- e) <= 2 * v < (2 * n + 1) * 2 ^ (- e)
  | _ => False
  end.

(** The exact ratio is at a tie: 100 * expenseTotal / budgetTotal is
    k + 1/2 for an integer k. *)
Definition exactTie (expenseTotal budgetTotal : Z) : Prop :=
  (200 * expenseTotal + budgetTotal) mod (2 * budgetTotal) = 0.

(** The position of a fraction a/c of a step, as the rounding functions of
    the binary64 specification record it. *)
Definition loc_of_frac (a c : Z) : location :=
  if a =? 0 then loc_Exact else loc_Inexact (Z.compare (2 * a) c).

(** Powers of two as rationals: the value of the binary64 number with
    mantissa [m] and exponent [e] is [inject_Z m * P2 e]. *)
Definition P2 (z : Z) : Q := (2 ^ z)%Q.

(** Half a unit in the last place, relative to a 53-digit mantissa: 2^-53. *)
Definition ulp_half : Q := (1 # 9007199254740992)%Q.


(** ** Decimal numerals and [Number] *)

Fixpoint uint_units (u : Decimal.uint) : jsstring :=
  match u with
  | Decimal.Nil => []
  | Decimal.D0 u => 0x30%N :: uint_units u
  | Decimal.D1 u => 0x31%N :: uint_units u
  | Decimal.D2 u => 0x32%N :: uint_units u
  | Decimal.D3 u => 0x33%N :: uint_units u
  | Decimal.D4 u => 0x34%N :: uint_units u
  | Decimal.D5 u => 0x35%N :: uint_units u
  | Decimal.D6 u => 0x36%N :: uint_units u
  | Decimal.D7 u => 0x37%N :: uint_units u
  | Decimal.D8 u => 0x38%N :: uint_units u
  | Decimal.D9 u => 0x39%N :: uint_units u
  end.

(** The decimal digits of a string, when it consists of digits only. *)
Fixpoint units_uint (s : jsstring) : option Decimal.uint :=
  match s with
  | [] => Some Decimal.Nil
  | c :: s' =>
    match units_uint s' with
    | None => None
    | Some u =>
      match c with
      | 0x30%N => Some (Decimal.D0 u)
      | 0x31%N => Some (Decimal.D1 u)
      | 0x32%N => Some (Decimal.D2 u)
      | 0x33%N => Some (Decimal.D3 u)
      | 0x34%N => Some (Decimal.D4 u)
      | 0x35%N => Some (Decimal.D5 u)
      | 0x36%N => Some (Decimal.D6 u)
      | 0x37%N => Some (Decimal.D7 u)
      | 0x38%N => Some (Decimal.D8 u)
      | 0x39%N => Some (Decimal.D9 u)
      | _ => None
      end
    end
  end.

(** [String(n)] for an integer [n] below 10^21 in absolute value, where the
    engine prints plain decimal digits. *)
Definition String_of_Z (n : Z) : jsstring :=
  match n with
  | Z0 => [0x30%N]
  | Zpos p => uint_units (N.to_uint (Npos p))
  | Zneg p => 0x2D%N :: uint_units (N.to_uint (Npos p))
  end.

(** WhiteSpace and LineTerminator code units, the ones [trim] and [Number]
    strip. *)
Definition isWhiteSpace (c : N) : bool :=
  ((0x09 <=? c) && (c <=? 0x0D) || (c =? 0x20) || (c =? 0xA0) || (c =? 0x1680)
   || (0x2000 <=? c) && (c <=? 0x200A) || (c =? 0x2028) || (c =? 0x2029)
   || (c =? 0x202F) || (c =? 0x205F) || (c =? 0x3000) || (c =? 0xFEFF))%N.

Fixpoint trimStart (s : jsstring) : jsstring :=
  match s with
  | [] => []
  | c :: s' => if isWhiteSpace c then trimStart s' else s
  end.

(** [s.trim()] *)
Definition trim (s : jsstring) : jsstring :=
  rev (trimStart (rev (trimStart s))).

(** [Number(s)] on the decimal integers: surrounding white space is
    stripped, the empty string is 0, an optional sign is followed by digits.
    [None] is NaN.  Fractions, exponents, radix prefixes and [Infinity],
    which the engine also reads, are not part of this model; the
    development applies [Number] to digit strings only. *)
Definition Number_of (s : jsstring) : option Z :=
  match trim s with
  | [] => Some 0
  | 0x2D%N :: (_ :: _) as ds =>
    (fun u => - Z.of_N (N.of_uint u)) <$> units_uint ds
  | 0x2B%N :: (_ :: _) as ds =>
    (fun u => Z.of_N (N.of_uint u)) <$> units_uint ds
  | ds => (fun u => Z.of_N (N.of_uint u)) <$> units_uint ds
  end.

(** ** Calendar *)

(** Days from 1970-01-01 to the given day of the proleptic Gregorian
    calendar; [m] is 1 for January. *)
Definition days_from_civil (y m d : Z) : Z :=
  let y' := if m <=? 2 then y - 1 else y in
  let era := y' / 400 in
  let yoe := y' - era * 400 in
  let mp := (m + 9) mod 12 in
  let doy := (153 * mp + 2) / 5 + d - 1 in
  let doe := yoe * 365 + yoe / 4 - yoe / 100 + doy in
  era * 146097 + doe - 719468.

(** Year and month (1 for January) of a day number. *)
Definition civil_from_days (z : Z) : Z * Z :=
  let z := z + 719468 in
  let era := z / 146097 in
  let doe := z - era * 146097 in
  let yoe := (doe - doe / 1460 + doe / 36524 - doe / 146096) / 365 in
  let doy := doe - (365 * yoe + yoe / 4 - yoe / 100) in
  let mp := (5 * doy + 2) / 153 in
  let m := if mp <? 10 then mp + 3 else mp - 9 in
  (if m <=? 2 then yoe + era * 400 + 1 else yoe + era * 400, m).

Definition msPerDay : Z := 86400000.

(** What the component reads from its surroundings: the offset of local
    time from UTC in minutes (540 in Tokyo, -300 in New York, taken as
    constant), and the value [getPreviousMonth()] has when it is called. *)
Record Clock : Type := mkClock {
  tzOffsetMinutes : Z;
  previousMonthOfNow : jsstring
}.

(** The time value of [new Date(year, monthIndex, 1)]: midnight local time
    on the first of the month; a month index outside 0..11 carries into the
    year, and a year from 0 to 99 means 1900 + year.  Time values are not
    clipped to the range of valid dates (years beyond +-275760). *)
Definition Date_local (clock : Clock) (year monthIndex : Z) : Z :=
  let yr := if (0 <=? year) && (year <=? 99) then 1900 + year else year in
  let ym := yr + monthIndex / 12 in
  let mn := monthIndex mod 12 in
  days_from_civil ym (mn + 1) 1 * msPerDay - tzOffsetMinutes clock * 60000.

Definition padStart (width : nat) (s : jsstring) : jsstring :=
  replicate (width - length s) 0x30%N ++ s.

(** The first seven characters of the ISO form of a date in the given year
    and month: four digits, or a sign and six digits outside 0..9999. *)
Definition isoMonth (ym : Z * Z) : jsstring :=
  let '(y, m) := ym in
  let year :=
    if (0 <=? y) && (y <=? 9999) then padStart 4 (String_of_Z y)
    else (if y <? 0 then 0x2D%N else 0x2B%N) :: padStart 6 (String_of_Z (Z.abs y)) in
  take 7 (year ++ 0x2D%N :: padStart 2 (String_of_Z m)).

(** [date.toISOString().slice(0, 7)]: year and month of the time value in
    UTC. *)
Definition toISOString_month (t : Z) : jsstring :=
  isoMonth (civil_from_days (t / msPerDay)).

(** [s.split('-')] *)
Fixpoint split_on (sep : N) (s : jsstring) (current : jsstring) : list jsstring :=
  match s with
  | [] => [current]
  | c :: s' =>
    if (c =? sep)%N then current :: split_on sep s' []
    else split_on sep s' (current ++ [c])
  end.

(** [!n] for a number: true for 0 and NaN. *)
Definition falsyNumber (n : option Z) : bool :=
  match n with
  | None => true
  | Some z => z =? 0
  end.

Definition getPreviousMonthFrom (clock : Clock) (monthValue : jsstring) : jsstring :=
  if negb (truthy monthValue) then previousMonthOfNow clock
  else
    let parts := split_on 0x2D%N monthValue [] in
    let year := parts !! 0%nat ≫= Number_of in
    let month := parts !! 1%nat ≫= Number_of in
    if falsyNumber year || falsyNumber month then previousMonthOfNow clock
    else
      let date := Date_local clock (default 0 year) (default 0 month - 2) in
      toISOString_month date.

(** ** The store, the browser and the budget actions *)

(** A row of [budgets] as the owner sees it through row-level security. *)
Record BudgetRow : Type := mkBudgetRow {
  b_month : jsstring;
  b_category : jsstring;
  b_amount : Z
}.

(** A draft of the budget form: a loaded amount or typed text. *)
Inductive Draft : Type :=
  | DraftAmount (amount : Z)
  | DraftText (text : jsstring).

(** What an action does to its surroundings, in order. *)
Inductive Event : Type :=
  | EvSelect (month : jsstring) (ok : bool)
  | EvDelete (month : jsstring) (ok : bool)
  | EvInsert (payload : list BudgetRow) (ok : bool)
  | EvSetItem (key value : jsstring)
  | EvConfirmAutoCopy (fromMonth targetMonth : jsstring) (answer : bool)
  | EvConfirmCopy (fromMonth targetMonth : jsstring) (answer : bool).

(** The component state the budget actions touch, the owner's rows in the
    store (oldest first), [localStorage], and what the surroundings will
    answer: [faults] gives, for the requests to come, the error message of
    a request that fails; [answers] gives the answers to the dialogs to
    come. *)
Record World : Type := mkWorld {
  w_clock : Clock;
  w_store : list BudgetRow;
  w_localStorage : gmap jsstring jsstring;
  w_month : jsstring;
  w_copyFromMonth : jsstring;
  w_budgets : Budgets;
  w_budgetDrafts : gmap jsstring Draft;
  w_status : jsstring;
  w_loading : bool;
  w_faults : list (option jsstring);
  w_answers : list bool;
  w_trace : list Event
}.

(** An action runs on a world and yields a value and the next world;
    [None] only when the bound on nested reloads is used up. *)
Definition Action (A : Type) : Type := World -> option (A * World).

Definition ret {A} (a : A) : Action A := fun w => Some (a, w).

Definition bind {A B} (m : Action A) (k : A -> Action B) : Action B :=
  fun w => match m w with
           | None => None
           | Some (a, w') => k a w'
           end.

Declare Scope action_scope.
Delimit Scope action_scope with action.
Notation "'let*' x := m 'in' k" := (bind m (fun x => k))
  (at level 10, x name, m at level 100, k at level 200, only parsing) : action_scope.
Notation "m ;; k" := (bind m (fun _ => k))
  (at level 100, k at level 200, only parsing) : action_scope.
Open Scope action_scope.

Definition outOfFuel {A} : Action A := fun _ => None.

Definition modify (f : World -> World) : Action unit := fun w => Some (tt, f w).

Definition emit (ev : Event) : Action unit :=
  modify (fun w =>
    mkWorld (w_clock w) (w_store w) (w_localStorage w) (w_month w) (w_copyFromMonth w)
      (w_budgets w) (w_budgetDrafts w) (w_status w) (w_loading w) (w_faults w)
      (w_answers w) (w_trace w ++ [ev])).

Definition setStore (store : list BudgetRow) : Action unit :=
  modify (fun w =>
    mkWorld (w_clock w) store (w_localStorage w) (w_month w) (w_copyFromMonth w)
      (w_budgets w) (w_budgetDrafts w) (w_status w) (w_loading w) (w_faults w)
      (w_answers w) (w_trace w)).

Definition setStatus (status : jsstring) : Action unit :=
  modify (fun w =>
    mkWorld (w_clock w) (w_store w) (w_localStorage w) (w_month w) (w_copyFromMonth w)
      (w_budgets w) (w_budgetDrafts w) status (w_loading w) (w_faults w)
      (w_answers w) (w_trace w)).

Definition setLoading (loading : bool) : Action unit :=
  modify (fun w =>
    mkWorld (w_clock w) (w_store w) (w_localStorage w) (w_month w) (w_copyFromMonth w)
      (w_budgets w) (w_budgetDrafts w) (w_status w) loading (w_faults w)
      (w_answers w) (w_trace w)).

Definition setBudgets (budgets : Budgets) : Action unit :=
  modify (fun w =>
    mkWorld (w_clock w) (w_store w) (w_localStorage w) (w_month w) (w_copyFromMonth w)
      budgets (w_budgetDrafts w) (w_status w) (w_loading w) (w_faults w)
      (w_answers w) (w_trace w)).

Definition setBudgetDrafts (f : gmap jsstring Draft -> gmap jsstring Draft) : Action unit :=
  modify (fun w =>
    mkWorld (w_clock w) (w_store w) (w_localStorage w) (w_month w) (w_copyFromMonth w)
      (w_budgets w) (f (w_budgetDrafts w)) (w_status w) (w_loading w) (w_faults w)
      (w_answers w) (w_trace w)).

(** The outcome the surroundings give the next request. *)
Definition nextFault : Action (option jsstring) :=
  fun w =>
    Some (default None (head (w_faults w)),
          mkWorld (w_clock w) (w_store w) (w_localStorage w) (w_month w)
            (w_copyFromMonth w) (w_budgets w) (w_budgetDrafts w) (w_status w)
            (w_loading w) (tail (w_faults w)) (w_answers w) (w_trace w)).

Definition budgetsOfMonth (store : list BudgetRow) (month : jsstring) : list BudgetRow :=
  List.filter (fun row => str_eqb (b_month row) month) store.

(** [supabase.from('budgets').select('*').eq('month', month)]: the error
    message, or the rows of the month, oldest first. *)
Definition selectBudgets (month : jsstring) : Action (jsstring + list BudgetRow) :=
  let* fault := nextFault in
  match fault with
  | Some message => emit (EvSelect month false) ;; ret (inl message)
  | None =>
    emit (EvSelect month true) ;;
    fun w => Some (inr (budgetsOfMonth (w_store w) month), w)
  end.

(** [supabase.from('budgets').delete().eq('user_id', ...).eq('month', month)] *)
Definition deleteBudgets (month : jsstring) : Action (option jsstring) :=
  let* fault := nextFault in
  match fault with
  | Some message => emit (EvDelete month false) ;; ret (Some message)
  | None =>
    emit (EvDelete month true) ;;
    (fun w =>
       setStore (List.filter (fun row => negb (str_eqb (b_month row) month)) (w_store w)) w) ;;
    ret None
  end.

Definition sameKey (a b : BudgetRow) : bool :=
  str_eqb (b_month a) (b_month b) && str_eqb (b_category a) (b_category b).

(** [unique (user_id, month, category)]: whether adding the rows would
    break the constraint. *)
Fixpoint violatesUnique (store payload : list BudgetRow) : bool :=
  match payload with
  | [] => false
  | row :: rest =>
    existsb (sameKey row) store || existsb (sameKey row) rest
    || violatesUnique store rest
  end.

Definition uniqueViolation : jsstring :=
  Eval vm_compute in js "duplicate key value violates unique constraint".

(** [supabase.from('budgets').insert(payload)]: all rows or none. *)
Definition insertBudgets (payload : list BudgetRow) : Action (option jsstring) :=
  let* fault := nextFault in
  match fault with
  | Some message => emit (EvInsert payload false) ;; ret (Some message)
  | None =>
    fun w =>
      if violatesUnique (w_store w) payload then
        (emit (EvInsert payload false) ;; ret (Some uniqueViolation)) w
      else
        (emit (EvInsert payload true) ;; setStore (w_store w ++ payload) ;; ret None) w
  end.

Definition storageKey (targetMonth : jsstring) : jsstring :=
  js "budget-copy-" ++ targetMonth.

(** [localStorage.getItem(key)], read for its truthiness. *)
Definition getItemTruthy (key : jsstring) : Action bool :=
  fun w => Some (match w_localStorage w !! key with
                 | Some v => truthy v
                 | None => false
                 end, w).

Definition setItem (key value : jsstring) : Action unit :=
  emit (EvSetItem key value) ;;
  modify (fun w =>
    mkWorld (w_clock w) (w_store w) (<[key := value]> (w_localStorage w)) (w_month w)
      (w_copyFromMonth w) (w_budgets w) (w_budgetDrafts w) (w_status w) (w_loading w)
      (w_faults w) (w_answers w) (w_trace w)).

Definition nextAnswer : Action bool :=
  fun w =>
    Some (default false (head (w_answers w)),
          mkWorld (w_clock w) (w_store w) (w_localStorage w) (w_month w)
            (w_copyFromMonth w) (w_budgets w) (w_budgetDrafts w) (w_status w)
            (w_loading w) (w_faults w) (tail (w_answers w)) (w_trace w)).

Definition s_skipped : jsstring := Eval vm_compute in js "skipped".
Definition s_prompted : jsstring := Eval vm_compute in js "prompted".

(** The payload both copies build from the rows of the source month. *)
Definition copyPayload (targetMonth : jsstring) (data : list BudgetRow) : list BudgetRow :=
  List.map (fun item => mkBudgetRow targetMonth (b_category item) (b_amount item)) data.

(** [maybeAutoCopyBudgets], with the reload it ends in as a parameter. *)
Definition maybeAutoCopyBudgetsWith (loadBudgets : jsstring -> Action unit)
    (targetMonth : jsstring) : Action unit :=
  let storageKey := storageKey targetMonth in
  let* flag := getItemTruthy storageKey in
  if flag then ret tt
  else
    fun w =>
      let fromMonth := getPreviousMonthFrom (w_clock w) targetMonth in
      (let* r := selectBudgets fromMonth in
       match r with
       | inl _ => setItem storageKey s_skipped
       | inr [] => setItem storageKey s_skipped
       | inr data =>
         setItem storageKey s_prompted ;;
         let* answer := nextAnswer in
         emit (EvConfirmAutoCopy fromMonth targetMonth answer) ;;
         if negb answer then ret tt
         else
           let payload := copyPayload targetMonth data in
           let* insertError := insertBudgets payload in
           match insertError with
           | Some message => setStatus (js "予算コピーエラー: " ++ message)
           | None => loadBudgets targetMonth
           end
       end) w.

(** The object [loadBudgets] builds from the rows: a later row of a
    category replaces an earlier one. *)
Definition budgetMap (data : list BudgetRow) : Budgets :=
  fold_left (fun (map : Budgets) item => <[b_category item := b_amount item]> map) data ∅.

Fixpoint loadBudgets (fuel : nat) (targetMonth : jsstring) : Action unit :=
  match fuel with
  | O => outOfFuel
  | S fuel' =>
    if negb (truthy targetMonth) then ret tt
    else
      let* r := selectBudgets targetMonth in
      match r with
      | inl message => setStatus (js "予算読み込みエラー: " ++ message)
      | inr data =>
        let map := budgetMap data in
        setBudgets map ;;
        setBudgetDrafts (fun prev => (DraftAmount <$> map) ∪ prev) ;;
        if (length data =? 0)%nat
        then maybeAutoCopyBudgetsWith (loadBudgets fuel') targetMonth
        else ret tt
      end
  end.

Definition maybeAutoCopyBudgets (fuel : nat) : jsstring -> Action unit :=
  maybeAutoCopyBudgetsWith (loadBudgets fuel).

Definition copyBudgetsFromMonth (fuel : nat) : Action unit :=
  fun w =>
    let copyFromMonth := w_copyFromMonth w in
    let month := w_month w in
    (if negb (truthy copyFromMonth) || str_eqb copyFromMonth month then
       setStatus (js "コピー元の月を選んでください")
     else
       let* answer := nextAnswer in
       emit (EvConfirmCopy copyFromMonth month answer) ;;
       if negb answer then ret tt
       else
         setLoading true ;;
         let* r := selectBudgets copyFromMonth in
         match r with
         | inl message =>
           setStatus (js "予算読み込みエラー: " ++ message) ;; setLoading false
         | inr [] =>
           setStatus (js "コピー元の予算がありません") ;; setLoading false
         | inr data =>
           let* deleteError := deleteBudgets month in
           match deleteError with
           | Some message =>
             setStatus (js "予算削除エラー: " ++ message) ;; setLoading false
           | None =>
             let payload := copyPayload month data in
             let* insertError := insertBudgets payload in
             match insertError with
             | Some message => setStatus (js "予算コピーエラー: " ++ message)
             | None => loadBudgets fuel month ;; setStatus (js "予算をコピーしました")
             end ;;
             setLoading false
           end
         end) w.

(** The rollover prompts among some events. *)
Definition isRolloverPrompt (ev : Event) : bool :=
  match ev with
  | EvConfirmAutoCopy _ _ _ => true
  | _ => false
  end.

Definition rolloverPrompts (events : list Event) : nat :=
  length (List.filter isRolloverPrompt events).

(** The outcome the surroundings give the [i]-th request from now. *)
Definition faultAt (i : nat) (w : World) : option jsstring :=
  default None (w_faults w !! i).

(** The rollover flag of a month is set when [localStorage] holds a
    non-empty value under its key. *)
Definition flagSet (targetMonth : jsstring) (w : World) : Prop :=
  exists v, w_localStorage w !! storageKey targetMonth = Some v /\ truthy v = true.


(** What can happen between two loads: a load of some month, a manual
    copy, or anything else that leaves [localStorage] as it is (other
    actions of the component, other devices writing to the store, the
    user's next answers, the network's next failures). *)
Inductive step : World -> World -> Prop :=
  | step_load fuel month w w' :
      loadBudgets fuel month w = Some (tt, w') -> step w w'
  | step_copy fuel w w' :
      copyBudgetsFromMonth fuel w = Some (tt, w') -> step w w'
  | step_other w w' :
      w_localStorage w' = w_localStorage w -> step w w'.


(** A world for the examples: January 2024 is selected and holds one
    budget, December 2023 is the month to copy from; the network fails on
    the third request; the user accepts. *)
Definition exampleClock : Clock := mkClock 0 (js "2023-12").

Definition exampleWorld : World :=
  mkWorld exampleClock
    [mkBudgetRow (js "2023-12") (js "食費") 10000;
     mkBudgetRow (js "2024-01") (js "住居") 50000]
    ∅ (js "2024-01") (js "2023-12")
    {[ js "住居" := 50000 ]} {[ js "住居" := DraftAmount 50000 ]}
    [] false [None; None; Some (js "network")] [true] [].

(** ** Filter corrections *)

Definition defaultCategories : list jsstring :=
  [js "食費"; js "住居"; js "交通"; js "光熱費"; js "通信"; js "日用品"; js "医療";
   js "娯楽"; js "教育"; js "その他"].

Definition incomeCategories : list jsstring :=
  [js "労働"; js "投資益"; js "その他"].

(** [list.includes(x)] on an array of strings. *)
Definition Array_includes (l : list jsstring) (x : jsstring) : bool :=
  existsb (str_eqb x) l.

(** [Array.from(new Set(l))]: the first occurrence of each element. *)
Definition Array_from_Set (l : list jsstring) : list jsstring :=
  fold_left (fun acc x => if Array_includes acc x then acc else acc ++ [x]) l [].

Definition setPurpose (purpose : jsstring) (prev : Filters) : Filters :=
  mkFilters (f_type prev) purpose (f_category prev) (f_query prev)
    (f_dateFrom prev) (f_dateTo prev).

Definition setCategory (category : jsstring) (prev : Filters) : Filters :=
  mkFilters (f_type prev) (f_purpose prev) category (f_query prev)
    (f_dateFrom prev) (f_dateTo prev).

(** One run of the effect on [filters.type], [filters.category],
    [filters.purpose] and [categories]: the conditions read the filters of
    the render, the updates are applied in order to the state. *)
Definition filterCorrections (categories : list jsstring) (filters : Filters) : Filters :=
  let update1 :=
    if negb (str_eqb (f_type filters) s_expense)
       && negb (str_eqb (f_purpose filters) s_all)
    then setPurpose s_all else id in
  let update2 :=
    if str_eqb (f_type filters) s_income
       && negb (str_eqb (f_category filters) s_all)
       && negb (Array_includes incomeCategories (f_category filters))
    then setCategory s_all else id in
  let update3 :=
    if str_eqb (f_type filters) s_expense
       && negb (str_eqb (f_category filters) s_all)
       && negb (Array_includes categories (f_category filters))
    then setCategory s_all else id in
  update3 (update2 (update1 filters)).

Definition filterCategoryOptions (categories : list jsstring) (filters : Filters)
  : list jsstring :=
  if str_eqb (f_type filters) s_income then incomeCategories
  else if str_eqb (f_type filters) s_expense then categories
  else Array_from_Set (categories ++ incomeCategories).

(** A filter state that can arise with the default category list: every
    type, and a category that was selected before it was renamed away. *)
Definition staleFilters : Filters :=
  mkFilters s_all s_all (js "外食") [] [] [].

(** The clock of a browser in Tokyo (UTC+9). *)
Definition tokyoClock : Clock := mkClock 540 (js "2023-12").

(** ** CSV codec *)

Definition QUOTE : N := 0x22%N.
Definition COMMA : N := 0x2C%N.
Definition LF : N := 0x0A%N.
Definition CR : N := 0x0D%N.

(** [text.split(/\r?\n/)] *)
Fixpoint splitLines (text : jsstring) (current : jsstring) : list jsstring :=
  match text with
  | [] => [current]
  | c :: rest =>
    if (c =? LF)%N then current :: splitLines rest []
    else
      match rest with
      | c' :: rest' =>
        if (c =? CR)%N && (c' =? LF)%N then current :: splitLines rest' []
        else splitLines rest (current ++ [c])
      | [] => splitLines rest (current ++ [c])
      end
  end.

(** The loop of [parseCsv] over one line, from position [i] on: [line] is
    what is left of the line, [result], [current] and [inQuotes] are the
    loop's variables. *)
Fixpoint parseLine (line : jsstring) (result : list jsstring) (current : jsstring)
    (inQuotes : bool) : list jsstring :=
  match line with
  | [] => result ++ [current]
  | char :: rest =>
    match rest with
    | next :: rest' =>
      if (char =? QUOTE)%N && inQuotes && (next =? QUOTE)%N then
        parseLine rest' result (current ++ [QUOTE]) inQuotes
      else if (char =? QUOTE)%N then parseLine rest result current (negb inQuotes)
      else if (char =? COMMA)%N && negb inQuotes then
        parseLine rest (result ++ [current]) [] inQuotes
      else parseLine rest result (current ++ [char]) inQuotes
    | [] =>
      if (char =? QUOTE)%N then parseLine rest result current (negb inQuotes)
      else if (char =? COMMA)%N && negb inQuotes then
        parseLine rest (result ++ [current]) [] inQuotes
      else parseLine rest result (current ++ [char]) inQuotes
    end
  end.

Definition parseCsv (text : jsstring) : list (list jsstring) :=
  let lines :=
    List.filter (fun line => (0 <? length (trim line))%nat) (splitLines text []) in
  List.map (fun line => List.map trim (parseLine line [] [] false)) lines.

(** [parts.join(sep)] *)
Fixpoint join (sep : jsstring) (parts : list jsstring) : jsstring :=
  match parts with
  | [] => []
  | [part] => part
  | part :: rest => part ++ sep ++ join sep rest
  end.

(** [cell.replace] of every quote by two quotes. *)
Definition escapeQuotes (cell : jsstring) : jsstring :=
  flat_map (fun c => if (c =? QUOTE)%N then [QUOTE; QUOTE] else [c]) cell.

(** A cell and a row as [encodeCsv] writes them. *)
Definition encodeCell (cell : jsstring) : jsstring :=
  QUOTE :: escapeQuotes cell ++ [QUOTE].

Definition encodeRow (row : list jsstring) : jsstring :=
  join [COMMA] (List.map encodeCell row).

(** The text [downloadCsv] makes of a table of cells. *)
Definition encodeCsv (rows : list (list jsstring)) : jsstring :=
  join [LF] (List.map encodeRow rows).

Definition s_consumption : jsstring := Eval vm_compute in js "consumption".
Definition s_waste : jsstring := Eval vm_compute in js "waste".
Definition s_investment : jsstring := Eval vm_compute in js "investment".

(** [purposes]: value and label. *)
Definition purposes : list (jsstring * jsstring) :=
  [(s_consumption, js "消費"); (s_waste, js "浪費"); (s_investment, js "投資")].

Definition label_income : jsstring := js "収入".
Definition label_expense : jsstring := js "支出".

Definition transactionHeader : list jsstring :=
  [js "日付"; js "種別"; js "分類"; js "カテゴリ"; js "メモ"; js "金額"].

(** [purposes.find((purpose) => purpose.value === value)?.label || '消費'] *)
Definition purposeLabel (value : jsstring) : jsstring :=
  match List.find (fun purpose => str_eqb (fst purpose) value) purposes with
  | Some purpose => if truthy (snd purpose) then snd purpose else js "消費"
  | None => js "消費"
  end.

Definition purposeFromLabel (label : jsstring) : jsstring :=
  match List.find (fun item => str_eqb (snd item) label) purposes with
  | Some found => fst found
  | None => s_consumption
  end.

(** The cells [downloadCsv] writes for an item. *)
Definition transactionCells (item : Transaction) : list jsstring :=
  [ tx_date item;
    if str_eqb (tx_type item) s_income then label_income else label_expense;
    if str_eqb (tx_type item) s_income then label_income
    else purposeLabel (tx_purpose item);
    tx_category item;
    default [] (tx_note item);
    String_of_Z (tx_amount item) ].

Definition downloadCsv (items : list Transaction) : jsstring :=
  encodeCsv (transactionHeader :: List.map transactionCells items).

(** A row of the payload [handleImport] inserts into [transactions]. *)
Record Payload : Type := mkPayload {
  p_date : jsstring;
  p_type : jsstring;
  p_purpose : jsstring;
  p_category : jsstring;
  p_note : jsstring;
  p_amount : Z
}.

(** [x || fallback] for a cell that may be missing. *)
Definition orElse (x : option jsstring) (fallback : jsstring) : jsstring :=
  match x with
  | Some s => if truthy s then s else fallback
  | None => fallback
  end.

(** The callback of [body.map] for transactions; [None] is [null]. *)
Definition importRow (row : list jsstring) : option Payload :=
  let date := row !! 0%nat in
  let typeLabel := row !! 1%nat in
  let purposeLabel := row !! 2%nat in
  let category := row !! 3%nat in
  let note := row !! 4%nat in
  let amount := row !! 5%nat in
  let type := if bool_decide (typeLabel = Some label_income) then s_income else s_expense in
  let purpose :=
    if str_eqb type s_income then s_consumption
    else purposeFromLabel (default [] purposeLabel) in
  let amountValue := amount ≫= Number_of in
  match date, amountValue with
  | Some date, Some amountValue =>
    if negb (truthy date) then None
    else
      Some (mkPayload date type purpose
              (orElse category
                 (if str_eqb type s_income
                  then default [] (head incomeCategories)
                  else default [] (head defaultCategories)))
              (orElse note [])
              (Z.abs amountValue))
  | _, _ => None
  end.

(** The transactions branch of [handleImport], from the parsed rows to the
    payload handed to the store; [inl] is the status shown when nothing is
    written. *)
Definition importTransactions (rows : list (list jsstring)) : jsstring + list Payload :=
  if (length rows <=? 1)%nat then inl (js "CSVにデータがありません")
  else
    let header := default [] (head rows) in
    let body :=
      List.filter (fun row => existsb (fun cell => (0 <? length cell)%nat) row)
        (tail rows) in
    if negb (bool_decide (header !! 0%nat = Some (js "日付")))
    then inl (js "明細CSVの形式が違います")
    else
      let payload := omap importRow body in
      if (length payload =? 0)%nat then inl (js "インポートできる明細がありません")
      else inr payload.

(** A field goes through the codec unchanged when it has no line feed and
    no white space at either end. *)
Definition fieldSafe (s : jsstring) : Prop :=
  (LF ∉ s) /\ trim s = s.

(** The transactions the round trip is stated for: the columns hold what
    the table admits (a date, one of the two types, one of the three
    purposes on an expense, a category, an amount that is not negative and
    prints in plain digits), and the text fields are safe for the codec. *)
Record csvSafe (item : Transaction) : Prop := mkCsvSafe {
  safe_date : fieldSafe (tx_date item) /\ tx_date item <> [];
  safe_type : tx_type item = s_income \/ tx_type item = s_expense;
  safe_purpose :
    tx_type item = s_expense ->
    tx_purpose item = s_consumption \/ tx_purpose item = s_waste
    \/ tx_purpose item = s_investment;
  safe_category : fieldSafe (tx_category item) /\ tx_category item <> [];
  safe_note : fieldSafe (default [] (tx_note item));
  safe_amount : 0 <= tx_amount item < 10 ^ 21
}.

(** The tuple the round trip compares. *)
Definition sameTuple (item : Transaction) (p : Payload) : Prop :=
  p_date p = tx_date item
  /\ p_type p = tx_type item
  /\ (tx_type item = s_expense -> p_purpose p = tx_purpose item)
  /\ p_category p = tx_category item
  /\ p_note p = default [] (tx_note item)
  /\ p_amount p = tx_amount item.

Definition exampleTransactions : list Transaction :=
  [ mkTransaction (js "2024-01-05") 1200 s_expense s_waste (js "食費")
      (Some (js "ランチ, " ++ QUOTE :: js "特盛" ++ [QUOTE]));
    mkTransaction (js "2024-01-10") 50000 s_income s_consumption (js "労働") None ].


Definition offlineWorld : World :=
  mkWorld exampleClock
    [mkBudgetRow (js "2023-12") (js "食費") 10000;
     mkBudgetRow (js "2023-12") (js "住居") 50000]
    ∅ (js "2024-01") (js "2023-12") ∅ ∅ [] false
    [None; Some (js "Failed to fetch")] [true] [].

(** A filter for the examples: expenses of the category 食費. *)
Definition exampleFilters : Filters :=
  mkFilters s_expense s_all (js "食費") [] [] [].

(** Budgets for the examples; 外食 is not in the category list. *)
Definition exampleBudgets : Budgets :=
  {[ js "食費" := 10000; js "外食" := 3000 ]}.

(** Day of the era of the first of a month, from the year of the era and
    the month counted from March, and the way back; the two halves of
    [days_from_civil] and [civil_from_days] inside one 400-year era. *)
Definition doe_of (yoe mp : Z) : Z :=
  yoe * 365 + yoe / 4 - yoe / 100 + (153 * mp + 2) / 5.

Definition yoe_mp_of (doe : Z) : Z * Z :=
  let yoe := (doe - doe / 1460 + doe / 36524 - doe / 146096) / 365 in
  let doy := doe - (365 * yoe + yoe / 4 - yoe / 100) in
  (yoe, (5 * doy + 2) / 153).

(** The check, over one era, that the first of every month is mapped back
    to its year and month, and the day before it to the month before. *)
Definition eraCheck (yoe mp : Z) : bool :=
  let doe := doe_of yoe mp in
  (0 <=? doe) && (doe <? 146097)
  && bool_decide (yoe_mp_of doe = (yoe, mp))
  && (if (yoe =? 0) && (mp =? 0) then true
      else bool_decide
             (yoe_mp_of (doe - 1)
              = if mp =? 0 then (yoe - 1, 11) else (yoe, mp - 1))).

(** The calendar month before a month. *)
Definition monthBefore (ym : Z * Z) : Z * Z :=
  if snd ym =? 1 then (fst ym - 1, 12) else (fst ym, snd ym - 1).

(** The calendar month before [year]-[month], as text. *)
Definition precedingMonth (year month : Z) : jsstring :=
  isoMonth (monthBefore (year, month)).

(** A month value that reads as [year]-[month]. *)
Definition readsAs (monthValue : jsstring) (year month : Z) : Prop :=
  truthy monthValue = true
  /\ split_on 0x2D%N monthValue [] !! 0%nat ≫= Number_of = Some year
  /\ split_on 0x2D%N monthValue [] !! 1%nat ≫= Number_of = Some month.

(** ** Totals and charts *)

(** The value of [stats]. *)
Record Stats : Type := mkStats {
  st_income : Z;
  st_expense : Z;
  st_balance : Z
}.

(** [items.filter((item) => item.type === 'income')
         .reduce((sum, item) => sum + item.amount, 0)] *)
Definition incomeSum (items : list Transaction) : Z :=
  fold_left (fun sum item => sum + tx_amount item)
    (List.filter (fun item => str_eqb (tx_type item) s_income) items) 0.

Definition stats (filteredItems : list Transaction) : Stats :=
  let income := incomeSum filteredItems in
  let expense := expenseSum filteredItems in
  mkStats income expense (income - expense).

(** A [Map] keyed by strings: its entries in insertion order.  [set] on a
    key that is present replaces the value where the entry stands. *)
Definition JsMap (V : Type) : Type := list (jsstring * V).

Fixpoint Map_get {V} (map : JsMap V) (key : jsstring) : option V :=
  match map with
  | [] => None
  | (k, v) :: map' => if str_eqb k key then Some v else Map_get map' key
  end.

Fixpoint Map_set {V} (map : JsMap V) (key : jsstring) (value : V) : JsMap V :=
  match map with
  | [] => [(key, value)]
  | (k, v) :: map' =>
    if str_eqb k key then (k, value) :: map' else (k, v) :: Map_set map' key value
  end.

(** A row of the two pie charts. *)
Record NameValue : Type := mkNameValue {
  nv_name : jsstring;
  nv_value : Z
}.

(** [Array.from(map.entries()).map(([name, value]) => ({ name, value }))] *)
Definition entriesToRows (map : JsMap Z) : list NameValue :=
  List.map (fun entry => mkNameValue (fst entry) (snd entry)) map.

Definition categoryData (filteredItems : list Transaction) : list NameValue :=
  let map :=
    fold_left
      (fun (map : JsMap Z) item =>
         Map_set map (tx_category item)
           (default 0 (Map_get map (tx_category item)) + tx_amount item))
      (List.filter (fun item => str_eqb (tx_type item) s_expense) filteredItems)
      [] in
  entriesToRows map.






Section MonthlyData.

(** [String.prototype.localeCompare], which depends on the locale of the
    browser; the totals do not depend on it. *)
Variable localeCompare : jsstring -> jsstring -> Z.


End MonthlyData.

(** ** The entry form *)

(** The [form] state; [amount] is the text of the input. *)
Record Form : Type := mkForm {
  fm_date : jsstring;
  fm_amount : jsstring;
  fm_type : jsstring;
  fm_purpose : jsstring;
  fm_category : jsstring;
  fm_note : jsstring
}.

Definition setFormCategory (category : jsstring) (prev : Form) : Form :=
  mkForm (fm_date prev) (fm_amount prev) (fm_type prev) (fm_purpose prev) category
    (fm_note prev).

Definition setFormCategoryPurpose (category purpose : jsstring) (prev : Form) : Form :=
  mkForm (fm_date prev) (fm_amount prev) (fm_type prev) purpose category (fm_note prev).

(** One run of the two effects on [form.type], [form.category] and
    [categories]: the conditions read the form of the render, the updates
    are applied in order to the state. *)
Definition formCorrections (categories : list jsstring) (form : Form) : Form :=
  let fallback := orElse (head categories) (default [] (head defaultCategories)) in
  let update1 :=
    if str_eqb (fm_type form) s_expense
       && negb (Array_includes categories (fm_category form))
    then setFormCategory fallback else id in
  let update2 :=
    if str_eqb (fm_type form) s_income
       && negb (Array_includes incomeCategories (fm_category form))
    then setFormCategoryPurpose (default [] (head incomeCategories)) s_consumption
    else id in
  let update3 :=
    if str_eqb (fm_type form) s_expense
       && negb (Array_includes categories (fm_category form))
    then setFormCategory fallback else id in
  update3 (update2 (update1 form)).

(** ** The other CSV files *)

Definition budgetsHeader : list jsstring := [js "月"; js "カテゴリ"; js "予算"].

(** [Object.entries(budgets)].  The engine lists the entries in insertion
    order; the files are compared row by row. *)
Definition Object_entries (budgets : Budgets) : list (jsstring * Z) :=
  map_to_list budgets.

(** The text [downloadBudgetsCsv] makes of the budgets on screen. *)
Definition downloadBudgetsCsv (budgets : Budgets) (month : jsstring) : jsstring :=
  encodeCsv
    (budgetsHeader
       :: List.map (fun entry => [month; fst entry; String_of_Z (snd entry)])
            (Object_entries budgets)).

(** The text [downloadBudgetsCsvAll] makes of the rows the store returns. *)
Definition downloadBudgetsCsvAll (data : list BudgetRow) : jsstring :=
  encodeCsv
    (budgetsHeader
       :: List.map (fun item => [b_month item; b_category item; String_of_Z (b_amount item)])
            data).

(** The text [downloadCategoriesCsv] makes: one quoted cell per line. *)
Definition downloadCategoriesCsv (categories : list jsstring) : jsstring :=
  join [LF]
    (List.map (fun row => encodeCell (default [] (head row)))
       ([js "カテゴリ"] :: List.map (fun name => [name]) categories)).

(** The rows of a parsed file below its header that hold a cell that is
    not empty. *)
Definition importBody (rows : list (list jsstring)) : list (list jsstring) :=
  List.filter (fun row => existsb (fun cell => (0 <? length cell)%nat) row) (tail rows).

(** The callback of [body.map] for budgets; [None] is [null]. *)
Definition importBudgetRow (row : list jsstring) : option BudgetRow :=
  let monthValue := row !! 0%nat in
  let category := row !! 1%nat in
  let amount := row !! 2%nat in
  let amountValue := amount ≫= Number_of in
  match monthValue, category, amountValue with
  | Some monthValue, Some category, Some amountValue =>
    if negb (truthy monthValue) || negb (truthy category) then None
    else Some (mkBudgetRow monthValue category (Z.abs amountValue))
  | _, _, _ => None
  end.

(** The budgets branch of [handleImport], from the parsed rows to the
    payload handed to the store; [inl] is the status shown when nothing is
    written. *)
Definition importBudgets (rows : list (list jsstring)) : jsstring + list BudgetRow :=
  if (length rows <=? 1)%nat then inl (js "CSVにデータがありません")
  else
    let header := default [] (head rows) in
    let body := importBody rows in
    if negb (bool_decide (header !! 0%nat = Some (js "月")))
    then inl (js "予算CSVの形式が違います")
    else
      let payload := omap importBudgetRow body in
      if (length payload =? 0)%nat then inl (js "インポートできる予算がありません")
      else inr payload.

(** The categories branch of [handleImport]: the names handed to the
    store. *)
Definition importCategories (rows : list (list jsstring)) : jsstring + list jsstring :=
  if (length rows <=? 1)%nat then inl (js "CSVにデータがありません")
  else
    let header := default [] (head rows) in
    let body := importBody rows in
    if negb (bool_decide (header !! 0%nat = Some (js "カテゴリ")))
    then inl (js "カテゴリCSVの形式が違います")
    else
      let payload :=
        List.filter truthy (omap (fun row : list jsstring => row !! 0%nat) body) in
      if (length payload =? 0)%nat then inl (js "インポートできるカテゴリがありません")
      else inr payload.

(** [handleImport] for a budgets file with the given text, on the store:
    the status when nothing is written, or the insert and the reload of the
    selected month. *)
Definition handleImportBudgets (fuel : nat) (text : jsstring) : Action unit :=
  setLoading true ;;
  (match importBudgets (parseCsv text) with
   | inl status => setStatus status ;; setLoading false
   | inr payload =>
     let* error := insertBudgets payload in
     match error with
     | Some message => setStatus (js "予算インポートエラー: " ++ message)
     | None =>
       (fun w => loadBudgets fuel (w_month w) w) ;;
       setStatus (js "予算をインポートしました")
     end
   end) ;;
  setLoading false.


(** A cell of a file written without quotes. *)
Definition plainCell (cell : jsstring) : Prop :=
  fieldSafe cell /\ (QUOTE ∉ cell) /\ (COMMA ∉ cell).

(** A stored budget row as the export and the import can carry it. *)
Definition csvSafeBudget (item : BudgetRow) : Prop :=
  (fieldSafe (b_month item) /\ b_month item <> [])
  /\ (fieldSafe (b_category item) /\ b_category item <> [])
  /\ 0 <= b_amount item.


(** A string that does not start with white space. *)
Definition headNotWhite (s : jsstring) : Prop :=
  match s with
  | [] => True
  | c :: _ => isWhiteSpace c = false
  end.

(** ** Days of the month *)

(** Day of the month of a day number. *)
Definition dayOfMonth (z : Z) : Z :=
  let z := z + 719468 in
  let era := z / 146097 in
  let doe := z - era * 146097 in
  let yoe := (doe - doe / 1460 + doe / 36524 - doe / 146096) / 365 in
  let doy := doe - (365 * yoe + yoe / 4 - yoe / 100) in
  let mp := (5 * doy + 2) / 153 in
  doy - (153 * mp + 2) / 5 + 1.

(** The time value of [new Date(year, monthIndex, day)]: midnight local
    time; the month index and the day carry into the year and the month. *)
Definition Date_local_day (clock : Clock) (year monthIndex day : Z) : Z :=
  let yr := if (0 <=? year) && (year <=? 99) then 1900 + year else year in
  let ym := yr + monthIndex / 12 in
  let mn := monthIndex mod 12 in
  (days_from_civil ym (mn + 1) 1 + (day - 1)) * msPerDay
  - tzOffsetMinutes clock * 60000.

(** The day number of a time value in local time, and the time within
    that day. *)
Definition localDay (clock : Clock) (t : Z) : Z :=
  (t + tzOffsetMinutes clock * 60000) / msPerDay.




Definition getDate (clock : Clock) (t : Z) : Z :=
  dayOfMonth (localDay clock t).



(** [daysInMonth] of [budgetStats] for the selected month. *)
Definition daysInMonth (clock : Clock) (month : jsstring) : Z :=
  let parts := split_on 0x2D%N month [] in
  let year := parts !! 0%nat ≫= Number_of in
  let monthValue := parts !! 1%nat ≫= Number_of in
  if negb (falsyNumber year) && negb (falsyNumber monthValue)
  then getDate clock (Date_local_day clock (default 0 year) (default 0 monthValue) 0)
  else 0.

(** The Gregorian calendar: leap years and the lengths of the months. *)
Definition isLeapYear (y : Z) : bool :=
  (y mod 4 =? 0) && (negb (y mod 100 =? 0) || (y mod 400 =? 0)).

Definition monthLength (ym : Z * Z) : Z :=
  let '(y, m) := ym in
  if m =? 2 then (if isLeapYear y then 29 else 28)
  else if (m =? 4) || (m =? 6) || (m =? 9) || (m =? 11) then 30
  else 31.

(** The calendar month after a month. *)
Definition monthAfter (ym : Z * Z) : Z * Z :=
  if snd ym =? 12 then (fst ym + 1, 1) else (fst ym, snd ym + 1).

(** Inside one 400-year era: the civil month of a month counted from
    March, the length of that month, and the check, over the era, that
    every day of a month is mapped back to the month and that the month
    ends where the next one starts. *)
Definition civilOfMarchMonth (yoe mp : Z) : Z * Z :=
  (if mp <? 10 then yoe else yoe + 1, if mp <? 10 then mp + 3 else mp - 9).

Definition lengthInEra (yoe mp : Z) : Z := monthLength (civilOfMarchMonth yoe mp).

Definition monthCheck (yoe mp : Z) : bool :=
  forallb
    (fun k =>
       let doe := doe_of yoe mp + k in
       (0 <=? doe) && (doe <? 146097) && bool_decide (yoe_mp_of doe = (yoe, mp)))
    (seqZ 0 (lengthInEra yoe mp))
  && ((if (yoe =? 399) && (mp =? 11) then 146097
       else if mp =? 11 then doe_of (yoe + 1) 0 else doe_of yoe (mp + 1))
      - doe_of yoe mp =? lengthInEra yoe mp).

(** The era, the year of the era and the month counted from March of a
    civil month, as [days_from_civil] takes them. *)
Definition marchOf (ym : Z * Z) : Z * Z * Z :=
  let '(y, m) := ym in
  let y' := if m <=? 2 then y - 1 else y in
  (y' / 400, y' mod 400, (m + 9) mod 12).

(** ** Categories: the store and the actions *)

(** The owner's rows of the three tables (the names of [categories],
    oldest first, the rows of one insert in the order of its payload), the
    component state the category actions touch, and what
    the surroundings will answer: the error message of a request that
    fails, and the answers to the dialogs to come. *)
Record CategoryWorld : Type := mkCategoryWorld {
  c_categoryRows : list jsstring;
  c_transactionRows : list Transaction;
  c_budgetRows : list BudgetRow;
  c_categories : list jsstring;
  c_form : Form;
  c_editingCategoryId : option jsstring;
  c_editingCategoryName : jsstring;
  c_categoryDraft : jsstring;
  c_status : jsstring;
  c_loading : bool;
  c_faults : list (option jsstring);
  c_answers : list bool;
  c_alerts : list jsstring
}.

(** A category action runs on a world and yields a value and the next
    world. *)
Definition CategoryAction (A : Type) : Type := CategoryWorld -> A * CategoryWorld.

Definition cret {A} (a : A) : CategoryAction A := fun w => (a, w).

Definition cbind {A B} (m : CategoryAction A) (k : A -> CategoryAction B)
  : CategoryAction B :=
  fun w => let '(a, w') := m w in k a w'.

Declare Scope category_scope.
Delimit Scope category_scope with category.
Notation "'let*' x := m 'in' k" := (cbind m (fun x => k))
  (at level 10, x name, m at level 100, k at level 200, only parsing) : category_scope.
Notation "m ;; k" := (cbind m (fun _ => k))
  (at level 100, k at level 200, only parsing) : category_scope.
Open Scope category_scope.

Definition setCategoryRows (rows : list jsstring) : CategoryAction unit :=
  fun w =>
    (tt, mkCategoryWorld rows (c_transactionRows w) (c_budgetRows w) (c_categories w)
           (c_form w) (c_editingCategoryId w) (c_editingCategoryName w)
           (c_categoryDraft w) (c_status w) (c_loading w) (c_faults w) (c_answers w)
           (c_alerts w)).

Definition setTransactionRows (rows : list Transaction) : CategoryAction unit :=
  fun w =>
    (tt, mkCategoryWorld (c_categoryRows w) rows (c_budgetRows w) (c_categories w)
           (c_form w) (c_editingCategoryId w) (c_editingCategoryName w)
           (c_categoryDraft w) (c_status w) (c_loading w) (c_faults w) (c_answers w)
           (c_alerts w)).

Definition setBudgetRows (rows : list BudgetRow) : CategoryAction unit :=
  fun w =>
    (tt, mkCategoryWorld (c_categoryRows w) (c_transactionRows w) rows (c_categories w)
           (c_form w) (c_editingCategoryId w) (c_editingCategoryName w)
           (c_categoryDraft w) (c_status w) (c_loading w) (c_faults w) (c_answers w)
           (c_alerts w)).

Definition setCategories (categories : list jsstring) : CategoryAction unit :=
  fun w =>
    (tt, mkCategoryWorld (c_categoryRows w) (c_transactionRows w) (c_budgetRows w)
           categories (c_form w) (c_editingCategoryId w) (c_editingCategoryName w)
           (c_categoryDraft w) (c_status w) (c_loading w) (c_faults w) (c_answers w)
           (c_alerts w)).

Definition setForm (f : Form -> Form) : CategoryAction unit :=
  fun w =>
    (tt, mkCategoryWorld (c_categoryRows w) (c_transactionRows w) (c_budgetRows w)
           (c_categories w) (f (c_form w)) (c_editingCategoryId w)
           (c_editingCategoryName w) (c_categoryDraft w) (c_status w) (c_loading w)
           (c_faults w) (c_answers w) (c_alerts w)).

Definition setEditingCategoryId (id : option jsstring) : CategoryAction unit :=
  fun w =>
    (tt, mkCategoryWorld (c_categoryRows w) (c_transactionRows w) (c_budgetRows w)
           (c_categories w) (c_form w) id (c_editingCategoryName w)
           (c_categoryDraft w) (c_status w) (c_loading w) (c_faults w) (c_answers w)
           (c_alerts w)).

Definition setEditingCategoryName (name : jsstring) : CategoryAction unit :=
  fun w =>
    (tt, mkCategoryWorld (c_categoryRows w) (c_transactionRows w) (c_budgetRows w)
           (c_categories w) (c_form w) (c_editingCategoryId w) name
           (c_categoryDraft w) (c_status w) (c_loading w) (c_faults w) (c_answers w)
           (c_alerts w)).

Definition setCategoryDraft (draft : jsstring) : CategoryAction unit :=
  fun w =>
    (tt, mkCategoryWorld (c_categoryRows w) (c_transactionRows w) (c_budgetRows w)
           (c_categories w) (c_form w) (c_editingCategoryId w)
           (c_editingCategoryName w) draft (c_status w) (c_loading w) (c_faults w)
           (c_answers w) (c_alerts w)).

Definition setCategoryStatus (status : jsstring) : CategoryAction unit :=
  fun w =>
    (tt, mkCategoryWorld (c_categoryRows w) (c_transactionRows w) (c_budgetRows w)
           (c_categories w) (c_form w) (c_editingCategoryId w)
           (c_editingCategoryName w) (c_categoryDraft w) status (c_loading w)
           (c_faults w) (c_answers w) (c_alerts w)).

Definition setCategoryLoading (loading : bool) : CategoryAction unit :=
  fun w =>
    (tt, mkCategoryWorld (c_categoryRows w) (c_transactionRows w) (c_budgetRows w)
           (c_categories w) (c_form w) (c_editingCategoryId w)
           (c_editingCategoryName w) (c_categoryDraft w) (c_status w) loading
           (c_faults w) (c_answers w) (c_alerts w)).

(** The outcome the surroundings give the next request. *)
Definition nextCategoryFault : CategoryAction (option jsstring) :=
  fun w =>
    (default None (head (c_faults w)),
     mkCategoryWorld (c_categoryRows w) (c_transactionRows w) (c_budgetRows w)
       (c_categories w) (c_form w) (c_editingCategoryId w) (c_editingCategoryName w)
       (c_categoryDraft w) (c_status w) (c_loading w) (tail (c_faults w))
       (c_answers w) (c_alerts w)).

(** [confirm(...)] *)
Definition nextCategoryAnswer : CategoryAction bool :=
  fun w =>
    (default false (head (c_answers w)),
     mkCategoryWorld (c_categoryRows w) (c_transactionRows w) (c_budgetRows w)
       (c_categories w) (c_form w) (c_editingCategoryId w) (c_editingCategoryName w)
       (c_categoryDraft w) (c_status w) (c_loading w) (c_faults w)
       (tail (c_answers w)) (c_alerts w)).

(** [alert(message)] *)
Definition alert (message : jsstring) : CategoryAction unit :=
  fun w =>
    (tt, mkCategoryWorld (c_categoryRows w) (c_transactionRows w) (c_budgetRows w)
           (c_categories w) (c_form w) (c_editingCategoryId w)
           (c_editingCategoryName w) (c_categoryDraft w) (c_status w) (c_loading w)
           (c_faults w) (c_answers w) (c_alerts w ++ [message])).

(** [supabase.from('categories').select('*').order('created_at', ...)] *)
Definition selectCategories : CategoryAction (jsstring + list jsstring) :=
  let* fault := nextCategoryFault in
  match fault with
  | Some message => cret (inl message)
  | None => fun w => (inr (c_categoryRows w), w)
  end.

(** [unique (user_id, name)]: whether adding the names would break the
    constraint. *)
Fixpoint violatesUniqueName (rows names : list jsstring) : bool :=
  match names with
  | [] => false
  | name :: rest =>
    Array_includes rows name || Array_includes rest name || violatesUniqueName rows rest
  end.

(** [supabase.from('categories').insert(payload)]: all rows or none. *)
Definition insertCategories (names : list jsstring) : CategoryAction (option jsstring) :=
  let* fault := nextCategoryFault in
  match fault with
  | Some message => cret (Some message)
  | None =>
    fun w =>
      if violatesUniqueName (c_categoryRows w) names then (Some uniqueViolation, w)
      else (setCategoryRows (c_categoryRows w ++ names) ;; cret None) w
  end.

(** [supabase.from('categories').update({ name: nextName }).eq('name', oldName)] *)
Definition updateCategoryName (oldName nextName : jsstring)
  : CategoryAction (option jsstring) :=
  let* fault := nextCategoryFault in
  match fault with
  | Some message => cret (Some message)
  | None =>
    fun w =>
      if Array_includes (c_categoryRows w) oldName
         && Array_includes (c_categoryRows w) nextName
         && negb (str_eqb oldName nextName)
      then (Some uniqueViolation, w)
      else
        (setCategoryRows
           (List.map (fun name => if str_eqb name oldName then nextName else name)
              (c_categoryRows w)) ;;
         cret None) w
  end.

Definition setTransactionCategory (category : jsstring) (item : Transaction)
  : Transaction :=
  mkTransaction (tx_date item) (tx_amount item) (tx_type item) (tx_purpose item)
    category (tx_note item).

(** [supabase.from('transactions').update({ category: nextName })
      .eq('category', oldName)]; the component does not read the outcome. *)
Definition updateTransactionCategory (oldName nextName : jsstring) : CategoryAction unit :=
  let* fault := nextCategoryFault in
  match fault with
  | Some _ => cret tt
  | None =>
    fun w =>
      setTransactionRows
        (List.map
           (fun item =>
              if str_eqb (tx_category item) oldName
              then setTransactionCategory nextName item else item)
           (c_transactionRows w)) w
  end.

(** [supabase.from('transactions').select('id', { count: 'exact', head: true })
      .eq('category', name)] *)
Definition countTransactions (name : jsstring) : CategoryAction (jsstring + Z) :=
  let* fault := nextCategoryFault in
  match fault with
  | Some message => cret (inl message)
  | None =>
    fun w =>
      (inr (Z.of_nat
              (length (List.filter (fun item => str_eqb (tx_category item) name)
                         (c_transactionRows w)))), w)
  end.

(** [supabase.from('categories').delete().eq('name', name)] *)
Definition deleteCategory (name : jsstring) : CategoryAction (option jsstring) :=
  let* fault := nextCategoryFault in
  match fault with
  | Some message => cret (Some message)
  | None =>
    (fun w =>
       setCategoryRows (List.filter (fun row => negb (str_eqb row name)) (c_categoryRows w))
         w) ;;
    cret None
  end.

(** [supabase.from('budgets').delete().eq('category', name)]; the component
    does not read the outcome. *)
Definition deleteBudgetsOfCategory (name : jsstring) : CategoryAction unit :=
  let* fault := nextCategoryFault in
  match fault with
  | Some _ => cret tt
  | None =>
    fun w =>
      setBudgetRows
        (List.filter (fun row => negb (str_eqb (b_category row) name)) (c_budgetRows w)) w
  end.

(** [loadCategories], as the render whose [form] it reads defines it. *)
Definition loadCategories (form : Form) : CategoryAction unit :=
  setCategoryLoading true ;;
  let* r := selectCategories in
  match r with
  | inl message =>
    setCategoryStatus (js "カテゴリ読み込みエラー: " ++ message) ;;
    setCategories defaultCategories ;;
    setCategoryLoading false
  | inr [] =>
    let* seedError := insertCategories defaultCategories in
    match seedError with
    | Some message =>
      setCategoryStatus (js "カテゴリ初期化エラー: " ++ message) ;;
      setCategories defaultCategories
    | None =>
      let* seeded := selectCategories in
      setCategories (match seeded with inl _ => [] | inr rows => rows end)
    end ;;
    setCategoryLoading false
  | inr data =>
    let nextCategories := data in
    setCategories nextCategories ;;
    (if negb (Array_includes nextCategories (fm_category form))
     then setForm (setFormCategory
                     (orElse (head nextCategories) (default [] (head defaultCategories))))
     else cret tt) ;;
    setCategoryLoading false
  end.

Definition cancelEditCategory : CategoryAction unit :=
  setEditingCategoryId None ;; setEditingCategoryName [].

Definition handleAddCategory : CategoryAction unit :=
  fun w =>
    let form := c_form w in
    let name := trim (c_categoryDraft w) in
    (if negb (truthy name) then cret tt
     else
       setCategoryLoading true ;;
       let* error := insertCategories [name] in
       match error with
       | Some message => setCategoryStatus (js "カテゴリ追加エラー: " ++ message)
       | None => setCategoryDraft [] ;; loadCategories form
       end ;;
       setCategoryLoading false) w.

Definition handleRenameCategory (oldName : jsstring) : CategoryAction unit :=
  fun w =>
    let form := c_form w in
    let nextName := trim (c_editingCategoryName w) in
    (if negb (truthy nextName) || str_eqb nextName oldName then cancelEditCategory
     else
       setCategoryLoading true ;;
       let* error := updateCategoryName oldName nextName in
       match error with
       | Some message =>
         setCategoryStatus (js "カテゴリ更新エラー: " ++ message) ;;
         setCategoryLoading false
       | None =>
         updateTransactionCategory oldName nextName ;;
         loadCategories form ;;
         (if str_eqb (fm_category form) oldName
          then setForm (setFormCategory nextName) else cret tt) ;;
         cancelEditCategory ;;
         setCategoryLoading false
       end) w.

Definition handleDeleteCategory (name : jsstring) : CategoryAction unit :=
  fun w =>
    let form := c_form w in
    (let* r := countTransactions name in
     match r with
     | inl message => setCategoryStatus (js "カテゴリ確認エラー: " ++ message)
     | inr count =>
       if 0 <? count then
         alert (js "このカテゴリは既に使われています。先に明細のカテゴリを変更してください。")
       else
         let* answer := nextCategoryAnswer in
         if negb answer then cret tt
         else
           setCategoryLoading true ;;
           let* error := deleteCategory name in
           match error with
           | Some message => setCategoryStatus (js "カテゴリ削除エラー: " ++ message)
           | None =>
             deleteBudgetsOfCategory name ;;
             loadCategories form ;;
             if str_eqb (fm_category form) name
             then setForm (setFormCategory (default [] (head defaultCategories)))
             else cret tt
           end ;;
           setCategoryLoading false
     end) w.

Close Scope category_scope.

(** The outcome the surroundings give the [i]-th request from now. *)
Definition categoryFaultAt (i : nat) (w : CategoryWorld) : option jsstring :=
  default None (c_faults w !! i).

(** A world for the category examples: three categories, an expense under
    食費, budgets for 食費 and 娯楽, the form on 娯楽; nothing fails and the
    user confirms. *)
Definition exampleCategoryWorld : CategoryWorld :=
  mkCategoryWorld
    [js "食費"; js "住居"; js "娯楽"]
    [mkTransaction (js "2024-01-05") 1200 s_expense s_consumption (js "食費") None]
    [mkBudgetRow (js "2024-01") (js "食費") 30000;
     mkBudgetRow (js "2024-01") (js "娯楽") 5000;
     mkBudgetRow (js "2024-02") (js "娯楽") 6000]
    [js "食費"; js "住居"; js "娯楽"]
    (mkForm (js "2024-01-05") [] s_expense s_consumption (js "娯楽") [])
    None [] [] [] false [] [true] [].

(** * Proofs *)

(** ** Strings *)

Lemma str_eqb_eq a b : str_eqb a b = true <-> a = b.
Proof. unfold str_eqb. apply bool_decide_eq_true. Qed.

Lemma str_eqb_refl a : str_eqb a a = true.
Proof. by apply str_eqb_eq. Qed.

Lemma str_eqb_neq a b : str_eqb a b = false <-> a <> b.
Proof. unfold str_eqb. apply bool_decide_eq_false. Qed.

(** ** Filter engine *)

Section FilterFacts.

Variable toLowerCase : jsstring -> jsstring.

Lemma filter_bool_sublist {A} (p : A -> bool) (l : list A) :
  List.filter p l `sublist_of` l.
Proof.
  induction l as [|x l IH]; simpl; [constructor|].
  destruct (p x); by constructor.
Qed.

Lemma filter_bool_mono {A} (p q : A -> bool) (l : list A) :
  (forall x, p x = true -> q x = true) ->
  List.filter p l `sublist_of` List.filter q l.
Proof.
  intros Hpq. induction l as [|x l IH]; simpl; [constructor|].
  destruct (p x) eqn:Hp.
  - rewrite (Hpq x Hp). by constructor.
  - destruct (q x); [by constructor | done].
Qed.

(** An item that passes a filter passes each of its relaxations. *)
Lemma filterPredicate_relaxed f f' item :
  relaxed f f' ->
  filterPredicate toLowerCase f item = true ->
  filterPredicate toLowerCase f' item = true.
Proof.
  intros Hr. unfold filterPredicate.
  destruct Hr; simpl; rewrite ?str_eqb_refl; simpl;
    repeat match goal with
           | |- context [if ?b then false else _] => destruct b; try done
           end.
Qed.

(** C1: the filtered items form a subsequence of the month's items (and of
    the whole transaction list), and replacing one predicate of the filter
    (type, purpose, category, query, date-from or date-to) by its pass-all
    value keeps every item that passed, in order. *)
Theorem filteredItems_subset_and_monotone
    (transactions : list Transaction) (month : jsstring) (filters : Filters) :
  let items := monthItems transactions month in
  filteredItems toLowerCase items filters `sublist_of` items
  /\ filteredItems toLowerCase items filters `sublist_of` transactions
  /\ (forall item, item ∈ filteredItems toLowerCase items filters -> item ∈ items)
  /\ forall filters', relaxed filters filters' ->
       filteredItems toLowerCase items filters
         `sublist_of` filteredItems toLowerCase items filters'
       /\ (forall item, item ∈ filteredItems toLowerCase items filters ->
                        item ∈ filteredItems toLowerCase items filters').
Proof.
  intros items.
  assert (Hsub : filteredItems toLowerCase items filters `sublist_of` items)
    by apply filter_bool_sublist.
  split; [exact Hsub|]. split.
  { etrans; [exact Hsub|]. apply filter_bool_sublist. }
  split.
  { intros item Hin. eapply elem_of_sublist; [exact Hin | exact Hsub]. }
  intros filters' Hr.
  assert (Hmono : filteredItems toLowerCase items filters
                    `sublist_of` filteredItems toLowerCase items filters').
  { apply filter_bool_mono. intros x. by apply filterPredicate_relaxed. }
  split; [exact Hmono|].
  intros item Hin. eapply elem_of_sublist; [exact Hin | exact Hmono].
Qed.

End FilterFacts.

Lemma filteredItems_subset_and_monotone_witness :
  filteredItems asciiLower (monthItems exampleTransactions (js "2024-01")) exampleFilters
    `sublist_of`
  filteredItems asciiLower (monthItems exampleTransactions (js "2024-01"))
    (mkFilters s_all s_all (js "食費") [] [] []).
Proof.
  destruct (filteredItems_subset_and_monotone asciiLower exampleTransactions
              (js "2024-01") exampleFilters) as (_ & _ & _ & Hrelax).
  destruct (Hrelax _ (relax_type exampleFilters)) as [Hsub _].
  exact Hsub.
Defined.

(** ** Budget evaluator *)

Lemma fold_left_add_foldr {A} (f : A -> Z) (l : list A) (a : Z) :
  fold_left (fun sum x => sum + f x) l a = a + foldr Z.add 0 (f <$> l).
Proof.
  revert a. induction l as [|x l IH]; intros a; [simpl; lia|].
  rewrite fmap_cons. simpl. rewrite IH. lia.
Qed.

Lemma foldr_add_Permutation (l k : list Z) :
  l ≡ₚ k -> foldr Z.add 0 l = foldr Z.add 0 k.
Proof. induction 1; simpl; lia. Qed.

Lemma budgetOf_keys (budgets : Budgets) :
  budgetOf budgets <$> Object_keys budgets = (map_to_list budgets).*2.
Proof.
  unfold Object_keys. rewrite <- list_fmap_compose.
  apply list_fmap_ext. intros i [k v] Hkv; simpl.
  apply list_elem_of_lookup_2, elem_of_map_to_list in Hkv.
  unfold budgetOf. by rewrite Hkv.
Qed.


(** With no type restriction to income and no category selected, the total
    is the sum of all stored amounts. *)
Lemma budgetTotal_all (budgets : Budgets) filters :
  f_type filters <> s_income -> f_category filters = s_all ->
  budgetTotal budgets filters = foldr Z.add 0 (map_to_list budgets).*2.
Proof.
  intros Hty Hcat. unfold budgetTotal, budgetCategories.
  apply str_eqb_neq in Hty. rewrite Hty, Hcat, str_eqb_refl.
  rewrite fold_left_add_foldr, budgetOf_keys. lia.
Qed.


Lemma budgetChartData_row budgets categories spend row :
  row ∈ budgetChartData budgets categories spend -> row_name row ∈ categories.
Proof.
  unfold budgetChartData. rewrite list_elem_of_In, filter_In, in_map_iff.
  intros [(name & <- & Hin) _]. simpl. by apply list_elem_of_In.
Qed.

(** C10: every row of the budget chart is named after a member of the
    category list; a budget stored for a category outside the list gives no
    row, yet its amount is part of [budgetTotal] when no category is
    selected and the type filter is not income. *)
Theorem budgetChartData_rows_in_categories
    (budgets : Budgets) (categories : list jsstring) (spend : gmap jsstring Z) :
  (forall row, row ∈ budgetChartData budgets categories spend ->
     row_name row ∈ categories)
  /\ forall c a, budgets !! c = Some a -> c ∉ categories ->
       (forall row, row ∈ budgetChartData budgets categories spend ->
          row_name row <> c)
       /\ forall filters, f_type filters <> s_income -> f_category filters = s_all ->
            budgetTotal budgets filters
            = a + budgetTotal (delete c budgets) filters.
Proof.
  split; [intros row; apply budgetChartData_row|].
  intros c a Hc Hnot. split.
  - intros row Hrow Heq. apply Hnot. rewrite <- Heq.
    by apply (budgetChartData_row budgets _ spend).
  - intros filters Hty Hcat. rewrite !budgetTotal_all by done.
    rewrite <- (foldr_add_Permutation _ _
      (fmap_Permutation snd _ _ (map_to_list_delete budgets c a Hc))).
    reflexivity.
Qed.

Lemma budgetChartData_rows_in_categories_witness :
  (forall row,
     row ∈ budgetChartData exampleBudgets defaultCategories ∅ ->
     row_name row <> js "外食")
  /\ budgetTotal exampleBudgets (mkFilters s_all s_all s_all [] [] [])
     = 3000 + budgetTotal (delete (js "外食") exampleBudgets)
                (mkFilters s_all s_all s_all [] [] []).
Proof.
  destruct (budgetChartData_rows_in_categories exampleBudgets defaultCategories ∅)
    as [_ H].
  destruct (H (js "外食") 3000) as [Hrows Htotal].
  - vm_compute. reflexivity.
  - apply (proj1 (bool_decide_eq_true (js "外食" ∉ defaultCategories))).
    vm_compute. reflexivity.
  - split; [exact Hrows|]. apply Htotal; [vm_compute; discriminate | reflexivity].
Defined.

(** ** Rollover policy *)

Ltac run :=
  repeat (
    unfold maybeAutoCopyBudgetsWith, selectBudgets, deleteBudgets, insertBudgets,
      setItem, getItemTruthy, nextAnswer, nextFault, setBudgetDrafts, setBudgets,
      setLoading, setStatus, setStore, emit, modify, outOfFuel, bind, ret;
    cbn -[budgetsOfMonth getPreviousMonthFrom storageKey insert lookup union fmap
          js app violatesUnique copyPayload budgetMap truthy str_eqb]).

Ltac fields :=
  cbn [w_clock w_store w_localStorage w_month w_copyFromMonth w_budgets
       w_budgetDrafts w_status w_loading w_faults w_answers w_trace] in *.

Ltac finish_run :=
  eexists _, _; split; [reflexivity|]; simpl;
  split; [first [symmetry; apply app_nil_r | rewrite <- ?app_assoc; reflexivity]|].

(** A load of a month whose flag is set asks nothing and leaves
    [localStorage] alone, whatever the store answers. *)
Lemma loadBudgets_flagSet (fuel : nat) (t : jsstring) (w : World) :
  flagSet t w ->
  exists w' events,
    loadBudgets (S fuel) t w = Some (tt, w')
    /\ w_trace w' = w_trace w ++ events
    /\ rolloverPrompts events = 0%nat
    /\ w_localStorage w' = w_localStorage w.
Proof.
  intros (v & Hv & Htr).
  destruct w as [clock store ls month cfm budgets drafts status loading faults answers trace].
  simpl in Hv.
  run. destruct (truthy t) eqn:Ht; run.
  2:{ exists (mkWorld clock store ls month cfm budgets drafts status loading faults answers trace), [].
      simpl. by rewrite app_nil_r. }
  destruct faults as [|[msg|] faults]; run;
    try (destruct (length (budgetsOfMonth store t) =? 0)%nat; run;
         rewrite ?Hv, ?Htr; run);
    finish_run; done.
Qed.

Lemma budgetsOfMonth_app store rows month :
  budgetsOfMonth (store ++ rows) month
  = budgetsOfMonth store month ++ budgetsOfMonth rows month.
Proof. unfold budgetsOfMonth. apply List.filter_app. Qed.



(** Case analysis on what the surroundings answer next. *)
Ltac case_in H :=
  match type of H with
  | context [head ?l] =>
    is_var l;
    lazymatch type of l with
    | list (option _) => destruct l as [|[?|] ?]
    | list bool => destruct l as [|[|] ?]
    end
  | context [if violatesUnique ?a ?b then _ else _] =>
    destruct (violatesUnique a b)
  end.

Ltac run_in H :=
  repeat (
    unfold maybeAutoCopyBudgetsWith, selectBudgets, deleteBudgets, insertBudgets,
      setItem, getItemTruthy, nextAnswer, nextFault, setBudgetDrafts, setBudgets,
      setLoading, setStatus, setStore, emit, modify, outOfFuel, bind, ret in H;
    cbn -[budgetsOfMonth getPreviousMonthFrom storageKey insert lookup union fmap
          js app violatesUnique copyPayload budgetMap truthy str_eqb] in H).

(** A flag that is set keeps its value through any load. *)
Lemma loadBudgets_keeps_flags (fuel : nat) :
  forall t w w', loadBudgets fuel t w = Some (tt, w') ->
  forall k v, w_localStorage w !! k = Some v -> truthy v = true ->
              w_localStorage w' !! k = Some v.
Proof.
  induction fuel as [|fuel IH]; intros t w w' Hrun k v Hk Hv; [done|].
  destruct w as [clock store ls month cfm budgets drafts status loading faults answers trace].
  simpl in Hk.
  destruct (truthy t) eqn:Ht;
    [|run_in Hrun; rewrite Ht in Hrun; run_in Hrun; simplify_eq; simpl; done].
  destruct (ls !! storageKey t) as [flag|] eqn:Hflag;
    [destruct (truthy flag) eqn:Hfl|].
  all: destruct (budgetsOfMonth store t) eqn:Hd0;
    destruct (budgetsOfMonth store (getPreviousMonthFrom clock t)) eqn:Hd1.
  all: repeat (first [ progress (run_in Hrun)
                     | progress (rewrite ?Ht, ?Hflag, ?Hfl, ?Hd0, ?Hd1 in Hrun)
                     | case_in Hrun ]).
  all: try (simplify_eq; simpl; done).
  all: assert (Hne : storageKey t <> k)
    by (intros Heq; rewrite Heq in Hflag; simplify_eq; congruence).
  all: try (simplify_eq; simpl; by rewrite lookup_insert_ne).
  all: eapply IH; [exact Hrun | simpl; by rewrite lookup_insert_ne | done].
Qed.

Ltac case_goal :=
  match goal with
  | |- context [head ?l] =>
    is_var l;
    lazymatch type of l with
    | list (option _) => destruct l as [|[?|] ?]
    | list bool => destruct l as [|[|] ?]
    end
  | |- context [if violatesUnique ?a ?b then _ else _] =>
    destruct (violatesUnique a b)
  end.

(** So it does through a manual copy. *)
Lemma copyBudgetsFromMonth_flags (fuel : nat) (w : World) k v :
  w_localStorage w !! k = Some v -> truthy v = true ->
  match copyBudgetsFromMonth fuel w with
  | Some (_, w') => w_localStorage w' !! k = Some v
  | None => True
  end.
Proof.
  intros Hk Hv.
  destruct w as [clock store ls month cfm budgets drafts status loading faults answers trace].
  simpl in Hk. unfold copyBudgetsFromMonth.
  destruct (negb (truthy cfm) || str_eqb cfm month) eqn:Hguard;
    destruct (budgetsOfMonth store cfm) eqn:Hd0;
    repeat (first [ progress run
                  | progress (rewrite ?Hguard, ?Hd0)
                  | case_goal ]);
    try done.
  all: match goal with
       | |- context [loadBudgets ?f ?m ?W] =>
         destruct (loadBudgets f m W) as [[[] W']|] eqn:Hload; [|done];
         run; exact (loadBudgets_keeps_flags _ _ _ _ Hload k v Hk Hv)
       end.
Qed.

Lemma copyBudgetsFromMonth_keeps_flags (fuel : nat) (w w' : World) :
  copyBudgetsFromMonth fuel w = Some (tt, w') ->
  forall k v, w_localStorage w !! k = Some v -> truthy v = true ->
              w_localStorage w' !! k = Some v.
Proof.
  intros Hrun k v Hk Hv.
  pose proof (copyBudgetsFromMonth_flags fuel w k v Hk Hv) as H.
  by rewrite Hrun in H.
Qed.

Lemma step_keeps_flags (w w' : World) :
  step w w' ->
  forall k v, w_localStorage w !! k = Some v -> truthy v = true ->
              w_localStorage w' !! k = Some v.
Proof.
  intros [fuel month w1 w2 Hrun | fuel w1 w2 Hrun | w1 w2 Heq] k v Hk Hv.
  - by apply (loadBudgets_keeps_flags _ _ _ _ Hrun).
  - by apply (copyBudgetsFromMonth_keeps_flags _ _ _ Hrun).
  - by rewrite Heq.
Qed.

Lemma later_keeps_flags (w w' : World) :
  rtc step w w' ->
  forall k v, w_localStorage w !! k = Some v -> truthy v = true ->
              w_localStorage w' !! k = Some v.
Proof.
  induction 1 as [|w1 w2 w3 Hstep _ IH]; intros k v Hk Hv; [done|].
  apply IH; [|done]. by apply (step_keeps_flags _ _ Hstep).
Qed.



(** C9: when the load of a month with no stored budgets and no flag reaches
    the fetch of the previous month and that fetch fails, the flag is set
    to 'skipped', the value the policy also stores when the previous month
    has no budgets, and no prompt is shown; from then on, whatever happens
    in between and whatever the store holds, no load of that month shows a
    rollover prompt. *)
Theorem failed_previous_fetch_marks_skipped
    (fuel : nat) (t : jsstring) (w : World) (message : jsstring) :
  truthy t = true ->
  budgetsOfMonth (w_store w) t = [] ->
  w_localStorage w !! storageKey t = None ->
  faultAt 0 w = None ->
  faultAt 1 w = Some message ->
  exists w',
    loadBudgets (S fuel) t w = Some (tt, w')
    /\ w_trace w'
       = w_trace w ++ [EvSelect t true;
                       EvSelect (getPreviousMonthFrom (w_clock w) t) false;
                       EvSetItem (storageKey t) s_skipped]
    /\ w_localStorage w' !! storageKey t = Some s_skipped
    /\ (forall fuel0 w0,
          budgetsOfMonth (w_store w0) t = [] ->
          w_localStorage w0 !! storageKey t = None ->
          faultAt 0 w0 = None -> faultAt 1 w0 = None ->
          budgetsOfMonth (w_store w0) (getPreviousMonthFrom (w_clock w0) t) = [] ->
          exists w0', loadBudgets (S fuel0) t w0 = Some (tt, w0')
                      /\ w_localStorage w0' !! storageKey t = Some s_skipped)
    /\ forall w2, rtc step w' w2 ->
         w_localStorage w2 !! storageKey t = Some s_skipped
         /\ forall fuel2, exists w3 events,
              loadBudgets (S fuel2) t w2 = Some (tt, w3)
              /\ w_trace w3 = w_trace w2 ++ events
              /\ rolloverPrompts events = 0%nat.
Proof.
  intros Ht Hempty Hflag Hf0 Hf1.
  assert (Hrun : exists w',
    loadBudgets (S fuel) t w = Some (tt, w')
    /\ w_trace w'
       = w_trace w ++ [EvSelect t true;
                       EvSelect (getPreviousMonthFrom (w_clock w) t) false;
                       EvSetItem (storageKey t) s_skipped]
    /\ w_localStorage w' !! storageKey t = Some s_skipped).
  { destruct w as [clock store ls month cfm budgets drafts status loading faults answers trace].
    unfold faultAt in Hf0, Hf1. fields.
    destruct faults as [|[msg|] [|[msg'|] faults]]; try done.
    cbn in Hf1. injection Hf1 as ->.
    run. rewrite Ht. run. rewrite Hempty. run. rewrite Hflag. run.
    eexists. split; [reflexivity|]. cbn.
    split; [by rewrite <- !app_assoc | apply lookup_insert_eq]. }
  destruct Hrun as (w' & Hrun & Htrace & Hskipped).
  exists w'. split; [exact Hrun|]. split; [exact Htrace|]. split; [exact Hskipped|].
  split.
  - clear -Ht. intros fuel0 w0 Hempty Hflag Hf0 Hf1 Hprev.
    destruct w0 as [clock store ls month cfm budgets drafts status loading faults answers trace].
    unfold faultAt in Hf0, Hf1. fields.
    destruct faults as [|[msg|] [|[msg'|] faults]]; try done;
      run; rewrite Ht; run;
      rewrite Hempty; run; rewrite Hflag; run; rewrite Hprev; run;
      eexists; (split; [reflexivity|]); cbn; apply lookup_insert_eq.
  - intros w2 Hlater.
    assert (Hkept : w_localStorage w2 !! storageKey t = Some s_skipped).
    { eapply later_keeps_flags; [exact Hlater | exact Hskipped | reflexivity]. }
    split; [exact Hkept|]. intros fuel2.
    destruct (loadBudgets_flagSet fuel2 t w2) as (w3 & events & H1 & H2 & H3 & _).
    { exists s_skipped. split; [exact Hkept | reflexivity]. }
    exists w3, events. split; [exact H1|]. split; [exact H2 | exact H3].
Qed.

Lemma failed_previous_fetch_marks_skipped_witness :
  exists w',
    loadBudgets 1 (js "2024-01") offlineWorld = Some (tt, w')
    /\ w_localStorage w' !! storageKey (js "2024-01") = Some s_skipped
    /\ forall w2, rtc step w' w2 -> forall fuel2, exists w3 events,
         loadBudgets (S fuel2) (js "2024-01") w2 = Some (tt, w3)
         /\ w_trace w3 = w_trace w2 ++ events
         /\ rolloverPrompts events = 0%nat.
Proof.
  destruct (failed_previous_fetch_marks_skipped 0 (js "2024-01") offlineWorld
              (js "Failed to fetch"))
    as (w' & Hrun & _ & Hflag & _ & Hlater).
  - reflexivity.
  - vm_compute. reflexivity.
  - vm_compute. reflexivity.
  - reflexivity.
  - reflexivity.
  - exists w'. split; [exact Hrun|]. split; [exact Hflag|].
    intros w2 Hw2. exact (proj2 (Hlater w2 Hw2)).
Defined.

(** ** Manual copy *)





(** ** Filter corrections *)

Ltac filters_cbn :=
  cbn [f_type f_purpose f_category f_query f_dateFrom f_dateTo
       setPurpose setCategory id negb andb orb].

Ltac filters_cases ty pu ca categories :=
  destruct (str_eqb ty s_expense) eqn:Hexp, (str_eqb ty s_income) eqn:Hinc,
    (str_eqb pu s_all) eqn:Hpu, (str_eqb ca s_all) eqn:Hca,
    (Array_includes incomeCategories ca) eqn:Hi,
    (Array_includes categories ca) eqn:Hc.

(** The effect changes nothing when run a second time: one run reaches the
    state in which the corrections have been applied. *)
Lemma filterCorrections_idempotent categories filters :
  filterCorrections categories (filterCorrections categories filters)
  = filterCorrections categories filters.
Proof.
  destruct filters as [ty pu ca qu df dt]. unfold filterCorrections. filters_cbn.
  filters_cases ty pu ca categories; filters_cbn;
    rewrite ?Hexp, ?Hinc, ?Hpu, ?Hca, ?Hi, ?Hc, ?str_eqb_refl; filters_cbn;
    reflexivity.
Qed.

(** After the corrections, a type filter other than expense comes with the
    pass-all purpose. *)
Lemma filterCorrections_purpose categories filters :
  f_type (filterCorrections categories filters) <> s_expense ->
  f_purpose (filterCorrections categories filters) = s_all.
Proof.
  destruct filters as [ty pu ca qu df dt]. unfold filterCorrections. filters_cbn.
  filters_cases ty pu ca categories; filters_cbn; intros Hty;
    try (apply str_eqb_eq in Hexp; contradiction);
    try (by apply str_eqb_eq in Hpu); reflexivity.
Qed.

(** After the corrections, under the income or the expense type filter, a
    selected category is one of the offered options. *)
Lemma filterCorrections_category categories filters :
  let filters' := filterCorrections categories filters in
  f_type filters' = s_income \/ f_type filters' = s_expense ->
  Array_includes (filterCategoryOptions categories filters') (f_category filters') = false ->
  f_category filters' = s_all.
Proof.
  destruct filters as [ty pu ca qu df dt].
  unfold filterCorrections, filterCategoryOptions. filters_cbn.
  filters_cases ty pu ca categories; filters_cbn;
    rewrite ?Hexp, ?Hinc; try rewrite Hi; try rewrite Hc;
    intros Hty Hnot; try reflexivity; try discriminate Hnot;
    try (by apply str_eqb_eq in Hca);
    apply str_eqb_neq in Hexp, Hinc; destruct Hty; contradiction.
Qed.

(** C8, at the input where the code departs from it: with every type
    selected, a category that is in neither list stays selected; the effect
    leaves the state as it is. *)
Lemma filterCorrections_keeps_stale_category :
  filterCorrections defaultCategories staleFilters = staleFilters
  /\ f_type staleFilters <> s_expense
  /\ f_purpose staleFilters = s_all
  /\ Array_includes (filterCategoryOptions defaultCategories staleFilters)
       (f_category staleFilters) = false
  /\ f_category staleFilters <> s_all.
Proof. vm_compute. repeat split; discriminate. Qed.

(** ** Previous month *)

(** C5, at the input where the code departs from it: in a browser nine
    hours ahead of UTC, the month before 2024-01 comes out as 2023-11. *)
Lemma getPreviousMonthFrom_tokyo :
  getPreviousMonthFrom tokyoClock (js "2024-01") = js "2023-11"
  /\ precedingMonth 2024 1 = js "2023-12".
Proof. split; vm_compute; reflexivity. Qed.

(** ** CSV codec *)

Lemma trimStart_head s c rest :
  s = c :: rest -> isWhiteSpace c = false -> trimStart s = s.
Proof. intros -> Hc. simpl. by rewrite Hc. Qed.

Lemma trimStart_snoc s c :
  isWhiteSpace c = false -> trimStart (s ++ [c]) <> [].
Proof.
  intros Hc. induction s as [|x s IH]; simpl.
  - by rewrite Hc.
  - destruct (isWhiteSpace x); [exact IH | done].
Qed.

Lemma trim_nonempty c rest :
  isWhiteSpace c = false -> trim (c :: rest) <> [].
Proof.
  intros Hc. unfold trim.
  rewrite (trimStart_head (c :: rest) c rest eq_refl Hc).
  simpl rev. intros Hnil.
  apply (f_equal (@rev N)) in Hnil. rewrite rev_involutive in Hnil.
  by apply (trimStart_snoc (rev rest) c Hc).
Qed.

Lemma trimStart_no_ws s :
  Forall (fun c => isWhiteSpace c = false) s -> trimStart s = s.
Proof. destruct 1 as [|c s Hc _]; [done|]. simpl. by rewrite Hc. Qed.

Lemma trim_no_ws s :
  Forall (fun c => isWhiteSpace c = false) s -> trim s = s.
Proof.
  intros Hs. unfold trim. rewrite (trimStart_no_ws s Hs).
  rewrite trimStart_no_ws; [apply rev_involutive|].
  by apply Forall_rev.
Qed.

Lemma uint_units_no_ws u :
  Forall (fun c => isWhiteSpace c = false) (uint_units u).
Proof. induction u; simpl; constructor; done. Qed.

Lemma units_uint_units u : units_uint (uint_units u) = Some u.
Proof. induction u as [|u IH|u IH|u IH|u IH|u IH|u IH|u IH|u IH|u IH|u IH];
  simpl; [done|..]; by rewrite IH. Qed.

Lemma Number_of_units u :
  Number_of (uint_units u) = Some (Z.of_N (N.of_uint u)).
Proof.
  unfold Number_of. rewrite (trim_no_ws _ (uint_units_no_ws u)).
  pose proof (units_uint_units u) as Hu.
  destruct u; simpl in *; try done;
    match goal with
    | H : match units_uint ?s with _ => _ end = _ |- _ =>
      destruct (units_uint s) eqn:E; simplify_eq; simpl; try done
    end.
Qed.

(** Reading back a printed amount. *)
Lemma Number_of_String_of_Z n : 0 <= n -> Number_of (String_of_Z n) = Some n.
Proof.
  intros Hn. destruct n as [|p|p]; [done| |lia].
  unfold String_of_Z. rewrite Number_of_units.
  by rewrite DecimalN.Unsigned.of_to.
Qed.

Lemma parseLine_cons char rest result current inQuotes :
  parseLine (char :: rest) result current inQuotes
  = if (char =? QUOTE)%N && inQuotes && bool_decide (head rest = Some QUOTE)
    then parseLine (tail rest) result (current ++ [QUOTE]) inQuotes
    else if (char =? QUOTE)%N then parseLine rest result current (negb inQuotes)
    else if (char =? COMMA)%N && negb inQuotes
    then parseLine rest (result ++ [current]) [] inQuotes
    else parseLine rest result (current ++ [char]) inQuotes.
Proof.
  destruct rest as [|next rest']; cbn [parseLine head tail].
  - rewrite bool_decide_eq_false_2 by done. by rewrite andb_false_r.
  - destruct (N.eqb_spec next QUOTE) as [->|Hne].
    + by rewrite bool_decide_eq_true_2.
    + rewrite bool_decide_eq_false_2 by congruence. reflexivity.
Qed.

(** Inside quotes, the escaped text of a cell is read back up to its
    closing quote. *)
Lemma parseLine_escaped body rest result current :
  head rest <> Some QUOTE ->
  parseLine (escapeQuotes body ++ QUOTE :: rest) result current true
  = parseLine rest result (current ++ body) false.
Proof.
  intros Hrest. revert current.
  induction body as [|c body IH]; intros current.
  - cbn [escapeQuotes flat_map app]. rewrite parseLine_cons.
    rewrite bool_decide_eq_false_2 by done.
    rewrite N.eqb_refl, andb_false_r. cbn [negb]. by rewrite app_nil_r.
  - cbn [escapeQuotes flat_map]. fold (escapeQuotes body).
    destruct (N.eqb_spec c QUOTE) as [->|Hne].
    + cbn [app]. rewrite parseLine_cons. cbn [head tail].
      rewrite N.eqb_refl, bool_decide_eq_true_2 by done. cbn [andb].
      rewrite IH. by rewrite <- app_assoc.
    + cbn [app]. rewrite parseLine_cons.
      apply N.eqb_neq in Hne. rewrite Hne. cbn [andb negb].
      rewrite andb_false_r. rewrite IH. by rewrite <- app_assoc.
Qed.

Lemma parseLine_cell cell rest result :
  head rest <> Some QUOTE ->
  parseLine (encodeCell cell ++ rest) result [] false
  = parseLine rest result cell false.
Proof.
  intros Hrest. unfold encodeCell. cbn [app]. rewrite parseLine_cons.
  rewrite N.eqb_refl. cbn [andb negb].
  rewrite <- app_assoc. cbn [app].
  by rewrite parseLine_escaped.
Qed.

(** A written row is read back cell by cell. *)
Lemma parseLine_encodeRow row result :
  row <> [] -> parseLine (encodeRow row) result [] false = result ++ row.
Proof.
  revert result. induction row as [|cell row IH]; intros result Hne; [done|].
  destruct row as [|cell' row].
  - unfold encodeRow. cbn [List.map join].
    rewrite <- (app_nil_r (encodeCell cell)).
    by rewrite parseLine_cell.
  - unfold encodeRow. cbn [List.map join].
    rewrite parseLine_cell by done.
    cbn [app]. rewrite parseLine_cons.
    cbn [andb negb N.eqb Pos.eqb QUOTE COMMA].
    change (join [COMMA] (encodeCell cell' :: List.map encodeCell row))
      with (encodeRow (cell' :: row)).
    rewrite IH by done. by rewrite <- app_assoc.
Qed.

Lemma splitLines_cons c rest current :
  splitLines (c :: rest) current
  = if (c =? LF)%N then current :: splitLines rest []
    else if (c =? CR)%N && bool_decide (head rest = Some LF)
    then current :: splitLines (tail rest) []
    else splitLines rest (current ++ [c]).
Proof.
  destruct rest as [|c' rest']; cbn [splitLines head tail].
  - rewrite bool_decide_eq_false_2 by done. by rewrite andb_false_r.
  - destruct (N.eqb_spec c' LF) as [->|Hne].
    + by rewrite bool_decide_eq_true_2.
    + rewrite bool_decide_eq_false_2 by congruence. reflexivity.
Qed.

Lemma splitLines_last line current :
  LF ∉ line -> splitLines line current = [current ++ line].
Proof.
  revert current. induction line as [|c line IH]; intros current Hlf.
  - by rewrite app_nil_r.
  - apply not_elem_of_cons in Hlf as [Hc Hlf].
    rewrite splitLines_cons.
    assert ((c =? LF)%N = false) as -> by (apply N.eqb_neq; congruence).
    assert (bool_decide (head line = Some LF) = false) as ->.
    { apply bool_decide_eq_false_2. destruct line as [|c' line']; [done|].
      apply not_elem_of_cons in Hlf as [Hc' _]. simpl. congruence. }
    rewrite andb_false_r. rewrite IH by done. by rewrite <- app_assoc.
Qed.

Lemma splitLines_line line rest current :
  LF ∉ line -> last line <> Some CR ->
  splitLines (line ++ LF :: rest) current = (current ++ line) :: splitLines rest [].
Proof.
  revert current. induction line as [|c line IH]; intros current Hlf Hcr.
  - cbn [app]. rewrite splitLines_cons, N.eqb_refl. by rewrite app_nil_r.
  - apply not_elem_of_cons in Hlf as [Hc Hlf].
    cbn [app]. rewrite splitLines_cons.
    assert ((c =? LF)%N = false) as -> by (apply N.eqb_neq; congruence).
    destruct line as [|c' line'].
    + assert ((c =? CR)%N = false) as ->.
      { apply N.eqb_neq. intros ->. by apply Hcr. }
      cbn [andb app]. rewrite splitLines_cons, N.eqb_refl. done.
    + assert (bool_decide (head ((c' :: line') ++ LF :: rest) = Some LF) = false) as ->.
      { apply bool_decide_eq_false_2. apply not_elem_of_cons in Hlf as [Hc' _].
        simpl. congruence. }
      rewrite andb_false_r. rewrite IH; [by rewrite <- app_assoc | done | done].
Qed.

(** Lines that hold no line feed and do not end in a carriage return are
    read back from their joined text. *)
Lemma splitLines_join lines :
  lines <> [] ->
  Forall (fun line => (LF ∉ line) /\ last line <> Some CR) lines ->
  splitLines (join [LF] lines) [] = lines.
Proof.
  induction lines as [|line lines IH]; intros Hne Hall; [done|].
  apply Forall_cons in Hall as [[Hlf Hcr] Hall].
  destruct lines as [|line' lines].
  - cbn [join]. by rewrite splitLines_last.
  - cbn [join]. cbn [app]. rewrite splitLines_line by done.
    cbn [app]. f_equal. by apply IH.
Qed.

Lemma escapeQuotes_no_LF cell : LF ∉ cell -> LF ∉ escapeQuotes cell.
Proof.
  induction cell as [|c cell IH]; intros Hlf; [done|].
  apply not_elem_of_cons in Hlf as [Hc Hlf].
  cbn [escapeQuotes flat_map]. fold (escapeQuotes cell).
  destruct (c =? QUOTE)%N eqn:E.
  - apply N.eqb_eq in E as ->. cbn [app].
    rewrite !not_elem_of_cons. by auto.
  - cbn [app]. rewrite not_elem_of_cons. by auto.
Qed.

Lemma encodeCell_no_LF cell : LF ∉ cell -> LF ∉ encodeCell cell.
Proof.
  intros Hlf. unfold encodeCell. rewrite not_elem_of_cons. split; [done|].
  rewrite not_elem_of_app. split; [by apply escapeQuotes_no_LF|].
  rewrite not_elem_of_cons. split; [done | apply not_elem_of_nil].
Qed.

Lemma encodeCell_last cell : last (encodeCell cell) = Some QUOTE.
Proof. unfold encodeCell. by rewrite app_comm_cons, last_snoc. Qed.

Lemma encodeRow_shape row :
  row <> [] -> Forall (fun cell => LF ∉ cell) row ->
  (exists rest, encodeRow row = QUOTE :: rest)
  /\ (LF ∉ encodeRow row)
  /\ last (encodeRow row) = Some QUOTE.
Proof.
  induction row as [|cell row IH]; intros Hne Hall; [done|].
  apply Forall_cons in Hall as [Hlf Hall].
  destruct row as [|cell' row].
  - unfold encodeRow. cbn [List.map join]. split; [by eexists|].
    split; [by apply encodeCell_no_LF | apply encodeCell_last].
  - destruct IH as (_ & Hlf' & Hlast); [done|done|].
    unfold encodeRow in *. cbn [List.map join] in *. split; [by eexists|].
    split.
    + rewrite !not_elem_of_app. split; [by apply encodeCell_no_LF|].
      split; [|exact Hlf']. rewrite not_elem_of_cons.
      split; [done | apply not_elem_of_nil].
    + rewrite app_assoc, last_app. by rewrite Hlast.
Qed.

(** The codec on a table: rows that are not empty and whose cells hold no
    line feed and no outer white space are read back as written. *)
Lemma parseCsv_encodeCsv rows :
  Forall (fun row => row <> [] /\ Forall fieldSafe row) rows ->
  rows <> [] ->
  parseCsv (encodeCsv rows) = rows.
Proof.
  intros Hrows Hne. unfold parseCsv, encodeCsv.
  rewrite splitLines_join.
  - induction rows as [|row rows IH]; [done|].
    apply Forall_cons in Hrows as [[Hrow Hsafe] Hrows].
    cbn [List.map List.filter].
    destruct (encodeRow_shape row Hrow) as ([rest Hhead] & _ & _).
    { eapply Forall_impl; [exact Hsafe|]. by intros cell [? _]. }
    assert (Hlen : (0 <? length (trim (encodeRow row)))%nat = true).
    { rewrite Hhead. apply Nat.ltb_lt.
      pose proof (trim_nonempty QUOTE rest eq_refl) as Hnil.
      destruct (trim (QUOTE :: rest)); [done | simpl; lia]. }
    rewrite Hlen. cbn [List.map]. f_equal.
    + rewrite parseLine_encodeRow by done. cbn [app].
      clear -Hsafe. induction Hsafe as [|cell row [_ Htrim] _ IH]; [done|].
      cbn [List.map]. by rewrite Htrim, IH.
    + destruct rows as [|row' rows]; [done|]. by apply IH.
  - by destruct rows.
  - apply Forall_fmap. eapply Forall_impl; [exact Hrows|].
    intros row [Hrow Hsafe]. cbn.
    destruct (encodeRow_shape row Hrow) as (_ & Hlf & Hlast).
    { eapply Forall_impl; [exact Hsafe|]. by intros cell [? _]. }
    split; [exact Hlf|]. by rewrite Hlast.
Qed.

Lemma uint_units_no_LF u : LF ∉ uint_units u.
Proof.
  induction u; cbn [uint_units];
    [apply not_elem_of_nil | apply not_elem_of_cons; split; [done | assumption]..].
Qed.

Lemma fieldSafe_String_of_Z n : 0 <= n -> fieldSafe (String_of_Z n).
Proof.
  intros Hn. destruct n as [|p|p]; [| |lia].
  - split; [|reflexivity]. cbn [String_of_Z].
    apply not_elem_of_cons. split; [done | apply not_elem_of_nil].
  - split; [apply uint_units_no_LF | apply trim_no_ws, uint_units_no_ws].
Qed.

Lemma fieldSafe_constant s :
  bool_decide (LF ∉ s) && bool_decide (trim s = s) = true -> fieldSafe s.
Proof.
  intros H. apply andb_true_iff in H as [H1 H2].
  split; [by apply bool_decide_eq_true in H1 | by apply bool_decide_eq_true in H2].
Qed.

Ltac safe_constant := apply fieldSafe_constant; vm_compute; reflexivity.

Lemma fieldSafe_purposeLabel value : fieldSafe (purposeLabel value).
Proof.
  unfold purposeLabel, purposes. cbn [List.find fst snd].
  repeat match goal with
         | |- context [str_eqb ?a ?b] => destruct (str_eqb a b)
         end; safe_constant.
Qed.

Lemma fieldSafe_header : Forall fieldSafe transactionHeader.
Proof. unfold transactionHeader. repeat apply Forall_cons_2; [safe_constant..|constructor]. Qed.

Lemma fieldSafe_transactionCells item :
  csvSafe item -> Forall fieldSafe (transactionCells item).
Proof.
  intros [[Hdate _] _ _ [Hcat _] Hnote Hamount]. unfold transactionCells.
  repeat apply Forall_cons_2; [done| | |done|done| |constructor].
  - destruct (str_eqb (tx_type item) s_income); safe_constant.
  - destruct (str_eqb (tx_type item) s_income);
      [safe_constant | apply fieldSafe_purposeLabel].
  - apply fieldSafe_String_of_Z. lia.
Qed.

(** The import mapping undoes the export mapping on a safe item. *)
Lemma importRow_transactionCells item :
  csvSafe item ->
  exists p, importRow (transactionCells item) = Some p /\ sameTuple item p.
Proof.
  intros [[_ Hdate] Htype Hpurpose [_ Hcat] _ Hamount].
  destruct item as [date amount type purpose category note].
  cbn [tx_date tx_amount tx_type tx_purpose tx_category tx_note] in *.
  unfold importRow, transactionCells.
  cbn [tx_date tx_amount tx_type tx_purpose tx_category tx_note lookup
       list_lookup mbind option_bind].
  rewrite Number_of_String_of_Z by lia.
  assert (Hd : truthy date = true) by (by destruct date).
  assert (Hc : truthy category = true) by (by destruct category).
  rewrite Hd. cbn [negb].
  eexists. split; [reflexivity|].
  unfold sameTuple.
  cbn [p_date p_type p_purpose p_category p_note p_amount
       tx_date tx_amount tx_type tx_purpose tx_category tx_note default].
  split; [reflexivity|].
  split; [destruct Htype as [-> | ->]; reflexivity|].
  split.
  { intros ->. destruct (Hpurpose eq_refl) as [-> | [-> | ->]]; reflexivity. }
  split; [unfold orElse; by rewrite Hc|].
  split; [unfold orElse; by destruct note as [[|c note]|]|].
  apply Z.abs_eq. lia.
Qed.

(** C2: for transactions whose columns hold what the table admits and
    whose text fields hold no line feed and no white space at either end,
    writing them with [downloadCsv], reading the text with [parseCsv] and
    mapping the rows as the import does gives back, row by row, the same
    date, type, purpose (on an expense), category, note and amount. *)
Theorem csv_round_trip (items : list Transaction) :
  Forall csvSafe items ->
  exists payload,
    parseCsv (downloadCsv items) = transactionHeader :: List.map transactionCells items
    /\ omap importRow (List.map transactionCells items) = payload
    /\ Forall2 sameTuple items payload
    /\ (items <> [] ->
        importTransactions (parseCsv (downloadCsv items)) = inr payload).
Proof.
  intros Hsafe.
  assert (Hparse : parseCsv (downloadCsv items)
                   = transactionHeader :: List.map transactionCells items).
  { unfold downloadCsv. apply parseCsv_encodeCsv; [|done].
    constructor; [split; [done | apply fieldSafe_header]|].
    apply Forall_fmap. eapply Forall_impl; [exact Hsafe|].
    intros item Hitem. cbn. split; [done | by apply fieldSafe_transactionCells]. }
  assert (Hmap : exists payload,
    omap importRow (List.map transactionCells items) = payload
    /\ Forall2 sameTuple items payload).
  { clear Hparse. induction Hsafe as [|item items Hitem _ (payload & Hp & Hall)].
    - by exists [].
    - destruct (importRow_transactionCells item Hitem) as (p & Hrow & Hsame).
      exists (p :: payload). cbn [List.map omap list_omap]. rewrite Hrow.
      split; [by rewrite <- Hp | by constructor]. }
  destruct Hmap as (payload & Hp & Hall).
  exists payload. split; [exact Hparse|]. split; [exact Hp|]. split; [exact Hall|].
  intros Hne. rewrite Hparse. unfold importTransactions.
  destruct items as [|item items]; [done|].
  cbn [length Nat.leb head tail default List.map].
  assert (Hbody : forall items',
    Forall csvSafe items' ->
    List.filter (fun row => existsb (fun cell => (0 <? length cell)%nat) row)
      (List.map transactionCells items') = List.map transactionCells items').
  { clear. induction 1 as [|it its [[_ Hdate] _ _ _ _ _] _ IH]; [done|].
    cbn [List.map List.filter].
    assert (existsb (fun cell => (0 <? length cell)%nat) (transactionCells it) = true) as ->.
    { unfold transactionCells. cbn [existsb]. by destruct (tx_date it). }
    by rewrite IH. }
  change (transactionCells item :: List.map transactionCells items)
    with (List.map transactionCells (item :: items)).
  rewrite Hbody by done. rewrite Hp.
  rewrite bool_decide_eq_true_2 by reflexivity. cbn [negb].
  apply Forall2_length in Hall. destruct payload; [done|]. reflexivity.
Qed.

Lemma csv_round_trip_witness :
  Forall csvSafe exampleTransactions
  /\ exists payload,
       importTransactions (parseCsv (downloadCsv exampleTransactions)) = inr payload
       /\ Forall2 sameTuple exampleTransactions payload.
Proof.
  assert (Hsafe : Forall csvSafe exampleTransactions).
  { unfold exampleTransactions. repeat apply Forall_cons_2; [| |constructor].
    - constructor; cbn [tx_date tx_type tx_purpose tx_category tx_note tx_amount default].
      + split; [safe_constant | vm_compute; discriminate].
      + right. reflexivity.
      + intros _. right. left. reflexivity.
      + split; [safe_constant | vm_compute; discriminate].
      + safe_constant.
      + vm_compute. split; [discriminate | reflexivity].
    - constructor; cbn [tx_date tx_type tx_purpose tx_category tx_note tx_amount default].
      + split; [safe_constant | vm_compute; discriminate].
      + left. reflexivity.
      + intros H. vm_compute in H. discriminate H.
      + split; [safe_constant | vm_compute; discriminate].
      + safe_constant.
      + vm_compute. split; [discriminate | reflexivity]. }
  split; [exact Hsafe|].
  destruct (csv_round_trip exampleTransactions Hsafe) as (payload & _ & _ & Hall & Himport).
  exists payload. split; [apply Himport; discriminate | exact Hall].
Defined.

(** ** Binary64 rounding

    The steps of [binary_round_aux] on a mantissa and the fraction cut off
    below it, then quotient and product of normal numbers, then their values
    as rationals. *)

Lemma iter_pos_nat {A} (f : A -> A) p x :
  SpecFloat.iter_pos f p x = Nat.iter (Pos.to_nat p) f x.
Proof.
  revert x. induction p as [p IH|p IH|]; intros x; cbn [SpecFloat.iter_pos].
  - rewrite !IH. rewrite Pos2Nat.inj_xI.
    replace (S (2 * Pos.to_nat p)) with (Pos.to_nat p + (Pos.to_nat p + 1))%nat by lia.
    rewrite !Nat.iter_add. reflexivity.
  - rewrite !IH. rewrite Pos2Nat.inj_xO.
    replace (2 * Pos.to_nat p)%nat with (Pos.to_nat p + Pos.to_nat p)%nat by lia.
    rewrite Nat.iter_add. reflexivity.
  - reflexivity.
Qed.

Lemma loc_of_shr_record_of_loc m l :
  loc_of_shr_record (shr_record_of_loc m l) = l.
Proof. by destruct l as [|[]]. Qed.

Lemma shr_m_record_of_loc m l : shr_m (shr_record_of_loc m l) = m.
Proof. by destruct l as [|[]]. Qed.

Lemma shr_1_frac m a c :
  0 <= m -> 0 <= a < c ->
  shr_1 (shr_record_of_loc m (loc_of_frac a c))
  = shr_record_of_loc (m / 2) (loc_of_frac ((m mod 2) * c + a) (2 * c)).
Proof.
  intros Hm Ha.
  assert (Hdm : m = 2 * (m / 2) + m mod 2) by (apply Z.div_mod; lia).
  assert (Hmod : 0 <= m mod 2 < 2) by (apply Z.mod_pos_bound; lia).
  unfold loc_of_frac.
  destruct (Z.eqb_spec a 0) as [->|Hne].
  - destruct m as [|[p|p|]|p]; try lia; cbn [shr_record_of_loc shr_1 orb].
    + reflexivity.
    + replace (Z.pos p~1 / 2) with (Z.pos p) by (rewrite Pos2Z.inj_xI in *; lia).
      replace (Z.pos p~1 mod 2) with 1 by (rewrite Pos2Z.inj_xI in *; lia).
      replace (1 * c + 0 =? 0) with false by (symmetry; apply Z.eqb_neq; lia).
      replace (2 * (1 * c + 0) ?= 2 * c) with Eq by (symmetry; apply Z.compare_eq_iff; lia).
      reflexivity.
    + replace (Z.pos p~0 / 2) with (Z.pos p) by (rewrite Pos2Z.inj_xO in *; lia).
      replace (Z.pos p~0 mod 2) with 0 by (rewrite Pos2Z.inj_xO in *; lia).
      reflexivity.
    + replace (1 / 2) with 0 by reflexivity. replace (1 mod 2) with 1 by reflexivity.
      replace (1 * c + 0 =? 0) with false by (symmetry; apply Z.eqb_neq; lia).
      replace (2 * (1 * c + 0) ?= 2 * c) with Eq by (symmetry; apply Z.compare_eq_iff; lia).
      reflexivity.
  - assert (Hs : forall cmp, let r := shr_record_of_loc m (loc_Inexact cmp) in
                 orb (shr_r r) (shr_s r) = true /\ shr_m r = m) by (by intros []).
    destruct (Hs (2 * a ?= c)) as [Hor Hmm].
    destruct (shr_record_of_loc m (loc_Inexact (2 * a ?= c))) as [m' r s].
    cbn [shr_r shr_s shr_m] in Hor, Hmm. subst m'.
    cbn [shr_1]. rewrite Hor.
    destruct m as [|[p|p|]|p]; try lia.
    + replace (0 / 2) with 0 by reflexivity. replace (0 mod 2) with 0 by reflexivity.
      replace (0 * c + a =? 0) with false by (symmetry; apply Z.eqb_neq; lia).
      replace (2 * (0 * c + a) ?= 2 * c) with Lt by (symmetry; apply Z.compare_lt_iff; lia).
      reflexivity.
    + replace (Z.pos p~1 / 2) with (Z.pos p) by (rewrite Pos2Z.inj_xI in *; lia).
      replace (Z.pos p~1 mod 2) with 1 by (rewrite Pos2Z.inj_xI in *; lia).
      replace (1 * c + a =? 0) with false by (symmetry; apply Z.eqb_neq; lia).
      replace (2 * (1 * c + a) ?= 2 * c) with Gt by (symmetry; apply Z.compare_gt_iff; lia).
      reflexivity.
    + replace (Z.pos p~0 / 2) with (Z.pos p) by (rewrite Pos2Z.inj_xO in *; lia).
      replace (Z.pos p~0 mod 2) with 0 by (rewrite Pos2Z.inj_xO in *; lia).
      replace (0 * c + a =? 0) with false by (symmetry; apply Z.eqb_neq; lia).
      replace (2 * (0 * c + a) ?= 2 * c) with Lt by (symmetry; apply Z.compare_lt_iff; lia).
      reflexivity.
    + replace (1 / 2) with 0 by reflexivity. replace (1 mod 2) with 1 by reflexivity.
      replace (1 * c + a =? 0) with false by (symmetry; apply Z.eqb_neq; lia).
      replace (2 * (1 * c + a) ?= 2 * c) with Gt by (symmetry; apply Z.compare_gt_iff; lia).
      reflexivity.
Qed.

Lemma iter_shr_1_frac (n : nat) m a c :
  0 <= m -> 0 <= a < c ->
  Nat.iter n shr_1 (shr_record_of_loc m (loc_of_frac a c))
  = shr_record_of_loc (m / 2 ^ Z.of_nat n)
      (loc_of_frac ((m mod 2 ^ Z.of_nat n) * c + a) (2 ^ Z.of_nat n * c)).
Proof.
  intros Hm Ha. induction n as [|n IH].
  - change (Nat.iter 0 shr_1 ?x) with x. change (2 ^ Z.of_nat 0) with 1.
    rewrite Z.div_1_r, Z.mod_1_r.
    replace (0 * c + a) with a by lia. replace (1 * c) with c by lia. reflexivity.
  - rewrite Nat.iter_succ. rewrite IH.
    assert (Hp : 0 < 2 ^ Z.of_nat n) by (apply Z.pow_pos_nonneg; lia).
    assert (Hmod : 0 <= m mod 2 ^ Z.of_nat n < 2 ^ Z.of_nat n)
      by (apply Z.mod_pos_bound; lia).
    rewrite shr_1_frac.
    + replace (2 ^ Z.of_nat (S n)) with (2 ^ Z.of_nat n * 2)
        by (rewrite Nat2Z.inj_succ, Z.pow_succ_r; lia).
      rewrite Z.div_div by lia.
      f_equal. f_equal; [|lia].
      rewrite Z.rem_mul_r by lia. lia.
    + apply Z.div_pos; lia.
    + nia.
Qed.

Lemma digits2_pos_size p : digits2_pos p = Pos.size p.
Proof. induction p; cbn [digits2_pos Pos.size]; congruence. Qed.

Lemma digits2_bounds p :
  2 ^ (Z.pos (digits2_pos p) - 1) <= Z.pos p < 2 ^ Z.pos (digits2_pos p).
Proof.
  induction p as [p IH|p IH|]; cbn [digits2_pos].
  - rewrite Pos2Z.inj_succ.
    replace (Z.succ (Z.pos (digits2_pos p)) - 1) with (Z.succ (Z.pos (digits2_pos p) - 1)) by lia.
    rewrite !Z.pow_succ_r by lia. lia.
  - rewrite Pos2Z.inj_succ.
    replace (Z.succ (Z.pos (digits2_pos p)) - 1) with (Z.succ (Z.pos (digits2_pos p) - 1)) by lia.
    rewrite !Z.pow_succ_r by lia. lia.
  - cbn. lia.
Qed.

(** The number of binary digits is determined by the binade. *)
Lemma Zdigits2_unique m d :
  0 < d -> 2 ^ (d - 1) <= m < 2 ^ d -> Zdigits2 m = d.
Proof.
  intros Hd Hm.
  assert (0 < m) by (pose proof (Z.pow_pos_nonneg 2 (d - 1)); lia).
  destruct m as [|p|p]; try lia. cbn [Zdigits2].
  pose proof (digits2_bounds p) as Hp.
  set (d' := Z.pos (digits2_pos p)) in *.
  assert (0 < d') by (unfold d'; lia).
  destruct (Z.lt_trichotomy d d') as [Hlt|[Heq|Hgt]]; [|done|].
  - assert (2 ^ d <= 2 ^ (d' - 1)) by (apply Z.pow_le_mono_r; lia). lia.
  - assert (2 ^ d' <= 2 ^ (d - 1)) by (apply Z.pow_le_mono_r; lia). lia.
Qed.

Lemma Zdigits2_bounds m :
  0 < m -> 0 < Zdigits2 m /\ 2 ^ (Zdigits2 m - 1) <= m < 2 ^ Zdigits2 m.
Proof.
  intros Hm. destruct m as [|p|p]; try lia. cbn [Zdigits2].
  split; [lia | apply digits2_bounds].
Qed.

Lemma shr_frac mx ex n a c :
  0 <= mx -> 0 <= a < c -> 0 <= n ->
  shr (shr_record_of_loc mx (loc_of_frac a c)) ex n
  = (shr_record_of_loc (mx / 2 ^ n)
       (loc_of_frac ((mx mod 2 ^ n) * c + a) (2 ^ n * c)), ex + n).
Proof.
  intros Hmx Ha Hn. unfold shr. destruct n as [|p|p]; [| |lia].
  - change (2 ^ 0) with 1. rewrite Z.div_1_r, Z.mod_1_r.
    replace (0 * c + a) with a by lia. replace (1 * c) with c by lia.
    by rewrite Z.add_0_r.
  - rewrite iter_pos_nat, iter_shr_1_frac by done.
    by rewrite positive_nat_Z.
Qed.

Lemma round_nearest_even_range m l :
  round_nearest_even m l = m \/ round_nearest_even m l = m + 1.
Proof. destruct l as [|[]]; cbn [round_nearest_even]; try destruct (Z.even m); auto. Qed.

(** [binary_round_aux] on a mantissa of at least 53 digits, in the normal
    range: the mantissa is cut to 53 digits, rounded to nearest-even on the
    fraction cut off, and renormalised if the rounding carried. *)
Lemma binary_round_aux_normal sx mx ex a c :
  0 < mx -> 0 <= a < c ->
  53 <= Zdigits2 mx ->
  -1074 <= ex + (Zdigits2 mx - 53) -> ex + (Zdigits2 mx - 53) + 1 <= 971 ->
  let n := Zdigits2 mx - 53 in
  let m2 := round_nearest_even (mx / 2 ^ n)
              (loc_of_frac ((mx mod 2 ^ n) * c + a) (2 ^ n * c)) in
  2 ^ 52 <= mx / 2 ^ n < 2 ^ 53
  /\ binary_round_aux 53 1024 sx mx ex (loc_of_frac a c)
     = if m2 <? 2 ^ 53 then S754_finite sx (Z.to_pos m2) (ex + n)
       else S754_finite sx (Z.to_pos (2 ^ 52)) (ex + n + 1).
Proof.
  intros Hmx Ha Hd Hlo Hhi n m2.
  destruct (Zdigits2_bounds mx Hmx) as [_ Hb].
  assert (Hn : 0 <= n) by (unfold n; lia).
  assert (Hpow : 0 < 2 ^ n) by (apply Z.pow_pos_nonneg; lia).
  assert (Hm1 : 2 ^ 52 <= mx / 2 ^ n < 2 ^ 53).
  { assert (Hd1 : Zdigits2 mx - 1 = 52 + n) by (unfold n; lia).
    assert (Hd2 : Zdigits2 mx = 53 + n) by (unfold n; lia).
    rewrite Hd1 in Hb. rewrite Hd2 in Hb at 1.
    rewrite !Z.pow_add_r in Hb by lia.
    split.
    - apply Z.div_le_lower_bound; lia.
    - apply Z.div_lt_upper_bound; lia. }
  split; [exact Hm1|].
  unfold binary_round_aux, shr_fexp.
  assert (Hfexp : fexp 53 1024 (Zdigits2 mx + ex) - ex = n).
  { unfold fexp, emin, n. lia. }
  rewrite Hfexp. rewrite shr_frac by lia.
  rewrite shr_m_record_of_loc, loc_of_shr_record_of_loc.
  fold m2.
  assert (Hm2 : m2 = mx / 2 ^ n \/ m2 = mx / 2 ^ n + 1)
    by apply round_nearest_even_range.
  change (shr_record_of_loc m2 loc_Exact)
    with (shr_record_of_loc m2 (loc_of_frac 0 1)).
  destruct (Z.ltb_spec m2 (2 ^ 53)) as [Hlt|Hge].
  - assert (Hdig : Zdigits2 m2 = 53) by (apply Zdigits2_unique; lia).
    rewrite Hdig.
    assert (Hf2 : fexp 53 1024 (53 + (ex + n)) - (ex + n) = 0).
    { unfold fexp, emin. unfold n in *. lia. }
    rewrite Hf2. rewrite shr_frac by lia.
    rewrite shr_m_record_of_loc.
    change (2 ^ 0) with 1. rewrite Z.div_1_r, Z.add_0_r.
    destruct m2 as [|p|p]; try lia.
    replace (ex + n <=? 1024 - 53) with true; [reflexivity|].
    symmetry. apply Z.leb_le. unfold n. lia.
  - assert (Heq : m2 = 2 ^ 53) by lia. rewrite Heq.
    assert (Hdig : Zdigits2 (2 ^ 53) = 54) by reflexivity.
    rewrite Hdig.
    assert (Hf2 : fexp 53 1024 (54 + (ex + n)) - (ex + n) = 1).
    { unfold fexp, emin. unfold n in *. lia. }
    rewrite Hf2. rewrite shr_frac by lia.
    rewrite shr_m_record_of_loc.
    change (2 ^ 53 / 2 ^ 1) with (2 ^ 52).
    change (2 ^ 52) with (Z.pos (Z.to_pos (2 ^ 52))) at 1.
    cbv iota beta.
    replace (ex + n + 1 <=? 1024 - 53) with true; [reflexivity|].
    symmetry. apply Z.leb_le. unfold n. lia.
Qed.

Lemma new_location_frac m r :
  0 < m -> 0 <= r < m -> new_location m r = loc_of_frac r m.
Proof.
  intros Hm Hr. unfold new_location, new_location_even, new_location_odd, loc_of_frac.
  destruct (Z.even m) eqn:Heven; [reflexivity|].
  destruct (Z.eqb_spec r 0); [reflexivity|]. f_equal.
  assert (Hodd : Z.odd m = true) by (rewrite <- Z.negb_even, Heven; reflexivity).
  apply Z.odd_spec in Hodd as [k Hk].
  destruct (Z.compare_spec (2 * r + 1) m) as [Heq|Hlt|Hgt];
    symmetry; [apply Z.compare_lt_iff | apply Z.compare_lt_iff | apply Z.compare_gt_iff]; lia.
Qed.

(** Rounding to nearest-even moves by at most half a step. *)
Lemma round_nearest_even_error m F G :
  0 <= F < G ->
  let m2 := round_nearest_even m (loc_of_frac F G) in
  (m2 = m \/ m2 = m + 1) /\ 2 * Z.abs (m2 * G - (m * G + F)) <= G.
Proof.
  intros HF m2. split; [apply round_nearest_even_range|].
  unfold m2, loc_of_frac. destruct (Z.eqb_spec F 0) as [->|Hne].
  - cbn [round_nearest_even]. lia.
  - destruct (Z.compare_spec (2 * F) G) as [Heq|Hlt|Hgt]; cbn [round_nearest_even].
    + destruct (Z.even m); lia.
    + lia.
    + lia.
Qed.

Lemma nat_iter_xO (n : nat) p :
  Z.pos (Nat.iter n xO p) = Z.pos p * 2 ^ Z.of_nat n.
Proof.
  induction n as [|n IH].
  - change (Nat.iter 0 xO p) with p. change (2 ^ Z.of_nat 0) with 1. lia.
  - rewrite Nat.iter_succ, Pos2Z.inj_xO, IH.
    rewrite Nat2Z.inj_succ, Z.pow_succ_r by lia. lia.
Qed.

Lemma pos_iter_xO p k : Z.pos (Pos.iter xO p k) = Z.pos p * 2 ^ Z.pos k.
Proof.
  rewrite Pos2Nat.inj_iter.
  pose proof (nat_iter_xO (Pos.to_nat k) p) as H.
  rewrite positive_nat_Z in H. exact H.
Qed.

(** A positive integer below 2^53 is a binary64 number: its mantissa is
    the integer shifted up to 53 digits. *)
Lemma b64_of_Z_pos z :
  0 < z < 2 ^ 53 ->
  let k := 53 - Zdigits2 z in
  0 <= k /\ 2 ^ 52 <= z * 2 ^ k < 2 ^ 53
  /\ b64_of_Z z = S754_finite false (Z.to_pos (z * 2 ^ k)) (- k).
Proof.
  intros Hz k.
  destruct (Zdigits2_bounds z ltac:(lia)) as [Hd Hb].
  assert (Hk : 0 <= k).
  { unfold k. destruct (Z.le_gt_cases (Zdigits2 z) 53) as [|Hgt]; [lia|].
    assert (2 ^ 53 <= 2 ^ (Zdigits2 z - 1)) by (apply Z.pow_le_mono_r; lia). lia. }
  assert (Hkpow : 0 < 2 ^ k) by (apply Z.pow_pos_nonneg; lia).
  assert (Hm : 2 ^ 52 <= z * 2 ^ k < 2 ^ 53).
  { assert (H52 : 2 ^ 52 = 2 ^ (Zdigits2 z - 1) * 2 ^ k)
      by (rewrite <- Z.pow_add_r by lia; f_equal; unfold k; lia).
    assert (H53 : 2 ^ 53 = 2 ^ Zdigits2 z * 2 ^ k)
      by (rewrite <- Z.pow_add_r by lia; f_equal; unfold k; lia).
    rewrite H52, H53. nia. }
  split; [exact Hk|]. split; [exact Hm|].
  destruct z as [|p|p]; try lia.
  unfold b64_of_Z, binary_normalize, binary_round.
  change (Z.pos (digits2_pos p)) with (Zdigits2 (Z.pos p)).
  assert (Hfexp : fexp 53 1024 (Zdigits2 (Z.pos p) + 0) = - k).
  { unfold fexp, emin, k. lia. }
  rewrite Hfexp.
  assert (Hshl : shl_align p 0 (- k) = (Z.to_pos (Z.pos p * 2 ^ k), - k)).
  { unfold shl_align. destruct k as [|q|q]; [| |lia].
    - cbn. f_equal. lia.
    - cbn [Z.opp Z.sub Z.add Z.pos_sub]. change (Z.neg q - 0) with (Z.neg q).
      cbv iota beta. f_equal.
      rewrite <- pos_iter_xO. reflexivity. }
  rewrite Hshl.
  set (mz := Z.pos p * 2 ^ k) in *.
  assert (Hmz : Z.pos (Z.to_pos mz) = mz) by (apply Z2Pos.id; lia).
  rewrite Hmz.
  assert (Hdig : Zdigits2 mz = 53) by (apply Zdigits2_unique; lia).
  change loc_Exact with (loc_of_frac 0 1).
  destruct (binary_round_aux_normal false mz (- k) 0 1) as [_ Hbra];
    rewrite ?Hdig; try lia.
  rewrite Hbra. rewrite Hdig. change (53 - 53) with 0.
  change (2 ^ 0) with 1. rewrite Z.div_1_r, Z.mod_1_r.
  change (loc_of_frac (0 * 1 + 0) (1 * 1)) with loc_Exact.
  cbn [round_nearest_even].
  replace (mz <? 2 ^ 53) with true by (symmetry; apply Z.ltb_lt; lia).
  by rewrite Z.add_0_r.
Qed.

(** [binary_round_aux] in the normal range: the result is a 53-digit
    mantissa at most half a unit in the last place from the number rounded. *)
Lemma binary_round_aux_value sx mx ex a c :
  0 < mx -> 0 <= a < c ->
  53 <= Zdigits2 mx ->
  -1074 <= ex + (Zdigits2 mx - 53) -> ex + (Zdigits2 mx - 53) + 1 <= 971 ->
  exists m' n',
    0 <= n' <= Zdigits2 mx - 52 /\ 2 ^ 52 <= m' < 2 ^ 53
    /\ binary_round_aux 53 1024 sx mx ex (loc_of_frac a c)
       = S754_finite sx (Z.to_pos m') (ex + n')
    /\ 2 * Z.abs (m' * (2 ^ n' * c) - (mx * c + a)) <= 2 ^ n' * c.
Proof.
  intros Hmx Ha Hd Hlo Hhi.
  destruct (binary_round_aux_normal sx mx ex a c Hmx Ha Hd Hlo Hhi) as [Hm1 Hbra].
  set (n := Zdigits2 mx - 53) in *.
  assert (Hn : 0 <= n) by (unfold n; lia).
  assert (Hpow : 0 < 2 ^ n) by (apply Z.pow_pos_nonneg; lia).
  assert (Hmod : 0 <= mx mod 2 ^ n < 2 ^ n) by (apply Z.mod_pos_bound; lia).
  assert (HF : 0 <= mx mod 2 ^ n * c + a < 2 ^ n * c) by nia.
  destruct (round_nearest_even_error (mx / 2 ^ n) _ _ HF) as [Hrange Herr].
  set (m2 := round_nearest_even (mx / 2 ^ n)
               (loc_of_frac (mx mod 2 ^ n * c + a) (2 ^ n * c))) in *.
  assert (Hsplit : mx / 2 ^ n * (2 ^ n * c) + (mx mod 2 ^ n * c + a) = mx * c + a).
  { pose proof (Z.div_mod mx (2 ^ n) ltac:(lia)) as Hdm. nia. }
  rewrite Hsplit in Herr.
  destruct (Z.ltb_spec m2 (2 ^ 53)) as [Hlt|Hge].
  - exists m2, n. split; [unfold n; lia|]. split; [lia|]. split; [exact Hbra|]. lia.
  - exists (2 ^ 52), (n + 1). split; [unfold n; lia|]. split; [lia|]. split.
    + rewrite Hbra. f_equal. lia.
    + assert (Heq : m2 = 2 ^ 53) by lia.
      rewrite Z.pow_add_r by lia. change (2 ^ 1) with 2.
      replace (2 ^ 52 * (2 ^ n * 2 * c)) with (m2 * (2 ^ n * c))
        by (rewrite Heq; change (2 ^ 53) with (2 ^ 52 * 2); lia).
      lia.
Qed.

Lemma Zdigits2_range m lo hi :
  0 <= lo -> 2 ^ lo <= m < 2 ^ hi -> lo + 1 <= Zdigits2 m <= hi.
Proof.
  intros Hlo Hm.
  assert (0 < m) by (pose proof (Z.pow_pos_nonneg 2 lo); lia).
  destruct (Zdigits2_bounds m ltac:(lia)) as [Hd Hb].
  split.
  - destruct (Z.le_gt_cases (lo + 1) (Zdigits2 m)) as [|Hgt]; [lia|].
    assert (2 ^ Zdigits2 m <= 2 ^ lo) by (apply Z.pow_le_mono_r; lia). lia.
  - destruct (Z.le_gt_cases (Zdigits2 m) hi) as [|Hgt]; [lia|].
    assert (2 ^ hi <= 2 ^ (Zdigits2 m - 1)) by (apply Z.pow_le_mono_r; lia). lia.
Qed.

(** The quotient of two normal numbers. *)
Lemma b64_div_value m1 e1 m2 e2 :
  2 ^ 52 <= m1 < 2 ^ 53 -> 2 ^ 52 <= m2 < 2 ^ 53 ->
  -52 <= e1 <= 0 -> -52 <= e2 <= 0 ->
  exists mq nq,
    0 <= nq <= 2 /\ 2 ^ 52 <= mq < 2 ^ 53
    /\ b64_div (S754_finite false (Z.to_pos m1) e1) (S754_finite false (Z.to_pos m2) e2)
       = S754_finite false (Z.to_pos mq) (e1 - e2 - 53 + nq)
    /\ 2 * Z.abs (mq * (2 ^ nq * m2) - m1 * 2 ^ 53) <= 2 ^ nq * m2.
Proof.
  intros Hm1 Hm2 He1 He2.
  assert (H52 : 0 < 2 ^ 52) by reflexivity.
  unfold b64_div, SFdiv, SFdiv_core_binary.
  rewrite !Z2Pos.id by lia.
  rewrite (Zdigits2_unique m1 53), (Zdigits2_unique m2 53) by lia.
  assert (He' : Z.min (fexp 53 1024 (53 + e1 - (53 + e2))) (e1 - e2) = e1 - e2 - 53)
    by (unfold fexp, emin; lia).
  rewrite He'.
  replace (e1 - e2 - (e1 - e2 - 53)) with 53 by lia.
  cbv iota beta. rewrite Z.shiftl_mul_pow2 by lia.
  pose proof (Z_div_mod (m1 * 2 ^ 53) m2 ltac:(lia)) as Hdm.
  destruct (Z.div_eucl (m1 * 2 ^ 53) m2) as [q0 r0]. destruct Hdm as [Hdm Hr0].
  rewrite new_location_frac by lia.
  assert (Hq0 : 2 ^ 52 <= q0 < 2 ^ 54).
  { change (2 ^ 54) with (2 ^ 52 * 4) in *. change (2 ^ 53) with (2 ^ 52 * 2) in *. nia. }
  pose proof (Zdigits2_range q0 52 54 ltac:(lia) Hq0) as Hdig.
  destruct (binary_round_aux_value (xorb false false) q0 (e1 - e2 - 53) r0 m2)
    as (mq & nq & Hnq & Hmq & Hbra & Herr); try lia.
  exists mq, nq. split; [lia|]. split; [lia|]. split; [exact Hbra|].
  replace (m1 * 2 ^ 53) with (q0 * m2 + r0) by lia. exact Herr.
Qed.

(** The product of two normal numbers. *)
Lemma b64_mul_value m1 e1 m2 e2 :
  2 ^ 52 <= m1 < 2 ^ 53 -> 2 ^ 52 <= m2 < 2 ^ 53 ->
  -200 <= e1 + e2 <= 200 ->
  exists mx nx,
    0 <= nx <= 54 /\ 2 ^ 52 <= mx < 2 ^ 53
    /\ b64_mul (S754_finite false (Z.to_pos m1) e1) (S754_finite false (Z.to_pos m2) e2)
       = S754_finite false (Z.to_pos mx) (e1 + e2 + nx)
    /\ 2 * Z.abs (mx * 2 ^ nx - m1 * m2) <= 2 ^ nx.
Proof.
  intros Hm1 Hm2 He.
  assert (H52 : 0 < 2 ^ 52) by reflexivity.
  unfold b64_mul, SFmul.
  rewrite Pos2Z.inj_mul, !Z2Pos.id by lia.
  assert (Hp : 2 ^ 104 <= m1 * m2 < 2 ^ 106).
  { change (2 ^ 104) with (2 ^ 52 * 2 ^ 52). change (2 ^ 106) with (2 ^ 53 * 2 ^ 53). nia. }
  pose proof (Zdigits2_range (m1 * m2) 104 106 ltac:(lia) Hp) as Hdig.
  change loc_Exact with (loc_of_frac 0 1).
  destruct (binary_round_aux_value (xorb false false) (m1 * m2) (e1 + e2) 0 1)
    as (mx & nx & Hnx & Hmx & Hbra & Herr); try lia.
  exists mx, nx. split; [lia|]. split; [lia|]. split; [exact Hbra|].
  replace (mx * (2 ^ nx * 1) - (m1 * m2 * 1 + 0)) with (mx * 2 ^ nx - m1 * m2) in Herr by lia.
  lia.
Qed.

(** *** Values as rationals *)

Lemma P2_pos z : (0 < P2 z)%Q.
Proof. apply Qpower_0_lt. reflexivity. Qed.

Lemma P2_split a b c : a = b + c -> (P2 a == P2 b * P2 c)%Q.
Proof. intros ->. unfold P2. apply Qpower_plus. discriminate. Qed.

Lemma P2_Z z : 0 <= z -> (inject_Z (2 ^ z) == P2 z)%Q.
Proof. intros Hz. unfold P2. by rewrite Zpower_Qpower. Qed.

Lemma relative_error (A B : Z) (k : Q) :
  2 ^ 53 * Z.abs (A - B) <= A -> (0 < k)%Q ->
  ((inject_Z A * k) * (1 - ulp_half) <= inject_Z B * k
   /\ inject_Z B * k <= (inject_Z A * k) * (1 + ulp_half))%Q.
Proof.
  intros Herr Hk.
  assert (H1 : 2 ^ 53 * A <= A + 2 ^ 53 * B) by lia.
  assert (H2 : 2 ^ 53 * B <= A + 2 ^ 53 * A) by lia.
  rewrite Zle_Qle in H1, H2.
  rewrite inject_Z_plus, !inject_Z_mult in H1, H2.
  change (inject_Z (2 ^ 53)) with (9007199254740992 # 1)%Q in H1, H2.
  unfold ulp_half.
  set (a := inject_Z A) in *. set (b := inject_Z B) in *.
  split; nra.
Qed.

Lemma b64_of_Z_100 :
  b64_of_Z 100 = S754_finite false (Z.to_pos (100 * 2 ^ 46)) (- 46).
Proof. reflexivity. Qed.

(** The double that [percent] rounds: its value [xh] is within one
    rounding of 100 times the quotient [qh], which is within one rounding of
    expenseTotal / budgetTotal. *)
Lemma percent_double (e b : Z) :
  0 < e < 2 ^ 53 -> 0 < b < 2 ^ 53 ->
  exists mx Ex qh,
    2 ^ 52 <= mx < 2 ^ 53
    /\ b64_mul (b64_div (b64_of_Z e) (b64_of_Z b)) (b64_of_Z 100)
       = S754_finite false (Z.to_pos mx) Ex
    /\ ((qh * inject_Z b) * (1 - ulp_half) <= inject_Z e
        /\ inject_Z e <= (qh * inject_Z b) * (1 + ulp_half)
        /\ (inject_Z mx * P2 Ex) * (1 - ulp_half) <= 100 * qh
        /\ 100 * qh <= (inject_Z mx * P2 Ex) * (1 + ulp_half))%Q.
Proof.
  intros He Hb.
  destruct (b64_of_Z_pos e He) as (Hk1 & HM1 & Hfe).
  destruct (b64_of_Z_pos b Hb) as (Hk2 & HM2 & Hfb).
  destruct (Zdigits2_bounds e ltac:(lia)) as [Hde _].
  destruct (Zdigits2_bounds b ltac:(lia)) as [Hdb _].
  set (k1 := 53 - Zdigits2 e) in *. set (k2 := 53 - Zdigits2 b) in *.
  assert (Hk1' : k1 <= 52) by (unfold k1; lia).
  assert (Hk2' : k2 <= 52) by (unfold k2; lia).
  rewrite Hfe, Hfb, b64_of_Z_100.
  destruct (b64_div_value (e * 2 ^ k1) (- k1) (b * 2 ^ k2) (- k2))
    as (mq & nq & Hnq & Hmq & Hdiv & Hderr); try lia.
  rewrite Hdiv.
  assert (H100 : 2 ^ 52 <= 100 * 2 ^ 46 < 2 ^ 53) by (split; [discriminate|reflexivity]).
  destruct (b64_mul_value mq (- k1 - - k2 - 53 + nq) (100 * 2 ^ 46) (- 46))
    as (mx & nx & Hnx & Hmx & Hmul & Hmerr); [exact Hmq|exact H100|lia|].
  rewrite Hmul.
  set (Eq := - k1 - - k2 - 53 + nq) in *.
  exists mx, (Eq + - 46 + nx), (inject_Z mq * P2 Eq)%Q.
  split; [exact Hmx|]. split; [reflexivity|].
  assert (H2k1 : 0 < 2 ^ k1) by (apply Z.pow_pos_nonneg; lia).
  assert (H2k2 : 0 < 2 ^ k2) by (apply Z.pow_pos_nonneg; lia).
  assert (H2nq : 0 < 2 ^ nq) by (apply Z.pow_pos_nonneg; lia).
  assert (H2nx : 0 < 2 ^ nx) by (apply Z.pow_pos_nonneg; lia).
  (* the quotient *)
  destruct (relative_error (mq * (2 ^ nq * (b * 2 ^ k2))) (e * 2 ^ k1 * 2 ^ 53)
              (P2 (- k1 - 53))) as [Hq1 Hq2]; [|apply P2_pos|].
  { change (2 ^ 53) with (2 * 2 ^ 52) at 1. nia. }
  assert (HqA : (inject_Z (mq * (2 ^ nq * (b * 2 ^ k2))) * P2 (- k1 - 53)
                 == inject_Z mq * P2 Eq * inject_Z b)%Q).
  { rewrite !inject_Z_mult, !P2_Z by lia.
    rewrite (P2_split Eq (nq + k2) (- k1 - 53)) by (unfold Eq; lia).
    rewrite (P2_split (nq + k2) nq k2) by lia. ring. }
  assert (HqB : (inject_Z (e * 2 ^ k1 * 2 ^ 53) * P2 (- k1 - 53) == inject_Z e)%Q).
  { rewrite !inject_Z_mult, !P2_Z by lia.
    pose proof (P2_split (k1 + 53) k1 53 ltac:(lia)) as Hs1.
    pose proof (P2_split 0 (k1 + 53) (- k1 - 53) ltac:(lia)) as Hs2.
    change (P2 0) with 1%Q in Hs2. rewrite Hs1 in Hs2.
    transitivity (inject_Z e * (P2 k1 * P2 53 * P2 (- k1 - 53)))%Q; [ring|].
    rewrite <- Hs2. ring. }
  rewrite HqA, HqB in Hq1, Hq2.
  (* the product *)
  destruct (relative_error (mx * 2 ^ nx) (mq * (100 * 2 ^ 46)) (P2 (Eq + - 46)))
    as [Hx1 Hx2]; [|apply P2_pos|].
  { change (2 ^ 53) with (2 * 2 ^ 52) at 1. nia. }
  assert (HxA : (inject_Z (mx * 2 ^ nx) * P2 (Eq + - 46)
                 == inject_Z mx * P2 (Eq + - 46 + nx))%Q).
  { rewrite !inject_Z_mult, !P2_Z by lia.
    rewrite (P2_split (Eq + - 46 + nx) nx (Eq + - 46)) by lia. ring. }
  assert (HxB : (inject_Z (mq * (100 * 2 ^ 46)) * P2 (Eq + - 46)
                 == 100 * (inject_Z mq * P2 Eq))%Q).
  { rewrite !inject_Z_mult, !P2_Z by lia.
    rewrite (P2_split Eq 46 (Eq + - 46)) by lia.
    change (inject_Z 100) with 100%Q. ring. }
  rewrite HxA, HxB in Hx1, Hx2.
  repeat split; assumption.
Qed.

(** [Math.round] of a positive double whose value lies in [R - 1/2, R + 1/2). *)
Lemma Math_round_between mx Ex R :
  0 < mx ->
  (inject_Z (2 * R - 1) <= 2 * (inject_Z mx * P2 Ex))%Q ->
  (2 * (inject_Z mx * P2 Ex) < inject_Z (2 * R + 1))%Q ->
  Math_round (S754_finite false (Z.to_pos mx) Ex) = R_int R.
Proof.
  intros Hmx Hlo Hhi. unfold Math_round. cbn [cond_Zopp].
  rewrite Z2Pos.id by lia. rewrite andb_false_r. f_equal.
  destruct (Z.leb_spec 0 Ex) as [Hpos|Hneg].
  - rewrite <- P2_Z in Hlo, Hhi by lia.
    change 2%Q with (inject_Z 2) in Hlo, Hhi.
    rewrite <- !inject_Z_mult in Hlo, Hhi.
    rewrite <- Zle_Qle in Hlo. rewrite <- Zlt_Qlt in Hhi. lia.
  - set (D := 2 ^ (- Ex)).
    assert (HD : 0 < D) by (apply Z.pow_pos_nonneg; lia).
    pose proof (P2_split 0 Ex (- Ex) ltac:(lia)) as Hs.
    change (P2 0) with 1%Q in Hs. rewrite <- (P2_Z (- Ex)) in Hs by lia. fold D in Hs.
    assert (HDq : (0 < inject_Z D)%Q).
    { change 0%Q with (inject_Z 0). by rewrite <- Zlt_Qlt. }
    assert (Heq : (inject_Z 2 * inject_Z mx == 2 * (inject_Z mx * P2 Ex) * inject_Z D)%Q).
    { change (inject_Z 2) with 2%Q.
      transitivity (2 * inject_Z mx * (P2 Ex * inject_Z D))%Q; [|ring].
      rewrite <- Hs. ring. }
    assert (Hlo' : (inject_Z (2 * R - 1) * inject_Z D <= inject_Z 2 * inject_Z mx)%Q).
    { rewrite Heq. apply Qmult_le_compat_r; [exact Hlo | by apply Qlt_le_weak]. }
    assert (Hhi' : (inject_Z 2 * inject_Z mx < inject_Z (2 * R + 1) * inject_Z D)%Q).
    { rewrite Heq. apply Qmult_lt_compat_r; [exact HDq | exact Hhi]. }
    rewrite <- !inject_Z_mult in Hlo', Hhi'.
    rewrite <- Zle_Qle in Hlo'. rewrite <- Zlt_Qlt in Hhi'.
    symmetry. apply Z.div_unique with (r := 2 * mx + D - 2 * D * R); lia.
Qed.

Lemma percentOf_zero_expense b : 0 < b < 2 ^ 53 -> percentOf 0 b = R_int 0.
Proof.
  intros Hb. unfold percentOf.
  replace (0 <? b) with true by (symmetry; apply Z.ltb_lt; lia).
  destruct (b64_of_Z_pos b Hb) as (_ & _ & ->). reflexivity.
Qed.

(** The double rounded by [percent] lies within 1/(2 budgetTotal) of the
    exact ratio, for expense totals below 2^44. *)
Lemma percent_double_close (e b : Z) :
  0 < e < 2 ^ 44 -> 0 < b < 2 ^ 53 ->
  exists mx Ex,
    0 < mx
    /\ b64_mul (b64_div (b64_of_Z e) (b64_of_Z b)) (b64_of_Z 100)
       = S754_finite false (Z.to_pos mx) Ex
    /\ (200 * inject_Z e - 1 < 2 * (inject_Z mx * P2 Ex) * inject_Z b
        /\ 2 * (inject_Z mx * P2 Ex) * inject_Z b < 200 * inject_Z e + 1)%Q.
Proof.
  intros He Hb.
  destruct (percent_double e b) as (mx & Ex & qh & Hmx & Hx & H1 & H2 & H3 & H4);
    [change (2 ^ 53) with (2 ^ 44 * 512); lia | lia |].
  exists mx, Ex. split; [lia|]. split; [exact Hx|].
  assert (HbQ : (0 < inject_Z b)%Q).
  { change 0%Q with (inject_Z 0). rewrite <- Zlt_Qlt. lia. }
  assert (He0 : (0 < inject_Z e)%Q).
  { change 0%Q with (inject_Z 0). rewrite <- Zlt_Qlt. lia. }
  assert (He1 : (inject_Z e < inject_Z (2 ^ 44))%Q) by (rewrite <- Zlt_Qlt; lia).
  change (inject_Z (2 ^ 44)) with (17592186044416 # 1)%Q in He1.
  set (xh := (inject_Z mx * P2 Ex)%Q) in *.
  set (bQ := inject_Z b) in *. set (eQ := inject_Z e) in *.
  unfold ulp_half in *.
  assert (H3' : ((xh * bQ) * (1 - (1 # 9007199254740992)) <= 100 * (qh * bQ))%Q) by nra.
  assert (H4' : (100 * (qh * bQ) <= (xh * bQ) * (1 + (1 # 9007199254740992)))%Q) by nra.
  assert (Ht : (2 * xh * bQ == 2 * (xh * bQ))%Q) by ring.
  rewrite Ht.
  set (t := (xh * bQ)%Q) in *. set (s := (qh * bQ)%Q) in *.
  split; lra.
Qed.

(** Below 2^44 spent, the rounded double is on the same side of every
    half-integer as the exact ratio, unless the ratio is a half-integer. *)
Lemma percentOf_exact_or_below_tie (e b : Z) :
  0 <= e < 2 ^ 44 -> 0 < b < 2 ^ 53 ->
  percentOf e b = R_int (roundHalfUpPercent e b)
  \/ (exactTie e b /\ percentOf e b = R_int (roundHalfUpPercent e b - 1)).
Proof.
  intros He Hb.
  destruct (Z.eq_dec e 0) as [->|Hne].
  { left. rewrite percentOf_zero_expense by exact Hb. f_equal.
    unfold roundHalfUpPercent. symmetry. apply Z.div_small. lia. }
  destruct (percent_double_close e b) as (mx & Ex & Hmx & Hx & Hlo & Hhi); [lia|lia|].
  unfold percentOf.
  replace (0 <? b) with true by (symmetry; apply Z.ltb_lt; lia).
  rewrite Hx. unfold roundHalfUpPercent.
  pose proof (Z.div_mod (200 * e + b) (2 * b) ltac:(lia)) as Hdm.
  pose proof (Z.mod_pos_bound (200 * e + b) (2 * b) ltac:(lia)) as Hr.
  set (R := (200 * e + b) / (2 * b)) in *.
  set (r := (200 * e + b) mod (2 * b)) in *.
  assert (HbQ : (0 < inject_Z b)%Q).
  { change 0%Q with (inject_Z 0). rewrite <- Zlt_Qlt. lia. }
  assert (Hb1 : (1 <= inject_Z b)%Q).
  { change 1%Q with (inject_Z 1). rewrite <- Zle_Qle. lia. }
  set (xh := (inject_Z mx * P2 Ex)%Q) in *.
  assert (Hinj : forall K c, K * b + c = 200 * e ->
            (inject_Z K * inject_Z b + inject_Z c == 200 * inject_Z e)%Q).
  { intros K c HK. rewrite <- inject_Z_mult, <- inject_Z_plus, HK, inject_Z_mult.
    reflexivity. }
  assert (Hinj_le : forall c d : Z, c <= d -> (inject_Z c <= inject_Z d)%Q)
    by (intros c d Hcd; by rewrite <- Zle_Qle).
  destruct (Z.eq_dec r 0) as [Hr0|Hr0].
  - (* the exact ratio is a tie *)
    pose proof (Hinj (2 * R - 1) 0 ltac:(lia)) as H1.
    pose proof (Hinj (2 * R + 1) (- 2 * b) ltac:(lia)) as H2.
    pose proof (Hinj (2 * (R - 1) - 1) (2 * b) ltac:(lia)) as H3.
    rewrite inject_Z_mult in H2, H3.
    change (inject_Z 0) with 0%Q in H1. change (inject_Z (-2)) with (-2 # 1)%Q in H2.
    change (inject_Z 2) with 2%Q in H3.
    destruct (Qlt_le_dec (2 * xh) (inject_Z (2 * R - 1))) as [Hlt|Hge].
    + right. split; [exact Hr0|].
      apply Math_round_between; [exact Hmx| |].
      * apply (Qmult_le_r _ _ (inject_Z b) HbQ). fold xh. lra.
      * replace (2 * (R - 1) + 1) with (2 * R - 1) by lia. exact Hlt.
    + left. apply Math_round_between; [exact Hmx|exact Hge|].
      apply (Qmult_lt_r _ _ (inject_Z b) HbQ). fold xh. lra.
  - left.
    pose proof (Hinj (2 * R - 1) r ltac:(lia)) as H1.
    pose proof (Hinj (2 * R + 1) (r - 2 * b) ltac:(lia)) as H2.
    pose proof (Hinj_le 1 r ltac:(lia)) as H3.
    pose proof (Hinj_le (r - 2 * b) (- 1) ltac:(lia)) as H4.
    change (inject_Z 1) with 1%Q in H3. change (inject_Z (-1)) with (-1 # 1)%Q in H4.
    apply Math_round_between; [exact Hmx| |].
    + apply (Qmult_le_r _ _ (inject_Z b) HbQ). fold xh. lra.
    + apply (Qmult_lt_r _ _ (inject_Z b) HbQ). fold xh. lra.
Qed.

(** ** Budget utilisation *)

Lemma Math_round_nearest x n :
  Math_round x = R_int n \/ (Math_round x = R_negzero /\ n = 0) ->
  nearestTiesUp x n.
Proof.
  destruct x as [s|s| |s m e]; cbn [Math_round nearestTiesUp].
  - destruct s; intros [H|[H ->]]; by simplify_eq.
  - intros [H|[H _]]; discriminate H.
  - intros [H|[H _]]; discriminate H.
  - set (v := cond_Zopp s (Z.pos m)).
    destruct (0 <=? e) eqn:He.
    + destruct ((v * 2 ^ e =? 0) && s) eqn:Hz.
      * intros [H|[_ ->]]; [discriminate H|].
        apply andb_true_iff in Hz as [Hz _]. apply Z.eqb_eq in Hz. lia.
      * intros [H|[H _]]; [by injection H as <- | discriminate H].
    + apply Z.leb_gt in He.
      assert (Hd : 0 < 2 ^ (- e)) by (apply Z.pow_pos_nonneg; lia).
      set (d := 2 ^ (- e)) in *.
      assert (Hn : (2 * ((2 * v + d) / (2 * d)) - 1) * d <= 2 * v
                   < (2 * ((2 * v + d) / (2 * d)) + 1) * d).
      { pose proof (Z.div_mod (2 * v + d) (2 * d) ltac:(lia)) as Hdm.
        pose proof (Z.mod_pos_bound (2 * v + d) (2 * d) ltac:(lia)) as Hmod.
        nia. }
      destruct (((2 * v + d) / (2 * d) =? 0) && s) eqn:Hz.
      * intros [H|[_ ->]]; [discriminate H|].
        apply andb_true_iff in Hz as [Hz _]. apply Z.eqb_eq in Hz.
        by rewrite Hz in Hn.
      * intros [H|[H _]]; [by injection H as <- | discriminate H].
Qed.

(** C3, as amended: [percent] is 0 whenever [budgetTotal] is not positive,
    whatever was spent.  When [budgetTotal] is positive it is [Math.round]
    of the binary64 number obtained by dividing and then multiplying by
    100, each operation rounded.  For a non-negative [expenseTotal] below
    2^44 and a [budgetTotal] below 2^53 that is the exact ratio rounded to
    the nearest integer, unless the exact ratio is at a tie, k + 1/2: there
    it is the upper integer or the one below it. *)
Theorem percentOf_exact_unless_tie (expenseTotal budgetTotal : Z) :
  (budgetTotal <= 0 -> percentOf expenseTotal budgetTotal = R_int 0)
  /\ (0 < budgetTotal ->
      let x := b64_mul (b64_div (b64_of_Z expenseTotal) (b64_of_Z budgetTotal))
                 (b64_of_Z 100) in
      percentOf expenseTotal budgetTotal = Math_round x
      /\ forall n, percentOf expenseTotal budgetTotal = R_int n -> nearestTiesUp x n)
  /\ (0 <= expenseTotal < 2 ^ 44 -> 0 < budgetTotal < 2 ^ 53 ->
      percentOf expenseTotal budgetTotal
      = R_int (roundHalfUpPercent expenseTotal budgetTotal)
      \/ (exactTie expenseTotal budgetTotal
          /\ percentOf expenseTotal budgetTotal
             = R_int (roundHalfUpPercent expenseTotal budgetTotal - 1))).
Proof.
  split; [|split].
  - intros Hb. unfold percentOf. by rewrite (proj2 (Z.ltb_ge 0 budgetTotal) Hb).
  - intros Hb. unfold percentOf. rewrite (proj2 (Z.ltb_lt 0 budgetTotal) Hb).
    split; [reflexivity|]. intros n Hn. apply Math_round_nearest. by left.
  - apply percentOf_exact_or_below_tie.
Qed.

Lemma percentOf_exact_unless_tie_witness :
  percentOf 12000 0 = R_int 0
  /\ nearestTiesUp (b64_mul (b64_div (b64_of_Z 23) (b64_of_Z 40)) (b64_of_Z 100)) 57
  /\ (percentOf 1200 5000 = R_int (roundHalfUpPercent 1200 5000)
      \/ (exactTie 1200 5000
          /\ percentOf 1200 5000 = R_int (roundHalfUpPercent 1200 5000 - 1))).
Proof.
  split; [|split].
  - apply (proj1 (percentOf_exact_unless_tie 12000 0)). lia.
  - apply (proj1 (proj2 (percentOf_exact_unless_tie 23 40))); [lia|].
    vm_compute. reflexivity.
  - apply (proj2 (proj2 (percentOf_exact_unless_tie 1200 5000))); lia.
Defined.

(** C3, as stated, fails: 23 spent of a budget of 40 is 57.5 percent, which
    rounds up to 58; the component shows 57, because the binary64 product
    is just below 57.5. *)
Lemma percentOf_below_exact_tie :
  ~ (forall expenseTotal budgetTotal,
       0 <= expenseTotal -> 0 < budgetTotal ->
       percentOf expenseTotal budgetTotal
       = R_int (roundHalfUpPercent expenseTotal budgetTotal)).
Proof.
  intros H. specialize (H 23 40 ltac:(lia) ltac:(lia)).
  vm_compute in H. discriminate H.
Qed.

(** ** Calendar *)

Lemma eraCheck_all yoe mp :
  0 <= yoe < 400 -> 0 <= mp < 12 -> eraCheck yoe mp = true.
Proof.
  intros Hy Hm.
  assert (Hall : forallb (fun y => forallb (eraCheck y) (seqZ 0 12)) (seqZ 0 400) = true)
    by (vm_compute; reflexivity).
  rewrite forallb_forall in Hall.
  specialize (Hall yoe). rewrite forallb_forall in Hall.
  apply Hall; apply list_elem_of_In, elem_of_seqZ; lia.
Qed.

Lemma civil_from_days_era era doe :
  0 <= doe < 146097 ->
  civil_from_days (era * 146097 + doe - 719468)
  = let '(yoe, mp) := yoe_mp_of doe in
    let m := if mp <? 10 then mp + 3 else mp - 9 in
    (if m <=? 2 then yoe + era * 400 + 1 else yoe + era * 400, m).
Proof.
  intros Hdoe. unfold civil_from_days, yoe_mp_of.
  replace (era * 146097 + doe - 719468 + 719468) with (doe + era * 146097) by lia.
  rewrite Z.div_add by lia. rewrite (Z.div_small doe 146097) by lia.
  replace (doe + era * 146097 - (0 + era) * 146097) with doe by lia.
  reflexivity.
Qed.

(** Evaluate the closed comparisons and remainders of the goal. *)
Ltac zclosed :=
  repeat match goal with
         | |- context [(?a <? ?b)] =>
           let v := eval vm_compute in (a <? b) in
           lazymatch v with true => idtac | false => idtac end;
           change (a <? b) with v
         | |- context [(?a <=? ?b)] =>
           let v := eval vm_compute in (a <=? b) in
           lazymatch v with true => idtac | false => idtac end;
           change (a <=? b) with v
         | |- context [(?a =? ?b)] =>
           let v := eval vm_compute in (a =? b) in
           lazymatch v with true => idtac | false => idtac end;
           change (a =? b) with v
         end;
  cbn beta iota.

(** The first of a month is mapped back to its year and month, and the
    day before it to the month before. *)
Lemma civil_from_days_first y m :
  1 <= m <= 12 ->
  civil_from_days (days_from_civil y m 1) = (y, m)
  /\ civil_from_days (days_from_civil y m 1 - 1) = monthBefore (y, m).
Proof.
  intros Hm. unfold days_from_civil.
  set (y' := if m <=? 2 then y - 1 else y).
  assert (Hera : exists era yoe, y' = era * 400 + yoe /\ 0 <= yoe < 400
                                 /\ y' / 400 = era /\ y' - era * 400 = yoe).
  { exists (y' / 400), (y' - y' / 400 * 400).
    pose proof (Z.div_mod y' 400 ltac:(lia)).
    pose proof (Z.mod_pos_bound y' 400 ltac:(lia)). lia. }
  destruct Hera as (era & yoe & Hy' & Hyoe & -> & ->).
  assert (Hmp : exists mp, (m + 9) mod 12 = mp /\ 0 <= mp < 12
                           /\ mp = if m <=? 2 then m + 9 else m - 3).
  { exists ((m + 9) mod 12). split; [done|].
    split; [apply Z.mod_pos_bound; lia|].
    destruct (m <=? 2) eqn:E.
    - apply Z.leb_le in E. rewrite Z.mod_small; lia.
    - apply Z.leb_gt in E.
      replace (m + 9) with (m - 3 + 1 * 12) by lia.
      rewrite Z.mod_add by lia. rewrite Z.mod_small; lia. }
  destruct Hmp as (mp & -> & Hmp & Hmp').
  replace (yoe * 365 + yoe / 4 - yoe / 100 + ((153 * mp + 2) / 5 + 1 - 1))
    with (doe_of yoe mp) by (unfold doe_of; lia).
  pose proof (eraCheck_all yoe mp Hyoe Hmp) as Hcheck.
  unfold eraCheck in Hcheck.
  apply andb_true_iff in Hcheck as [Hcheck Hprev].
  apply andb_true_iff in Hcheck as [Hcheck Hback].
  apply andb_true_iff in Hcheck as [Hlo Hhi].
  apply Z.leb_le in Hlo. apply Z.ltb_lt in Hhi.
  apply bool_decide_eq_true in Hback.
  assert (Hzero : doe_of 0 0 = 0) by reflexivity.
  assert (Hlast : yoe_mp_of 146096 = (399, 11)) by (vm_compute; reflexivity).
  assert (Hpos : yoe <> 0 \/ mp <> 0 -> 1 <= doe_of yoe mp).
  { intros Hne. unfold doe_of in *.
    assert (0 <= yoe / 4 - yoe / 100).
    { pose proof (Z.div_le_compat_l yoe 4 100 ltac:(lia) ltac:(lia)). lia. }
    assert (0 <= (153 * mp + 2) / 5) by (apply Z.div_pos; lia).
    destruct (Z.eq_dec yoe 0) as [Hy0|Hy0]; [|lia].
    assert (mp <> 0) by lia.
    assert (1 <= (153 * mp + 2) / 5); [|lia].
    apply Z.div_le_lower_bound; lia. }
  assert (Hdoe0 : yoe = 0 -> mp = 0 -> doe_of yoe mp = 0) by (by intros -> ->).
  set (doe := doe_of yoe mp) in *.
  unfold y' in Hy'. clearbody doe. clear y'.
  assert (Hc : m = 1 \/ m = 2 \/ m = 3 \/ m = 4 \/ m = 5 \/ m = 6 \/ m = 7
               \/ m = 8 \/ m = 9 \/ m = 10 \/ m = 11 \/ m = 12) by lia.
  split.
  - rewrite civil_from_days_era by lia. rewrite Hback.
    repeat (destruct Hc as [->|Hc]; [|]); try subst m; revert Hmp' Hy'; zclosed;
      intros -> Hy'; zclosed; f_equal; zclosed; lia.
  - destruct (Z.eq_dec yoe 0) as [Hy0|Hy0]; [destruct (Z.eq_dec mp 0) as [Hm0|Hm0]|].
    + rewrite (Hdoe0 Hy0 Hm0). rewrite Hy0 in Hy'. rewrite Hm0 in Hmp'.
      replace (era * 146097 + 0 - 719468 - 1)
        with ((era - 1) * 146097 + 146096 - 719468) by lia.
      rewrite civil_from_days_era by lia. rewrite Hlast. unfold monthBefore.
      repeat (destruct Hc as [->|Hc]; [|]); try subst m; revert Hmp' Hy'; zclosed;
        intros Hmp' Hy'; try lia; cbn [fst snd]; zclosed; f_equal; zclosed; lia.
    + rewrite (proj2 (Z.eqb_neq mp 0) Hm0), andb_false_r in Hprev.
      apply bool_decide_eq_true in Hprev.
      specialize (Hpos (or_intror Hm0)).
      replace (era * 146097 + doe - 719468 - 1)
        with (era * 146097 + (doe - 1) - 719468) by lia.
      rewrite civil_from_days_era by lia. rewrite Hprev. unfold monthBefore.
      repeat (destruct Hc as [->|Hc]; [|]); try subst m; revert Hmp' Hy'; zclosed;
        intros -> Hy'; cbn [fst snd]; zclosed; f_equal; zclosed; lia.
    + rewrite (proj2 (Z.eqb_neq yoe 0) Hy0), andb_false_l in Hprev.
      apply bool_decide_eq_true in Hprev.
      specialize (Hpos (or_introl Hy0)).
      replace (era * 146097 + doe - 719468 - 1)
        with (era * 146097 + (doe - 1) - 719468) by lia.
      rewrite civil_from_days_era by lia. rewrite Hprev. unfold monthBefore.
      repeat (destruct Hc as [->|Hc]; [|]); try subst m; revert Hmp' Hy'; zclosed;
        intros -> Hy'; cbn [fst snd]; zclosed; f_equal; zclosed; lia.
Qed.

Lemma Date_local_month clock year month :
  ~ (0 <= year <= 99) -> 1 <= month <= 12 ->
  Date_local clock year (month - 2)
  = (let '(y, m) := monthBefore (year, month) in days_from_civil y m 1) * msPerDay
    - tzOffsetMinutes clock * 60000.
Proof.
  intros Hyear Hmonth. unfold Date_local, monthBefore. cbn [fst snd].
  replace ((0 <=? year) && (year <=? 99)) with false.
  2:{ symmetry. apply andb_false_iff.
      destruct (Z.leb_spec 0 year); [right; apply Z.leb_gt; lia | by left]. }
  destruct (Z.eqb_spec month 1) as [->|Hne].
  - reflexivity.
  - replace ((month - 2) / 12) with 0 by (symmetry; apply Z.div_small; lia).
    rewrite Z.mod_small by lia. do 3 f_equal; lia.
Qed.

(** Where local time is not ahead of UTC, the function returns the month
    before the one it is given. *)
Lemma getPreviousMonthFrom_not_ahead clock monthValue year month :
  readsAs monthValue year month ->
  -1440 < tzOffsetMinutes clock <= 0 ->
  100 <= year -> 1 <= month <= 12 ->
  getPreviousMonthFrom clock monthValue = precedingMonth year month.
Proof.
  intros (Htruthy & Hyear & Hmonth) Htz Hy Hm.
  unfold getPreviousMonthFrom. rewrite Htruthy, Hyear, Hmonth.
  change (default 0 (Some year)) with year. change (default 0 (Some month)) with month.
  cbn [negb falsyNumber].
  replace (year =? 0) with false by (symmetry; apply Z.eqb_neq; lia).
  replace (month =? 0) with false by (symmetry; apply Z.eqb_neq; lia).
  cbn [orb]. unfold toISOString_month, precedingMonth.
  rewrite (Date_local_month clock year month); [|lia|exact Hm].
  assert (Hb : 1 <= snd (monthBefore (year, month)) <= 12).
  { unfold monthBefore. cbn [fst snd]. destruct (Z.eqb_spec month 1); cbn [snd]; lia. }
  destruct (monthBefore (year, month)) as [y m]. cbn [snd] in Hb.
  destruct (civil_from_days_first y m Hb) as [Hfirst _].
  replace ((days_from_civil y m 1 * msPerDay - tzOffsetMinutes clock * 60000) / msPerDay)
    with (days_from_civil y m 1); [by rewrite Hfirst|].
  unfold msPerDay. apply Z.div_unique with (- tzOffsetMinutes clock * 60000); lia.
Qed.

(** Where local time is ahead of UTC, it returns the month before that. *)
Lemma getPreviousMonthFrom_ahead clock monthValue year month :
  readsAs monthValue year month ->
  0 < tzOffsetMinutes clock <= 1440 ->
  100 <= year -> 1 <= month <= 12 ->
  getPreviousMonthFrom clock monthValue
  = isoMonth (monthBefore (monthBefore (year, month))).
Proof.
  intros (Htruthy & Hyear & Hmonth) Htz Hy Hm.
  unfold getPreviousMonthFrom. rewrite Htruthy, Hyear, Hmonth.
  change (default 0 (Some year)) with year. change (default 0 (Some month)) with month.
  cbn [negb falsyNumber].
  replace (year =? 0) with false by (symmetry; apply Z.eqb_neq; lia).
  replace (month =? 0) with false by (symmetry; apply Z.eqb_neq; lia).
  cbn [orb]. unfold toISOString_month.
  rewrite (Date_local_month clock year month); [|lia|exact Hm].
  assert (Hb : 1 <= snd (monthBefore (year, month)) <= 12).
  { unfold monthBefore. cbn [fst snd]. destruct (Z.eqb_spec month 1); cbn [snd]; lia. }
  destruct (monthBefore (year, month)) as [y m]. cbn [snd] in Hb.
  destruct (civil_from_days_first y m Hb) as [_ Hbefore].
  replace ((days_from_civil y m 1 * msPerDay - tzOffsetMinutes clock * 60000) / msPerDay)
    with (days_from_civil y m 1 - 1); [by rewrite Hbefore|].
  unfold msPerDay.
  apply Z.div_unique with (86400000 - tzOffsetMinutes clock * 60000); lia.
Qed.
(** ** Totals and charts *)

Lemma Map_get_set {V} (map : JsMap V) k v k' :
  Map_get (Map_set map k v) k' = if str_eqb k k' then Some v else Map_get map k'.
Proof.
  induction map as [|[k0 v0] map IH]; cbn [Map_set Map_get].
  - reflexivity.
  - destruct (str_eqb k0 k) eqn:E0; cbn [Map_get].
    + apply str_eqb_eq in E0 as ->. by destruct (str_eqb k k').
    + rewrite IH. destruct (str_eqb k0 k') eqn:E1; [|reflexivity].
      apply str_eqb_eq in E1 as ->. apply str_eqb_neq in E0.
      assert (str_eqb k k' = false) as -> by (apply str_eqb_neq; congruence).
      reflexivity.
Qed.

Lemma Map_get_is_Some {V} (map : JsMap V) k :
  is_Some (Map_get map k) <-> k ∈ map.*1.
Proof.
  induction map as [|[k0 v0] map IH]; cbn [Map_get].
  - rewrite fmap_nil. split; [by intros [? ?] | by intros ?%elem_of_nil].
  - rewrite fmap_cons, elem_of_cons. cbn [fst].
    destruct (str_eqb k0 k) eqn:E.
    + apply str_eqb_eq in E as ->. split; [by left | by eexists].
    + apply str_eqb_neq in E. rewrite IH. split; [by right | by intros [->|?]].
Qed.

Lemma Map_set_keys {V} (map : JsMap V) k v :
  (Map_set map k v).*1 = if bool_decide (k ∈ map.*1) then map.*1 else map.*1 ++ [k].
Proof.
  induction map as [|[k0 v0] map IH]; cbn [Map_set].
  - rewrite bool_decide_eq_false_2 by apply not_elem_of_nil. reflexivity.
  - rewrite !fmap_cons. cbn [fst]. destruct (str_eqb k0 k) eqn:E.
    + apply str_eqb_eq in E as ->.
      rewrite bool_decide_eq_true_2 by apply list_elem_of_here. reflexivity.
    + apply str_eqb_neq in E. rewrite fmap_cons, IH. cbn [fst].
      destruct (bool_decide (k ∈ map.*1)) eqn:Hin.
      * apply bool_decide_eq_true in Hin.
        rewrite bool_decide_eq_true_2 by (by apply list_elem_of_further). reflexivity.
      * apply bool_decide_eq_false in Hin.
        rewrite bool_decide_eq_false_2; [reflexivity|].
        rewrite elem_of_cons. by intros [->|?].
Qed.

Lemma Map_set_NoDup {V} (map : JsMap V) k v :
  NoDup map.*1 -> NoDup (Map_set map k v).*1.
Proof.
  intros Hnd. rewrite Map_set_keys. destruct (bool_decide (k ∈ map.*1)) eqn:Hin; [done|].
  apply bool_decide_eq_false in Hin.
  apply NoDup_app. split; [done|]. split; [|apply NoDup_singleton].
  intros x Hx ->%list_elem_of_singleton. contradiction.
Qed.

Lemma Map_get_elem_of {V} (map : JsMap V) k v :
  NoDup map.*1 -> (k, v) ∈ map <-> Map_get map k = Some v.
Proof.
  induction map as [|[k0 v0] map IH]; intros Hnd; cbn [Map_get].
  - split; [by intros ?%elem_of_nil | done].
  - rewrite fmap_cons in Hnd. apply NoDup_cons in Hnd as [Hnot Hnd]. cbn [fst] in Hnot.
    rewrite elem_of_cons. destruct (str_eqb k0 k) eqn:E.
    + apply str_eqb_eq in E as ->. split.
      * intros [[= ->]|Hin]; [done|]. exfalso. apply Hnot.
        apply list_elem_of_fmap. by exists (k, v).
      * intros [= ->]. by left.
    + apply str_eqb_neq in E. rewrite <- IH by done. split.
      * intros [[= -> ->]|Hin]; [done | exact Hin].
      * by right.
Qed.

(** The map built by accumulating a value per key over a list of items. *)
Section Grouping.

Context {V : Type} (key : Transaction -> jsstring) (f : option V -> Transaction -> V).

Let step (map : JsMap V) (item : Transaction) : JsMap V :=
  Map_set map (key item) (f (Map_get map (key item)) item).

Lemma grouping_NoDup items map0 :
  NoDup map0.*1 -> NoDup (fold_left step items map0).*1.
Proof.
  revert map0. induction items as [|item items IH]; intros map0 Hnd; [done|].
  cbn [fold_left]. apply IH. by apply Map_set_NoDup.
Qed.

Lemma grouping_get items map0 k :
  Map_get (fold_left step items map0) k
  = fold_left (fun o item => if str_eqb (key item) k then Some (f o item) else o)
      items (Map_get map0 k).
Proof.
  revert map0. induction items as [|item items IH]; intros map0; [done|].
  cbn [fold_left]. rewrite IH. f_equal. unfold step. rewrite Map_get_set.
  destruct (str_eqb (key item) k) eqn:E; [|reflexivity].
  by apply str_eqb_eq in E as ->.
Qed.

End Grouping.

Lemma sum_fold_from (l : list Transaction) (a : Z) :
  fold_left (fun sum item => sum + tx_amount item) l a
  = a + fold_left (fun sum item => sum + tx_amount item) l 0.
Proof. rewrite !fold_left_add_foldr. lia. Qed.

(** Per key, the accumulated value is the sum over the items of that key. *)
Lemma groupSum_get (key : Transaction -> jsstring) items k :
  Map_get
    (fold_left
       (fun (map : JsMap Z) item =>
          Map_set map (key item) (default 0 (Map_get map (key item)) + tx_amount item))
       items []) k
  = let group := List.filter (fun item => str_eqb (key item) k) items in
    if bool_decide (group = []) then None
    else Some (fold_left (fun sum item => sum + tx_amount item) group 0).
Proof.
  rewrite (grouping_get key (fun o item => default 0 o + tx_amount item)).
  cbn [Map_get].
  assert (Hgen : forall o,
    fold_left (fun o item => if str_eqb (key item) k
                             then Some (default 0 o + tx_amount item) else o) items o
    = let group := List.filter (fun item => str_eqb (key item) k) items in
      if bool_decide (group = []) then o
      else Some (fold_left (fun sum item => sum + tx_amount item) group (default 0 o))).
  { induction items as [|item items IH]; intros o; [done|].
    cbn [fold_left List.filter]. rewrite IH. cbn zeta.
    destruct (str_eqb (key item) k) eqn:E.
    - rewrite (bool_decide_eq_false_2 (item :: _ = [])) by done.
      cbn [fold_left default].
      destruct (bool_decide (List.filter _ items = [])) eqn:Hnil; [|reflexivity].
      apply bool_decide_eq_true in Hnil. by rewrite Hnil.
    - reflexivity. }
  rewrite Hgen. reflexivity.
Qed.

(** The accumulated values add up to the sum over all the items. *)
Lemma groupSum_total (key : Transaction -> jsstring) items :
  foldr Z.add 0
    (fold_left
       (fun (map : JsMap Z) item =>
          Map_set map (key item) (default 0 (Map_get map (key item)) + tx_amount item))
       items []).*2
  = fold_left (fun sum item => sum + tx_amount item) items 0.
Proof.
  assert (Hset : forall (map : JsMap Z) k a,
    foldr Z.add 0 (Map_set map k (default 0 (Map_get map k) + a)).*2
    = foldr Z.add 0 map.*2 + a).
  { induction map as [|[k0 v0] map IH]; intros k a; cbn [Map_set Map_get].
    - cbn. lia.
    - destruct (str_eqb k0 k); rewrite !fmap_cons; simpl.
      + lia.
      + rewrite IH. lia. }
  assert (Hgen : forall map0,
    foldr Z.add 0
      (fold_left
         (fun (map : JsMap Z) item =>
            Map_set map (key item) (default 0 (Map_get map (key item)) + tx_amount item))
         items map0).*2
    = foldr Z.add 0 map0.*2 + fold_left (fun sum item => sum + tx_amount item) items 0).
  { induction items as [|item items IH]; intros map0; cbn [fold_left]; [lia|].
    rewrite IH, Hset. rewrite (sum_fold_from items (0 + tx_amount item)). lia. }
  rewrite Hgen. cbn. lia.
Qed.

Lemma entriesToRows_names map : nv_name <$> entriesToRows map = map.*1.
Proof. unfold entriesToRows. rewrite <- list_fmap_compose. reflexivity. Qed.

Lemma entriesToRows_values map : nv_value <$> entriesToRows map = map.*2.
Proof. unfold entriesToRows. rewrite <- list_fmap_compose. reflexivity. Qed.

Lemma filter_nonempty_iff {A} (p : A -> bool) (l : list A) :
  List.filter p l <> [] <-> exists x, x ∈ l /\ p x = true.
Proof.
  split.
  - intros Hne. destruct (List.filter p l) as [|x l'] eqn:E; [done|].
    exists x. assert (Hin : In x (List.filter p l)) by (rewrite E; by left).
    apply filter_In in Hin as [Hin Hp]. split; [by apply list_elem_of_In | done].
  - intros (x & Hin & Hp) Hnil.
    assert (Hx : In x (List.filter p l)) by (apply filter_In; split; [by apply list_elem_of_In | done]).
    by rewrite Hnil in Hx.
Qed.

Lemma filter_filter_comm {A} (p q : A -> bool) (l : list A) :
  List.filter p (List.filter q l) = List.filter q (List.filter p l).
Proof.
  induction l as [|x l IH]; [done|]. cbn [List.filter].
  destruct (q x) eqn:Hq, (p x) eqn:Hp; cbn [List.filter]; rewrite ?Hq, ?Hp, IH; reflexivity.
Qed.

(** X1: the expenses chart by category has one row per category that has
    an expense among the filtered items, in no category twice; the value of
    a row is the expense total of the items of its category, and the values
    add up to the expense total. *)
Theorem categoryData_groups_expenses (filteredItems : list Transaction) :
  let rows := categoryData filteredItems in
  NoDup (nv_name <$> rows)
  /\ (forall name, name ∈ (nv_name <$> rows) <->
        exists item, item ∈ filteredItems /\ tx_type item = s_expense
                     /\ tx_category item = name)
  /\ (forall row, row ∈ rows ->
        nv_value row
        = expenseSum (List.filter (fun item => str_eqb (tx_category item) (nv_name row))
                        filteredItems))
  /\ fold_left (fun sum row => sum + nv_value row) rows 0
     = (stats filteredItems).(st_expense).
Proof.
  cbn zeta. unfold categoryData.
  set (expenses := List.filter (fun item => str_eqb (tx_type item) s_expense) filteredItems).
  match goal with |- context [entriesToRows ?m] => set (map := m) end.
  assert (Hnd : NoDup map.*1).
  { apply (grouping_NoDup tx_category (fun o item => default 0 o + tx_amount item)).
    rewrite fmap_nil. apply NoDup_nil_2. }
  assert (Hget : forall name,
    Map_get map name
    = if bool_decide (List.filter (fun item => str_eqb (tx_category item) name) expenses = [])
      then None
      else Some (expenseSum (List.filter (fun item => str_eqb (tx_category item) name)
                               filteredItems))).
  { intros name. unfold map. rewrite (groupSum_get tx_category). cbn zeta.
    destruct (bool_decide _); [reflexivity|]. f_equal.
    unfold expenseSum, expenses. by rewrite filter_filter_comm. }
  split; [by rewrite entriesToRows_names|]. split; [|split].
  - intros name. rewrite entriesToRows_names, <- Map_get_is_Some, Hget.
    destruct (bool_decide _) eqn:Hnil.
    + apply bool_decide_eq_true in Hnil. split; [by intros [? ?]|].
      intros (item & Hin & Hty & Hcat). exfalso.
      apply (proj2 (filter_nonempty_iff (fun item => str_eqb (tx_category item) name)
                      expenses)); [|exact Hnil].
      exists item. split; [|by apply str_eqb_eq].
      unfold expenses. apply list_elem_of_In, filter_In.
      split; [by apply list_elem_of_In | by apply str_eqb_eq].
    + apply bool_decide_eq_false in Hnil. split; [|by eexists].
      intros _. apply filter_nonempty_iff in Hnil as (item & Hin & Hcat).
      unfold expenses in Hin. apply list_elem_of_In, filter_In in Hin as [Hin Hty].
      exists item. split; [by apply list_elem_of_In|].
      split; [by apply str_eqb_eq | by apply str_eqb_eq].
  - intros row Hrow. unfold entriesToRows in Hrow.
    apply list_elem_of_In, in_map_iff in Hrow as ([name value] & <- & Hin).
    cbn [fst snd nv_name nv_value].
    apply list_elem_of_In, (Map_get_elem_of map name value Hnd) in Hin.
    rewrite Hget in Hin. destruct (bool_decide _); [done|]. by injection Hin as <-.
  - rewrite fold_left_add_foldr, entriesToRows_values, Z.add_0_l.
    unfold map. rewrite (groupSum_total tx_category). reflexivity.
Qed.








(** X4: under the income type filter the filtered expense total is 0 and no
    category counts towards the budget, so the budget panel shows 0 spent of
    0 and 0 percent; under the expense type filter the filtered income total
    is 0. *)
Theorem type_filter_zeroes_other_side
    (toLowerCase : jsstring -> jsstring) (monthItems : list Transaction)
    (budgets : Budgets) (filters : Filters) :
  let items := filteredItems toLowerCase monthItems filters in
  (f_type filters = s_income ->
     st_expense (stats items) = 0
     /\ st_balance (stats items) = st_income (stats items)
     /\ budgetStats budgets items filters = mkBudgetStats 0 0 0 (R_int 0))
  /\ (f_type filters = s_expense ->
        st_income (stats items) = 0
        /\ st_balance (stats items) = - st_expense (stats items)).
Proof.
  cbn zeta.
  assert (Hty : forall item, item ∈ filteredItems toLowerCase monthItems filters ->
                f_type filters <> s_all -> tx_type item = f_type filters).
  { intros item Hin Hall. unfold filteredItems in Hin.
    apply list_elem_of_In, filter_In in Hin as [_ Hp]. unfold filterPredicate in Hp.
    apply str_eqb_neq in Hall. rewrite Hall in Hp. cbn [negb andb] in Hp.
    destruct (str_eqb (tx_type item) (f_type filters)) eqn:E; [|done].
    by apply str_eqb_eq in E. }
  assert (Hnone : forall ty, f_type filters <> s_all -> ty <> f_type filters ->
    List.filter (fun item => str_eqb (tx_type item) ty)
      (filteredItems toLowerCase monthItems filters) = []).
  { intros ty Hall Hne.
    destruct (List.filter _ _) as [|item l] eqn:E; [done|]. exfalso.
    assert (Hin : In item (List.filter (fun item => str_eqb (tx_type item) ty)
                             (filteredItems toLowerCase monthItems filters)))
      by (rewrite E; by left).
    apply filter_In in Hin as [Hin Hp]. apply str_eqb_eq in Hp.
    apply list_elem_of_In in Hin. specialize (Hty item Hin Hall). congruence. }
  split.
  - intros Hinc.
    assert (He : expenseSum (filteredItems toLowerCase monthItems filters) = 0).
    { unfold expenseSum. rewrite Hnone; [done| |]; rewrite Hinc; discriminate. }
    unfold stats, budgetStats, budgetTotal, budgetCategories.
    cbn [st_expense st_balance st_income]. rewrite He, Hinc.
    replace (str_eqb s_income s_income) with true by reflexivity.
    cbn [fold_left]. split; [done|]. split; [lia|]. reflexivity.
  - intros Hexp.
    assert (Hi : incomeSum (filteredItems toLowerCase monthItems filters) = 0).
    { unfold incomeSum. rewrite Hnone; [done| |]; rewrite Hexp; discriminate. }
    unfold stats. cbn [st_expense st_balance st_income]. rewrite Hi. split; [done|lia].
Qed.



(** ** Form corrections and category options *)

Lemma Array_includes_elem_of l x : Array_includes l x = true <-> x ∈ l.
Proof.
  unfold Array_includes. rewrite existsb_exists. split.
  - intros (y & Hin & Heq). apply str_eqb_eq in Heq as ->. by apply list_elem_of_In.
  - intros Hin. exists x. split; [by apply list_elem_of_In | apply str_eqb_refl].
Qed.

(** X6: after the effects on the entry form have run, an income entry has
    one of the income categories and an expense entry has a category of the
    category list (when the list starts with a name); the date, the amount,
    the type and the note are never touched, and the purpose only when an
    income entry had its category replaced. *)
Theorem formCorrections_category_fits_type (categories : list jsstring) (form : Form) :
  let form' := formCorrections categories form in
  (fm_date form', fm_amount form', fm_type form', fm_note form')
  = (fm_date form, fm_amount form, fm_type form, fm_note form)
  /\ (fm_type form = s_income -> fm_category form' ∈ incomeCategories)
  /\ (fm_type form = s_expense ->
      (exists first, head categories = Some first /\ first <> []) ->
      fm_category form' ∈ categories)
  /\ (fm_purpose form' <> fm_purpose form ->
      fm_type form = s_income /\ (fm_category form ∉ incomeCategories)
      /\ fm_purpose form' = s_consumption).
Proof.
  destruct form as [date amount ty purpose category note].
  cbn zeta. unfold formCorrections.
  cbn [fm_date fm_amount fm_type fm_purpose fm_category fm_note].
  destruct (str_eqb ty s_expense) eqn:Hexp, (str_eqb ty s_income) eqn:Hinc,
    (Array_includes categories category) eqn:Hc,
    (Array_includes incomeCategories category) eqn:Hi;
    cbn [negb andb id setFormCategory setFormCategoryPurpose
         fm_date fm_amount fm_type fm_purpose fm_category fm_note];
    (split; [reflexivity|]);
    repeat match goal with
           | H : str_eqb _ _ = true |- _ => apply str_eqb_eq in H
           | H : str_eqb _ _ = false |- _ => apply str_eqb_neq in H
           end;
    try (exfalso; subst ty; discriminate).
  all: split; [intros Hty; try contradiction|].
  all: try (by apply Array_includes_elem_of).
  all: try (vm_compute; apply list_elem_of_here).
  all: split; [intros Hty Hfirst; try contradiction|].
  all: try (by apply Array_includes_elem_of).
  all: try (destruct Hfirst as (first & Hhead & Hne);
            destruct categories as [|c categories]; [discriminate Hhead|];
            injection Hhead as ->; unfold orElse; cbn [head];
            destruct first; [done|]; cbn [truthy]; apply list_elem_of_here).
  all: intros Hp; try contradiction.
  all: split; [done|]; split; [|reflexivity].
  all: intros Hin%Array_includes_elem_of; congruence.
Qed.

Lemma Array_from_Set_spec (l : list jsstring) :
  NoDup (Array_from_Set l) /\ forall x, x ∈ Array_from_Set l <-> x ∈ l.
Proof.
  unfold Array_from_Set.
  assert (Hgen : forall acc, NoDup acc ->
    NoDup (fold_left (fun acc x => if Array_includes acc x then acc else acc ++ [x]) l acc)
    /\ forall x, (x ∈ fold_left (fun acc x => if Array_includes acc x then acc
                                             else acc ++ [x]) l acc)
                 <-> x ∈ acc \/ x ∈ l).
  { induction l as [|y l IH]; intros acc Hnd; cbn [fold_left].
    - split; [done|]. intros x. rewrite elem_of_nil. tauto.
    - destruct (Array_includes acc y) eqn:E.
      + apply Array_includes_elem_of in E.
        destruct (IH acc Hnd) as [Hnd' Hin]. split; [done|].
        intros x. rewrite Hin, elem_of_cons. split; [tauto|].
        intros [?|[->|?]]; auto.
      + assert (Hnot : y ∉ acc).
        { intros Hin%Array_includes_elem_of. congruence. }
        destruct (IH (acc ++ [y])) as [Hnd' Hin].
        { apply NoDup_app. split; [done|]. split; [|apply NoDup_singleton].
          intros x Hx ->%list_elem_of_singleton. contradiction. }
        split; [done|]. intros x.
        rewrite Hin, elem_of_app, list_elem_of_singleton, elem_of_cons. tauto. }
  destruct (Hgen [] (NoDup_nil_2)) as [Hnd Hin]. split; [done|].
  intros x. rewrite Hin, elem_of_nil. tauto.
Qed.

(** X7: with no type selected, the category filter offers every name of
    the category list and every income category, each once, although その他
    is in both lists. *)
Theorem filterCategoryOptions_all_types (categories : list jsstring) (filters : Filters) :
  f_type filters <> s_income -> f_type filters <> s_expense ->
  NoDup (filterCategoryOptions categories filters)
  /\ forall name, name ∈ filterCategoryOptions categories filters
                  <-> name ∈ categories \/ name ∈ incomeCategories.
Proof.
  intros Hinc Hexp. unfold filterCategoryOptions.
  apply str_eqb_neq in Hinc, Hexp. rewrite Hinc, Hexp.
  destruct (Array_from_Set_spec (categories ++ incomeCategories)) as [Hnd Hin].
  split; [done|]. intros name. by rewrite Hin, elem_of_app.
Qed.

Lemma filterCategoryOptions_all_types_witness :
  NoDup (filterCategoryOptions defaultCategories staleFilters)
  /\ length (filterCategoryOptions defaultCategories staleFilters) = 12%nat.
Proof.
  split.
  - apply (filterCategoryOptions_all_types defaultCategories staleFilters);
      vm_compute; discriminate.
  - vm_compute. reflexivity.
Defined.

(** ** The other CSV files *)

Lemma fieldSafe_nonempty_truthy s : s <> [] -> truthy s = true.
Proof. by destruct s. Qed.

Lemma importBody_keeps (rows : list (list jsstring)) :
  Forall (fun row => exists cell rest, row = cell :: rest /\ cell <> []) rows ->
  List.filter (fun row => existsb (fun cell => (0 <? length cell)%nat) row) rows = rows.
Proof.
  induction 1 as [|row rows (cell & rest & -> & Hne) _ IH]; [done|].
  destruct cell as [|c cell]; [done|]. simpl. by rewrite IH.
Qed.

Lemma omap_fmap_Some {A B} (f : A -> B) (g : B -> option A) (l : list A) :
  Forall (fun x => g (f x) = Some x) l -> omap g (List.map f l) = l.
Proof.
  induction 1 as [|x l Hx _ IH]; [done|].
  cbn [List.map]. change (omap g (f x :: List.map f l))
    with (match g (f x) with Some y => y :: omap g (List.map f l)
                           | None => omap g (List.map f l) end).
  by rewrite Hx, IH.
Qed.

Lemma importBudgets_encode (data : list BudgetRow) :
  Forall csvSafeBudget data -> data <> [] ->
  importBudgets
    (parseCsv
       (encodeCsv
          (budgetsHeader
             :: List.map
                  (fun item => [b_month item; b_category item; String_of_Z (b_amount item)])
                  data)))
  = inr data.
Proof.
  intros Hsafe Hne.
  rewrite parseCsv_encodeCsv; [|clear Hne|done].
  2:{ constructor.
      - split; [done|]. unfold budgetsHeader.
        repeat apply Forall_cons_2; [safe_constant..|constructor].
      - apply Forall_fmap. eapply Forall_impl; [exact Hsafe|].
        intros item ([Hm _] & [Hc _] & Ha). cbn. split; [done|].
        repeat apply Forall_cons_2; [done|done| |constructor].
        by apply fieldSafe_String_of_Z. }
  unfold importBudgets, importBody.
  destruct data as [|item data]; [done|].
  cbn [length Nat.leb head tail default List.map].
  change ([b_month item; b_category item; String_of_Z (b_amount item)]
          :: List.map _ data)
    with (List.map
            (fun item => [b_month item; b_category item; String_of_Z (b_amount item)])
            (item :: data)).
  rewrite importBody_keeps.
  2:{ apply Forall_fmap. eapply Forall_impl; [exact Hsafe|].
      intros it ([_ Hm] & _). cbn. by eexists _, _. }
  rewrite bool_decide_eq_true_2 by reflexivity. cbn [negb].
  assert (Hmap : omap importBudgetRow
                   (List.map
                      (fun item =>
                         [b_month item; b_category item; String_of_Z (b_amount item)])
                      (item :: data)) = item :: data).
  { apply omap_fmap_Some. eapply Forall_impl; [exact Hsafe|].
    intros it ([_ Hm] & [_ Hc] & Ha). unfold importBudgetRow.
    cbn [lookup list_lookup mbind option_bind].
    rewrite Number_of_String_of_Z by done.
    rewrite (fieldSafe_nonempty_truthy _ Hm), (fieldSafe_nonempty_truthy _ Hc).
    cbn [negb orb]. rewrite Z.abs_eq by done. by destruct it. }
  rewrite Hmap. reflexivity.
Qed.

(** X8: a budgets file written by either export is read back by the import
    as the rows it was written from: the same month, category and amount,
    in the same order, when months and categories are not empty, hold no
    line feed and no outer white space, and amounts are not negative. *)
Theorem budgets_csv_round_trip (data : list BudgetRow) (budgets : Budgets) (month : jsstring) :
  (Forall csvSafeBudget data -> data <> [] ->
     importBudgets (parseCsv (downloadBudgetsCsvAll data)) = inr data)
  /\ (let rows := List.map (fun entry => mkBudgetRow month (fst entry) (snd entry))
                    (Object_entries budgets) in
      Forall csvSafeBudget rows -> budgets <> ∅ ->
      importBudgets (parseCsv (downloadBudgetsCsv budgets month)) = inr rows).
Proof.
  split.
  - apply importBudgets_encode.
  - cbn zeta. intros Hsafe Hne. unfold downloadBudgetsCsv.
    rewrite <- importBudgets_encode; [|exact Hsafe|].
    + do 3 f_equal. change (List.map ?f ?l) with (f <$> l).
      rewrite <- list_fmap_compose. reflexivity.
    + unfold Object_entries. intros Hnil.
      apply Hne. apply map_to_list_empty_iff.
      by destruct (map_to_list budgets).
Qed.

Lemma budgets_csv_round_trip_witness :
  importBudgets
    (parseCsv
       (downloadBudgetsCsvAll
          [mkBudgetRow (js "2024-01") (js "食費") 30000;
           mkBudgetRow (js "2024-01") (js "住居") 80000]))
  = inr [mkBudgetRow (js "2024-01") (js "食費") 30000;
         mkBudgetRow (js "2024-01") (js "住居") 80000]
  /\ (exists rows,
        importBudgets (parseCsv (downloadBudgetsCsv exampleBudgets (js "2024-01")))
        = inr rows /\ length rows = 2%nat).
Proof.
  split.
  - apply (proj1 (budgets_csv_round_trip _ ∅ [])); [|discriminate].
    repeat apply Forall_cons_2; [| |constructor];
      (split; [split; [safe_constant | vm_compute; discriminate]|];
       split; [split; [safe_constant | vm_compute; discriminate]|];
       vm_compute; discriminate).
  - eexists. split.
    + apply (proj2 (budgets_csv_round_trip [] exampleBudgets (js "2024-01"))).
      * apply (proj1 (bool_decide_eq_true _)). vm_compute. reflexivity.
      * apply (proj1 (bool_decide_eq_true _)). vm_compute. reflexivity.
    + vm_compute. reflexivity.
Defined.

(** X9: a categories file written by the export is read back by the import
    as the category list, in order, when the names are not empty and hold
    no line feed and no outer white space. *)
Theorem categories_csv_round_trip (categories : list jsstring) :
  Forall (fun name => fieldSafe name /\ name <> []) categories -> categories <> [] ->
  importCategories (parseCsv (downloadCategoriesCsv categories)) = inr categories.
Proof.
  intros Hsafe Hne.
  assert (Htext : downloadCategoriesCsv categories
                  = encodeCsv ([js "カテゴリ"] :: List.map (fun name => [name]) categories)).
  { unfold downloadCategoriesCsv, encodeCsv. f_equal.
    change (List.map ?f ?l) with (f <$> l).
    apply list_fmap_ext. intros i row Hrow.
    apply list_elem_of_lookup_2 in Hrow. apply elem_of_cons in Hrow as [->|Hrow].
    - reflexivity.
    - apply list_elem_of_fmap in Hrow as (name & -> & _). reflexivity. }
  rewrite Htext. rewrite parseCsv_encodeCsv; [| |done].
  2:{ constructor.
      - split; [done|]. repeat apply Forall_cons_2; [safe_constant|constructor].
      - apply Forall_fmap. eapply Forall_impl; [exact Hsafe|].
        intros name [Hname _]. cbn. split; [done|].
        repeat apply Forall_cons_2; [done|constructor]. }
  unfold importCategories, importBody.
  destruct categories as [|name categories]; [done|].
  cbn [length Nat.leb head tail default List.map].
  change ([name] :: List.map _ categories)
    with (List.map (fun name : jsstring => [name]) (name :: categories)).
  rewrite importBody_keeps.
  2:{ apply Forall_fmap. eapply Forall_impl; [exact Hsafe|].
      intros n [_ Hn]. cbn. by eexists _, _. }
  rewrite bool_decide_eq_true_2 by reflexivity. cbn [negb].
  assert (Hmap : List.filter truthy
                   (omap (fun row : list jsstring => row !! 0%nat)
                      (List.map (fun name : jsstring => [name]) (name :: categories)))
                 = name :: categories).
  { rewrite omap_fmap_Some by (by apply Forall_true).
    clear Hne Htext. induction Hsafe as [|n ns [_ Hn] _ IH]; [done|].
    cbn [List.filter]. by rewrite (fieldSafe_nonempty_truthy _ Hn), IH. }
  rewrite Hmap. reflexivity.
Qed.

Lemma categories_csv_round_trip_witness :
  importCategories (parseCsv (downloadCategoriesCsv defaultCategories))
  = inr defaultCategories.
Proof.
  apply categories_csv_round_trip; [|discriminate].
  unfold defaultCategories.
  repeat apply Forall_cons_2; [..|constructor];
    (split; [safe_constant | vm_compute; discriminate]).
Defined.





(** ** The reader on any text *)

Lemma trimStart_headNotWhite s : headNotWhite (trimStart s).
Proof.
  induction s as [|c s IH]; [done|]. cbn [trimStart].
  destruct (isWhiteSpace c) eqn:E; [exact IH | exact E].
Qed.


Lemma trimStart_app_last s c :
  isWhiteSpace c = false -> trimStart (s ++ [c]) = trimStart s ++ [c].
Proof.
  intros Hc. induction s as [|x s IH]; cbn [app trimStart].
  - by rewrite Hc.
  - destruct (isWhiteSpace x); [exact IH | reflexivity].
Qed.

Lemma trim_headNotWhite s : headNotWhite (trim s).
Proof.
  unfold trim. pose proof (trimStart_headNotWhite s) as Hhead.
  destruct (trimStart s) as [|c t]; [done|]. cbn in Hhead.
  cbn [rev]. rewrite trimStart_app_last by done.
  rewrite rev_app_distr. exact Hhead.
Qed.




Lemma splitLines_line_crlf line rest current :
  LF ∉ line ->
  splitLines (line ++ CR :: LF :: rest) current = (current ++ line) :: splitLines rest [].
Proof.
  revert current. induction line as [|c line IH]; intros current Hlf.
  - cbn [app]. rewrite splitLines_cons. cbn [head tail].
    rewrite bool_decide_eq_true_2 by done. cbn. by rewrite app_nil_r.
  - apply not_elem_of_cons in Hlf as [Hc Hlf].
    cbn [app]. rewrite splitLines_cons.
    assert ((c =? LF)%N = false) as -> by (apply N.eqb_neq; congruence).
    assert (bool_decide (head (line ++ CR :: LF :: rest) = Some LF) = false) as ->.
    { apply bool_decide_eq_false_2. destruct line as [|c' line']; [done|].
      apply not_elem_of_cons in Hlf as [Hc' _]. simpl. congruence. }
    rewrite andb_false_r. rewrite IH by done. by rewrite <- app_assoc.
Qed.

Lemma splitLines_join_crlf lines :
  lines <> [] -> Forall (fun line => LF ∉ line) lines ->
  splitLines (join [CR; LF] lines) [] = lines.
Proof.
  induction lines as [|line lines IH]; intros Hne Hall; [done|].
  apply Forall_cons in Hall as [Hlf Hall].
  destruct lines as [|line' lines].
  - cbn [join]. by rewrite splitLines_last.
  - cbn [join]. cbn [app]. rewrite splitLines_line_crlf by done.
    cbn [app]. f_equal. by apply IH.
Qed.

(** X12: a file whose lines end in carriage return and line feed is read
    as the same table as the file with the same lines ending in line feed. *)
Theorem parseCsv_line_endings (lines : list jsstring) :
  lines <> [] ->
  Forall (fun line => (LF ∉ line) /\ last line <> Some CR) lines ->
  parseCsv (join [CR; LF] lines) = parseCsv (join [LF] lines).
Proof.
  intros Hne Hall. unfold parseCsv.
  rewrite splitLines_join by done.
  rewrite splitLines_join_crlf; [reflexivity | done |].
  eapply Forall_impl; [exact Hall|]. by intros line [? _].
Qed.

Lemma parseCsv_line_endings_witness :
  parseCsv (join [CR; LF] [js "日付,金額"; js "2024-01-05,1200"; js ""])
  = parseCsv (join [LF] [js "日付,金額"; js "2024-01-05,1200"; js ""])
  /\ parseCsv (join [CR; LF] [js "日付,金額"; js "2024-01-05,1200"; js ""])
     = [[js "日付"; js "金額"]; [js "2024-01-05"; js "1200"]].
Proof.
  split.
  - apply parseCsv_line_endings; [discriminate|].
    repeat apply Forall_cons_2; [..|constructor];
      (split; [apply (proj1 (bool_decide_eq_true _)); vm_compute; reflexivity
              | vm_compute; discriminate]).
  - vm_compute. reflexivity.
Defined.

Lemma parseLine_plain cell rest result current :
  QUOTE ∉ cell -> COMMA ∉ cell ->
  parseLine (cell ++ rest) result current false
  = parseLine rest result (current ++ cell) false.
Proof.
  revert current. induction cell as [|c cell IH]; intros current Hq Hc.
  - by rewrite app_nil_r.
  - apply not_elem_of_cons in Hq as [Hq1 Hq]. apply not_elem_of_cons in Hc as [Hc1 Hc].
    cbn [app]. rewrite parseLine_cons.
    assert ((c =? QUOTE)%N = false) as -> by (apply N.eqb_neq; congruence).
    assert ((c =? COMMA)%N = false) as -> by (apply N.eqb_neq; congruence).
    cbn [andb]. rewrite IH by done. by rewrite <- app_assoc.
Qed.

Lemma parseLine_plain_row row result :
  row <> [] -> Forall plainCell row ->
  parseLine (join [COMMA] row) result [] false = result ++ row.
Proof.
  revert result. induction row as [|cell row IH]; intros result Hne Hall; [done|].
  apply Forall_cons in Hall as [(_ & Hq & Hc) Hall].
  destruct row as [|cell' row].
  - cbn [join]. rewrite <- (app_nil_r cell) at 1.
    rewrite parseLine_plain by done. reflexivity.
  - cbn [join]. rewrite parseLine_plain by done. cbn [app].
    rewrite parseLine_cons. cbn [andb negb N.eqb Pos.eqb QUOTE COMMA].
    rewrite IH by done. by rewrite <- app_assoc.
Qed.

Lemma trim_fixed_last s c : trim s = s -> last s = Some c -> isWhiteSpace c = false.
Proof.
  intros Htrim Hlast.
  assert (Hrev : headNotWhite (rev s)).
  { rewrite <- Htrim at 1. unfold trim. rewrite rev_involutive.
    apply trimStart_headNotWhite. }
  destruct s as [|x s _] using rev_ind; [done|].
  rewrite last_snoc in Hlast. injection Hlast as ->.
  by rewrite rev_app_distr in Hrev.
Qed.

Lemma trim_fixed_head s : trim s = s -> headNotWhite s.
Proof. intros <-. apply trim_headNotWhite. Qed.

Lemma join_plain_line row :
  row <> [] -> row <> [[]] -> Forall plainCell row ->
  (LF ∉ join [COMMA] row) /\ last (join [COMMA] row) <> Some CR
  /\ trim (join [COMMA] row) <> [].
Proof.
  intros Hne Hne' Hall. split; [|split].
  - clear Hne Hne'. induction Hall as [|cell row ([Hlf _] & _) _ IH]; [apply not_elem_of_nil|].
    destruct row as [|cell' row]; [done|]. cbn [join].
    rewrite !not_elem_of_app. split; [done|]. split; [|exact IH].
    apply not_elem_of_cons. split; [done | apply not_elem_of_nil].
  - clear Hne. revert Hne'.
    induction Hall as [|cell row ([_ Htrim] & _) _ IH]; intros Hne'; [done|].
    destruct row as [|cell' row].
    + cbn [join]. intros Hlast. by pose proof (trim_fixed_last cell CR Htrim Hlast).
    + cbn [join]. destruct (decide (cell' :: row = [[]])) as [Heq|Hother].
      * injection Heq as -> ->. cbn [join]. rewrite app_nil_r, last_snoc. done.
      * rewrite app_assoc. intros Hlast.
        apply last_app_Some in Hlast as [Hlast|[Hnone Hlast]].
        -- by apply IH.
        -- by rewrite last_snoc in Hlast.
  - destruct Hall as [|cell row ([_ Htrim] & _) _]; [done|].
    destruct cell as [|c cell].
    + destruct row as [|cell' row]; [done|]. cbn [join app].
      by apply trim_nonempty.
    + pose proof (trim_fixed_head _ Htrim) as Hhead. cbn in Hhead.
      destruct row as [|cell' row]; cbn [join app]; by apply trim_nonempty.
Qed.

(** X13: a file written without quotes is read as its cells: for rows of
    cells that hold no quote, comma or line feed and no outer white space
    (a row being neither empty nor a single empty cell), the lines of cells
    joined by commas are read back as the rows. *)
Theorem parseCsv_plain_rows (rows : list (list jsstring)) :
  rows <> [] ->
  Forall (fun row => row <> [] /\ row <> [[]] /\ Forall plainCell row) rows ->
  parseCsv (join [LF] (List.map (join [COMMA]) rows)) = rows.
Proof.
  intros Hne Hall. unfold parseCsv. rewrite splitLines_join.
  - clear Hne. induction Hall as [|row rows (Hrow & Hrow' & Hcells) _ IH]; [done|].
    cbn [List.map List.filter].
    destruct (join_plain_line row Hrow Hrow' Hcells) as (_ & _ & Htrim).
    destruct (trim (join [COMMA] row)) eqn:E; [done|].
    cbn [length Nat.ltb Nat.leb List.map]. simpl. f_equal; [|exact IH].
    rewrite parseLine_plain_row by done. cbn [app].
    clear -Hcells. induction Hcells as [|cell row ([_ Htrim] & _) _ IH]; [done|].
    cbn [List.map]. by rewrite Htrim, IH.
  - by destruct rows.
  - apply Forall_fmap. eapply Forall_impl; [exact Hall|].
    intros row (Hrow & Hrow' & Hcells). cbn.
    destruct (join_plain_line row Hrow Hrow' Hcells) as (Hlf & Hcr & _). done.
Qed.

Lemma parseCsv_plain_rows_witness :
  parseCsv (js "月,カテゴリ,予算
2024-01,食費,30000")
  = [[js "月"; js "カテゴリ"; js "予算"]; [js "2024-01"; js "食費"; js "30000"]].
Proof.
  apply (parseCsv_plain_rows
           [[js "月"; js "カテゴリ"; js "予算"]; [js "2024-01"; js "食費"; js "30000"]]);
    [discriminate|].
  repeat apply Forall_cons_2; [..|constructor];
    (split; [discriminate|]; split; [discriminate|];
     repeat apply Forall_cons_2; [..|constructor];
     (split; [safe_constant|];
      split; apply (proj1 (bool_decide_eq_true _)); vm_compute; reflexivity)).
Defined.

(** ** Budgets on screen and in the store *)







(** X15: when the fetch of a load fails, the budgets and drafts on screen,
    the store and the rollover flags stay as they were, no rollover prompt
    is shown, and the status reports the error: the budgets of the month
    selected before remain on screen. *)
Theorem loadBudgets_fetch_error_keeps_screen
    (fuel : nat) (t : jsstring) (w : World) (message : jsstring) :
  truthy t = true ->
  faultAt 0 w = Some message ->
  exists w',
    loadBudgets (S fuel) t w = Some (tt, w')
    /\ w_budgets w' = w_budgets w
    /\ w_budgetDrafts w' = w_budgetDrafts w
    /\ w_store w' = w_store w
    /\ w_localStorage w' = w_localStorage w
    /\ w_trace w' = w_trace w ++ [EvSelect t false]
    /\ w_status w' = js "予算読み込みエラー: " ++ message.
Proof.
  intros Ht Hf0.
  destruct w as [clock store ls month cfm budgets drafts status loading faults answers trace].
  unfold faultAt in Hf0. fields.
  destruct faults as [|[msg|] faults]; try done. cbn in Hf0. injection Hf0 as ->.
  run. rewrite Ht. run. eexists. split; [reflexivity|]. fields. done.
Qed.

Lemma loadBudgets_fetch_error_keeps_screen_witness :
  exists w',
    loadBudgets 1 (js "2024-02")
      (mkWorld exampleClock (w_store exampleWorld) ∅ (js "2024-02") (js "2023-12")
         (w_budgets exampleWorld) (w_budgetDrafts exampleWorld) [] false
         [Some (js "Failed to fetch")] [] [])
    = Some (tt, w')
    /\ w_budgets w' = {[ js "住居" := 50000 ]}.
Proof.
  destruct (loadBudgets_fetch_error_keeps_screen 0 (js "2024-02")
              (mkWorld exampleClock (w_store exampleWorld) ∅ (js "2024-02") (js "2023-12")
                 (w_budgets exampleWorld) (w_budgetDrafts exampleWorld) [] false
                 [Some (js "Failed to fetch")] [] [])
              (js "Failed to fetch"))
    as (w' & Hrun & Hbudgets & _).
  - reflexivity.
  - reflexivity.
  - exists w'. split; [exact Hrun | exact Hbudgets].
Defined.






Lemma budgetsOfMonth_length_nonempty store t :
  budgetsOfMonth store t <> [] -> (length (budgetsOfMonth store t) =? 0)%nat = false.
Proof. by destruct (budgetsOfMonth store t). Qed.




Lemma budgetsOfMonth_other_deleted store month m :
  m <> month ->
  budgetsOfMonth (List.filter (fun row => negb (str_eqb (b_month row) month)) store) m
  = budgetsOfMonth store m.
Proof.
  intros Hne. unfold budgetsOfMonth. induction store as [|row store IH]; [done|].
  cbn [List.filter]. destruct (str_eqb (b_month row) month) eqn:E; cbn [negb List.filter].
  - apply str_eqb_eq in E. rewrite E.
    by rewrite (proj2 (str_eqb_neq month m) (not_eq_sym Hne)).
  - by rewrite IH.
Qed.

Lemma budgetsOfMonth_other_added month m rows :
  m <> month -> Forall (fun row => b_month row = month) rows ->
  budgetsOfMonth rows m = [].
Proof.
  intros Hne Hall. unfold budgetsOfMonth.
  induction Hall as [|row rows Hrow _ IH]; [done|].
  cbn [List.filter]. rewrite Hrow.
  by rewrite (proj2 (str_eqb_neq month m) (not_eq_sym Hne)).
Qed.

Lemma copyPayload_month month data :
  Forall (fun row => b_month row = month) (copyPayload month data).
Proof. unfold copyPayload. apply Forall_forall. by intros row (r & <- & _)%list_elem_of_In%in_map_iff. Qed.



(** What a load leaves alone: it only adds rows of its month to the store,
    and it does not touch the loading flag. *)
Lemma loadBudgets_frame (fuel : nat) :
  forall t w,
    match loadBudgets fuel t w with
    | Some (_, w') =>
      (exists added, w_store w' = w_store w ++ added
                     /\ Forall (fun row => b_month row = t) added)
      /\ w_loading w' = w_loading w
      /\ w_month w' = w_month w
    | None => True
    end.
Proof.
  induction fuel as [|fuel IH]; intros t w; [done|].
  destruct w as [clock store ls month cfm budgets drafts status loading faults answers trace].
  assert (Hsame : forall (store' : list BudgetRow),
            exists added, store' = store' ++ added
                          /\ Forall (fun row => b_month row = t) added).
  { intros store'. exists []. by rewrite app_nil_r. }
  destruct (truthy t) eqn:Ht; [|run; rewrite Ht; run; fields; done].
  destruct (ls !! storageKey t) as [flag|] eqn:Hflag;
    [destruct (truthy flag) eqn:Hfl|].
  all: destruct (budgetsOfMonth store t) eqn:Hd0;
    destruct (budgetsOfMonth store (getPreviousMonthFrom clock t)) eqn:Hd1.
  all: repeat (first [ progress run
                     | progress (rewrite ?Ht, ?Hflag, ?Hfl, ?Hd0, ?Hd1)
                     | case_goal ]).
  all: try (fields; done).
  all: match goal with
       | |- context [loadBudgets ?f ?t' ?W] =>
         specialize (IH t' W); destruct (loadBudgets f t' W) as [[[] W']|]; [|done];
         fields; destruct IH as ((added & -> & Hadded) & -> & ->)
       end.
  all: split; [|done].
  all: eexists; split; [symmetry; apply app_assoc|].
  all: apply Forall_app; split; [apply copyPayload_month | exact Hadded].
Qed.

(** A load of a month that has stored budgets returns with one unit of
    fuel, any load with two, and a manual copy with one. *)
Lemma loadBudgets_returns_stored (fuel : nat) (t : jsstring) (w : World) :
  budgetsOfMonth (w_store w) t <> [] -> exists w', loadBudgets (S fuel) t w = Some (tt, w').
Proof.
  intros Hstored.
  destruct w as [clock store ls month cfm budgets drafts status loading faults answers trace].
  fields. pose proof (budgetsOfMonth_length_nonempty store t Hstored) as Hlen.
  destruct (truthy t) eqn:Ht; run; rewrite Ht; run; [|by eexists].
  destruct faults as [|[message|] faults]; run; rewrite ?Hlen; run; by eexists.
Qed.

Lemma copied_month_stored (store : list BudgetRow) (t : jsstring) (row : BudgetRow)
    (data : list BudgetRow) :
  budgetsOfMonth (store ++ copyPayload t (row :: data)) t <> [].
Proof.
  rewrite budgetsOfMonth_app. intros Hnil. apply app_eq_nil in Hnil as [_ Hnil].
  cbn in Hnil. by rewrite str_eqb_refl in Hnil.
Qed.

Lemma loadBudgets_returns_step (fuel : nat) :
  (forall t w, budgetsOfMonth (w_store w) t <> [] ->
               exists w', loadBudgets fuel t w = Some (tt, w')) ->
  forall t w, exists w', loadBudgets (S fuel) t w = Some (tt, w').
Proof.
  intros Hinner t w.
  destruct w as [clock store ls month cfm budgets drafts status loading faults answers trace].
  destruct (truthy t) eqn:Ht; [|run; rewrite Ht; run; by eexists].
  destruct (ls !! storageKey t) as [flag|] eqn:Hflag;
    [destruct (truthy flag) eqn:Hfl|].
  all: destruct (budgetsOfMonth store t) eqn:Hd0;
    destruct (budgetsOfMonth store (getPreviousMonthFrom clock t)) eqn:Hd1.
  all: repeat (first [ progress run
                     | progress (rewrite ?Ht, ?Hflag, ?Hfl, ?Hd0, ?Hd1)
                     | case_goal ]).
  all: try (by eexists).
  all: match goal with
       | |- context [loadBudgets ?f ?t' ?W] => apply (Hinner t' W)
       end.
  all: fields; apply copied_month_stored.
Qed.

Lemma loadBudgets_returns (fuel : nat) (t : jsstring) (w : World) :
  exists w', loadBudgets (S (S fuel)) t w = Some (tt, w').
Proof.
  apply loadBudgets_returns_step. intros t' w'. apply loadBudgets_returns_stored.
Qed.

Lemma copyBudgetsFromMonth_returns_step (fuel : nat) :
  (forall t w, budgetsOfMonth (w_store w) t <> [] ->
               exists w', loadBudgets fuel t w = Some (tt, w')) ->
  forall w, exists w', copyBudgetsFromMonth fuel w = Some (tt, w').
Proof.
  intros Hinner w.
  destruct w as [clock store ls month cfm budgets drafts status loading faults answers trace].
  unfold copyBudgetsFromMonth. fields.
  destruct (negb (truthy cfm) || str_eqb cfm month) eqn:Hguard;
    destruct (budgetsOfMonth store cfm) eqn:Hd0;
    repeat (first [ progress run
                  | progress (rewrite ?Hguard, ?Hd0)
                  | case_goal ]);
    try (by eexists).
  all: match goal with
       | |- context [loadBudgets ?f ?t' ?W] =>
         destruct (Hinner t' W) as [W' ->]; [|run; by eexists]
       end.
  all: fields; apply copied_month_stored.
Qed.

Lemma copyBudgetsFromMonth_returns (fuel : nat) (w : World) :
  exists w', copyBudgetsFromMonth (S fuel) w = Some (tt, w').
Proof.
  apply copyBudgetsFromMonth_returns_step. intros t' w'. apply loadBudgets_returns_stored.
Qed.

(** A manual copy changes rows of the selected month only. *)
Lemma copyBudgetsFromMonth_frame (fuel : nat) (w : World) (m : jsstring) :
  m <> w_month w ->
  match copyBudgetsFromMonth fuel w with
  | Some (_, w') => budgetsOfMonth (w_store w') m = budgetsOfMonth (w_store w) m
  | None => True
  end.
Proof.
  intros Hm.
  destruct w as [clock store ls month cfm budgets drafts status loading faults answers trace].
  fields. unfold copyBudgetsFromMonth.
  destruct (negb (truthy cfm) || str_eqb cfm month) eqn:Hguard;
    destruct (budgetsOfMonth store cfm) eqn:Hd0;
    repeat (first [ progress run
                  | progress (rewrite ?Hguard, ?Hd0)
                  | case_goal ]);
    try done.
  all: try (fields; by apply budgetsOfMonth_other_deleted).
  all: match goal with
       | |- context [loadBudgets ?f ?t ?W] =>
         pose proof (loadBudgets_frame f t W) as Hload;
         destruct (loadBudgets f t W) as [[[] W']|]; [|done];
         run; fields; destruct Hload as ((added & -> & Hadded) & _)
       end.
  all: rewrite !budgetsOfMonth_app.
  all: rewrite (budgetsOfMonth_other_added month m added) by done.
  all: rewrite (budgetsOfMonth_other_added month m (copyPayload month _))
         by (done || apply copyPayload_month).
  all: rewrite budgetsOfMonth_other_deleted by done.
  all: by rewrite !app_nil_r.
Qed.

(** X18: no budget action touches the stored budgets of another month,
    whatever fails and whatever the user answers: a load, with the rollover
    it may start, returns having only added rows of the loaded month and
    removed none; a manual copy returns having changed rows of the selected
    month only. *)
Theorem budget_actions_leave_other_months (fuel : nat) (w : World) :
  (forall t, exists w' added,
     loadBudgets (S (S fuel)) t w = Some (tt, w')
     /\ w_store w' = w_store w ++ added
     /\ Forall (fun row => b_month row = t) added)
  /\ (exists w',
        copyBudgetsFromMonth (S fuel) w = Some (tt, w')
        /\ forall m, m <> w_month w ->
             budgetsOfMonth (w_store w') m = budgetsOfMonth (w_store w) m).
Proof.
  split.
  - intros t. destruct (loadBudgets_returns fuel t w) as [w' Hrun].
    pose proof (loadBudgets_frame (S (S fuel)) t w) as H. rewrite Hrun in H.
    destruct H as ((added & Hstore & Hadded) & _). by exists w', added.
  - destruct (copyBudgetsFromMonth_returns fuel w) as [w' Hrun].
    exists w'. split; [done|]. intros m Hm.
    pose proof (copyBudgetsFromMonth_frame (S fuel) w m Hm) as H.
    by rewrite Hrun in H.
Qed.

Lemma violatesUnique_stored store payload row r :
  row ∈ payload -> r ∈ store -> sameKey row r = true ->
  violatesUnique store payload = true.
Proof.
  intros Hrow Hr Hkey. induction payload as [|p payload IH]; [by apply elem_of_nil in Hrow|].
  cbn [violatesUnique]. apply elem_of_cons in Hrow as [<-|Hrow].
  - assert (existsb (sameKey row) store = true) as ->; [|reflexivity].
    apply existsb_exists. exists r. split; [by apply list_elem_of_In | done].
  - rewrite IH by done. by rewrite orb_true_r.
Qed.

(** X19: a budgets import whose file holds a month and category that is
    already stored writes nothing, not even the rows that are new: the
    store, the budgets on screen and the rollover flags stay as they were,
    and the status reports the error. *)
Theorem handleImportBudgets_rejects_stored_budget
    (fuel : nat) (text : jsstring) (w : World) (payload : list BudgetRow)
    (row stored : BudgetRow) :
  importBudgets (parseCsv text) = inr payload ->
  row ∈ payload -> stored ∈ w_store w ->
  b_month row = b_month stored -> b_category row = b_category stored ->
  exists w' message,
    handleImportBudgets fuel text w = Some (tt, w')
    /\ w_store w' = w_store w
    /\ w_budgets w' = w_budgets w
    /\ w_localStorage w' = w_localStorage w
    /\ w_trace w' = w_trace w ++ [EvInsert payload false]
    /\ w_status w' = js "予算インポートエラー: " ++ message
    /\ w_loading w' = false.
Proof.
  intros Himport Hrow Hstored Hm Hc.
  destruct w as [clock store ls month cfm budgets drafts status loading faults answers trace].
  fields.
  assert (Hunique : violatesUnique store payload = true).
  { apply (violatesUnique_stored store payload row stored); [done|done|].
    unfold sameKey. rewrite Hm, Hc. by rewrite !str_eqb_refl. }
  unfold handleImportBudgets. rewrite Himport.
  destruct faults as [|[msg|] faults]; run; rewrite ?Hunique; run;
    (eexists _, _; split; [reflexivity|]; fields; done).
Qed.

Lemma handleImportBudgets_rejects_stored_budget_witness :
  exists w' message,
    handleImportBudgets 1
      (downloadBudgetsCsvAll
         [mkBudgetRow (js "2024-01") (js "住居") 60000;
          mkBudgetRow (js "2024-01") (js "食費") 30000])
      exampleWorld
    = Some (tt, w')
    /\ w_store w' = w_store exampleWorld
    /\ w_status w' = js "予算インポートエラー: " ++ message.
Proof.
  destruct (handleImportBudgets_rejects_stored_budget 1
              (downloadBudgetsCsvAll
                 [mkBudgetRow (js "2024-01") (js "住居") 60000;
                  mkBudgetRow (js "2024-01") (js "食費") 30000])
              exampleWorld
              [mkBudgetRow (js "2024-01") (js "住居") 60000;
               mkBudgetRow (js "2024-01") (js "食費") 30000]
              (mkBudgetRow (js "2024-01") (js "住居") 60000)
              (mkBudgetRow (js "2024-01") (js "住居") 50000))
    as (w' & message & Hrun & Hstore & _ & _ & _ & Hstatus & _).
  - vm_compute. reflexivity.
  - apply list_elem_of_here.
  - apply list_elem_of_further, list_elem_of_here.
  - reflexivity.
  - reflexivity.
  - exists w', message. split; [exact Hrun|]. split; [exact Hstore | exact Hstatus].
Defined.

Lemma copyBudgetsFromMonth_loading (fuel : nat) (w : World) :
  w_loading w = false ->
  match copyBudgetsFromMonth fuel w with
  | Some (_, w') => w_loading w' = false
  | None => True
  end.
Proof.
  intros Hloading.
  destruct w as [clock store ls month cfm budgets drafts status loading faults answers trace].
  fields. subst loading. unfold copyBudgetsFromMonth.
  destruct (negb (truthy cfm) || str_eqb cfm month) eqn:Hguard;
    destruct (budgetsOfMonth store cfm) eqn:Hd0;
    repeat (first [ progress run
                  | progress (rewrite ?Hguard, ?Hd0)
                  | case_goal ]);
    try done.
  all: match goal with
       | |- context [loadBudgets ?f ?t ?W] =>
         destruct (loadBudgets f t W) as [[[] W']|]; [|done]; run; done
       end.
Qed.

Lemma handleImportBudgets_loading (fuel : nat) (text : jsstring) (w : World) :
  match handleImportBudgets fuel text w with
  | Some (_, w') => w_loading w' = false
  | None => True
  end.
Proof.
  destruct w as [clock store ls month cfm budgets drafts status loading faults answers trace].
  unfold handleImportBudgets.
  destruct (importBudgets (parseCsv text)) as [status'|payload];
    repeat (first [ progress run | case_goal ]); try done.
  all: match goal with
       | |- context [loadBudgets ?f ?t ?W] =>
         destruct (loadBudgets f t W) as [[[] W']|]; [|done]; run; done
       end.
Qed.

Lemma handleImportBudgets_returns_step (fuel : nat) (text : jsstring) (w : World) :
  (forall t w, exists w', loadBudgets fuel t w = Some (tt, w')) ->
  exists w', handleImportBudgets fuel text w = Some (tt, w').
Proof.
  intros Hinner.
  destruct w as [clock store ls month cfm budgets drafts status loading faults answers trace].
  unfold handleImportBudgets.
  destruct (importBudgets (parseCsv text)) as [status'|payload];
    repeat (first [ progress run | case_goal ]); try (by eexists).
  all: match goal with
       | |- context [loadBudgets ?f ?t ?W] =>
         destruct (Hinner t W) as [W' ->]; run; by eexists
       end.
Qed.

(** X20: a manual copy that starts with the loading flag down returns with
    it down, and a budgets import always returns with it down, whatever
    fails and whatever the user answers. *)
Theorem budget_actions_end_not_loading (fuel : nat) (w : World) :
  (w_loading w = false ->
   exists w', copyBudgetsFromMonth (S fuel) w = Some (tt, w') /\ w_loading w' = false)
  /\ (forall text, exists w',
        handleImportBudgets (S (S fuel)) text w = Some (tt, w') /\ w_loading w' = false).
Proof.
  split.
  - intros Hloading. destruct (copyBudgetsFromMonth_returns fuel w) as [w' Hrun].
    exists w'. split; [done|].
    pose proof (copyBudgetsFromMonth_loading (S fuel) w Hloading) as H.
    by rewrite Hrun in H.
  - intros text.
    destruct (handleImportBudgets_returns_step (S (S fuel)) text w) as [w' Hrun];
      [intros t' w0; apply loadBudgets_returns|].
    exists w'. split; [done|].
    pose proof (handleImportBudgets_loading (S (S fuel)) text w) as H.
    by rewrite Hrun in H.
Qed.

(** ** Previous month, in general *)

(** X21: for a month value that reads as a year from 100 on and a month from
    1 to 12, [getPreviousMonthFrom] returns the month before it where local
    time is UTC or behind it, and the month before that where local time is
    ahead of UTC. *)
Theorem getPreviousMonthFrom_by_offset
    (clock : Clock) (monthValue : jsstring) (year month : Z) :
  readsAs monthValue year month ->
  100 <= year -> 1 <= month <= 12 ->
  (-1440 < tzOffsetMinutes clock <= 0 ->
     getPreviousMonthFrom clock monthValue = precedingMonth year month)
  /\ (0 < tzOffsetMinutes clock <= 1440 ->
        getPreviousMonthFrom clock monthValue
        = isoMonth (monthBefore (monthBefore (year, month)))).
Proof.
  intros Hreads Hyear Hmonth. split; intros Htz.
  - by apply getPreviousMonthFrom_not_ahead.
  - by apply getPreviousMonthFrom_ahead.
Qed.

Lemma getPreviousMonthFrom_by_offset_witness :
  getPreviousMonthFrom (mkClock (-300) (js "2024-02")) (js "2024-03") = js "2024-02"
  /\ getPreviousMonthFrom tokyoClock (js "2024-03") = js "2024-01".
Proof.
  split.
  - apply (proj1 (getPreviousMonthFrom_by_offset (mkClock (-300) (js "2024-02"))
                    (js "2024-03") 2024 3
                    ltac:(vm_compute; repeat split; reflexivity)
                    ltac:(lia) ltac:(lia))).
    cbn [tzOffsetMinutes]. lia.
  - apply (proj2 (getPreviousMonthFrom_by_offset tokyoClock (js "2024-03") 2024 3
                    ltac:(vm_compute; repeat split; reflexivity)
                    ltac:(lia) ltac:(lia))).
    cbn [tzOffsetMinutes tokyoClock]. lia.
Defined.

(** ** Days of the month *)

Lemma monthCheck_all yoe mp :
  0 <= yoe < 400 -> 0 <= mp < 12 -> monthCheck yoe mp = true.
Proof.
  intros Hy Hm.
  assert (Hall : forallb (fun y => forallb (monthCheck y) (seqZ 0 12)) (seqZ 0 400) = true)
    by (vm_cast_no_check (eq_refl true)).
  rewrite forallb_forall in Hall.
  specialize (Hall yoe). rewrite forallb_forall in Hall.
  apply Hall; apply list_elem_of_In, elem_of_seqZ; lia.
Qed.

Lemma days_from_civil_march y m d :
  days_from_civil y m d
  = let '(era, yoe, mp) := marchOf (y, m) in
    era * 146097 + (doe_of yoe mp + (d - 1)) - 719468.
Proof.
  unfold days_from_civil, marchOf, doe_of. cbn zeta.
  set (y' := if m <=? 2 then y - 1 else y).
  rewrite (Z.mod_eq y' 400) by lia.
  replace (y' - y' / 400 * 400) with (y' - 400 * (y' / 400)) by lia. lia.
Qed.

Lemma marchOf_spec y m :
  1 <= m <= 12 ->
  exists era yoe mp,
    marchOf (y, m) = (era, yoe, mp)
    /\ 0 <= yoe < 400 /\ 0 <= mp < 12
    /\ y = era * 400 + fst (civilOfMarchMonth yoe mp)
    /\ m = snd (civilOfMarchMonth yoe mp).
Proof.
  intros Hm. unfold marchOf, civilOfMarchMonth. cbn [fst snd].
  set (y' := if m <=? 2 then y - 1 else y).
  pose proof (Z.div_mod y' 400 ltac:(lia)) as Hdm.
  pose proof (Z.mod_pos_bound y' 400 ltac:(lia)) as Hmod.
  eexists _, _, _. split; [reflexivity|]. split; [exact Hmod|].
  unfold y' in *. destruct (Z.leb_spec m 2) as [Hle|Hgt].
  - rewrite (Z.mod_small (m + 9) 12) by lia.
    replace (m + 9 <? 10) with false by (symmetry; apply Z.ltb_ge; lia). lia.
  - replace (m + 9) with (m - 3 + 1 * 12) by lia.
    rewrite Z.mod_add by lia. rewrite (Z.mod_small (m - 3) 12) by lia.
    replace (m - 3 <? 10) with true by (symmetry; apply Z.ltb_lt; lia). lia.
Qed.

Lemma isLeapYear_era era y : isLeapYear (era * 400 + y) = isLeapYear y.
Proof.
  unfold isLeapYear.
  replace (era * 400 + y) with (y + era * 100 * 4) at 1 by lia.
  replace (era * 400 + y) with (y + era * 4 * 100) at 1 by lia.
  replace (era * 400 + y) with (y + era * 400) by lia.
  by rewrite !Z.mod_add by lia.
Qed.

Lemma monthLength_era era y m : monthLength (era * 400 + y, m) = monthLength (y, m).
Proof. unfold monthLength. by rewrite isLeapYear_era. Qed.

Lemma monthLength_march y m era yoe mp :
  y = era * 400 + fst (civilOfMarchMonth yoe mp) ->
  m = snd (civilOfMarchMonth yoe mp) ->
  monthLength (y, m) = lengthInEra yoe mp.
Proof.
  intros -> ->. unfold lengthInEra. rewrite monthLength_era.
  by destruct (civilOfMarchMonth yoe mp).
Qed.

Lemma monthLength_bounds ym : 28 <= monthLength ym <= 31.
Proof.
  destruct ym as [y m]. unfold monthLength.
  repeat match goal with |- context [if ?b then _ else _] => destruct b end; lia.
Qed.

Lemma dayOfMonth_era era doe :
  0 <= doe < 146097 ->
  dayOfMonth (era * 146097 + doe - 719468)
  = doe - doe_of (fst (yoe_mp_of doe)) (snd (yoe_mp_of doe)) + 1.
Proof.
  intros Hdoe. unfold dayOfMonth, yoe_mp_of, doe_of. cbn [fst snd].
  replace (era * 146097 + doe - 719468 + 719468) with (doe + era * 146097) by lia.
  rewrite Z.div_add by lia. rewrite (Z.div_small doe 146097) by lia.
  replace (doe + era * 146097 - (0 + era) * 146097) with doe by lia.
  cbn zeta. lia.
Qed.

(** Every day of a month is mapped back to the month and to its number in
    the month. *)
Lemma civil_of_days_from_civil y m d :
  1 <= m <= 12 -> 1 <= d <= monthLength (y, m) ->
  civil_from_days (days_from_civil y m d) = (y, m)
  /\ dayOfMonth (days_from_civil y m d) = d.
Proof.
  intros Hm Hd.
  destruct (marchOf_spec y m Hm) as (era & yoe & mp & Hmarch & Hyoe & Hmp & Hy & Hm').
  rewrite (monthLength_march y m era yoe mp Hy Hm') in Hd.
  rewrite days_from_civil_march, Hmarch.
  pose proof (monthCheck_all yoe mp Hyoe Hmp) as Hcheck.
  unfold monthCheck in Hcheck. apply andb_true_iff in Hcheck as [Hdays _].
  rewrite forallb_forall in Hdays. specialize (Hdays (d - 1)).
  rewrite !andb_true_iff in Hdays.
  destruct Hdays as [[Hlo Hhi] Hback]; [apply list_elem_of_In, elem_of_seqZ; lia|].
  apply Z.leb_le in Hlo. apply Z.ltb_lt in Hhi. apply bool_decide_eq_true in Hback.
  split.
  - rewrite civil_from_days_era by lia. rewrite Hback. cbn zeta.
    unfold civilOfMarchMonth in Hy, Hm'. cbn [fst snd] in Hy, Hm'.
    destruct (mp <? 10) eqn:E.
    + apply Z.ltb_lt in E.
      replace (mp + 3 <=? 2) with false by (symmetry; apply Z.leb_gt; lia).
      f_equal; lia.
    + apply Z.ltb_ge in E.
      replace (mp - 9 <=? 2) with true by (symmetry; apply Z.leb_le; lia).
      f_equal; lia.
  - rewrite dayOfMonth_era by lia. rewrite Hback. cbn [fst snd]. lia.
Qed.

Lemma marchOf_after y m era yoe mp :
  1 <= m <= 12 -> marchOf (y, m) = (era, yoe, mp) ->
  marchOf (monthAfter (y, m))
  = if mp =? 11 then (if yoe =? 399 then (era + 1, 0, 0) else (era, yoe + 1, 0))
    else (era, yoe, mp + 1).
Proof.
  intros Hm Hmarch. unfold marchOf in Hmarch. injection Hmarch as <- <- <-.
  unfold monthAfter, marchOf. cbn [fst snd].
  destruct (Z.eqb_spec m 12) as [->|Hne12].
  - replace (1 <=? 2) with true by reflexivity.
    replace (12 <=? 2) with false by reflexivity.
    replace (y + 1 - 1) with y by lia. reflexivity.
  - destruct (Z.eqb_spec m 2) as [->|Hne2].
    + replace (2 + 1 <=? 2) with false by reflexivity.
      replace (2 <=? 2) with true by reflexivity.
      replace ((2 + 9) mod 12 =? 11) with true by reflexivity.
      replace ((2 + 1 + 9) mod 12) with 0 by reflexivity.
      pose proof (Z.div_mod (y - 1) 400 ltac:(lia)) as Hdm.
      pose proof (Z.mod_pos_bound (y - 1) 400 ltac:(lia)) as Hmod.
      destruct (Z.eqb_spec ((y - 1) mod 400) 399) as [Heq|Hneq].
      * assert (y / 400 = (y - 1) / 400 + 1) as ->
          by (symmetry; apply (Z.div_unique y 400 _ 0); lia).
        assert (y mod 400 = 0) as ->
          by (symmetry; apply (Z.mod_unique y 400 ((y - 1) / 400 + 1) 0); lia).
        reflexivity.
      * assert (y / 400 = (y - 1) / 400) as ->
          by (symmetry; apply (Z.div_unique y 400 _ ((y - 1) mod 400 + 1)); lia).
        assert (y mod 400 = (y - 1) mod 400 + 1) as ->
          by (symmetry;
              apply (Z.mod_unique y 400 ((y - 1) / 400) ((y - 1) mod 400 + 1)); lia).
        reflexivity.
    + assert (Hy' : (if m + 1 <=? 2 then y - 1 else y) = (if m <=? 2 then y - 1 else y)).
      { destruct (Z.leb_spec m 2), (Z.leb_spec (m + 1) 2); lia. }
      rewrite Hy'.
      assert (Hmp : (m + 1 + 9) mod 12 = (m + 9) mod 12 + 1 /\ (m + 9) mod 12 <> 11).
      { destruct (Z.leb_spec m 2) as [Hle|Hgt].
        - assert (m = 1) as -> by lia. split; [reflexivity | discriminate].
        - replace (m + 1 + 9) with (m - 2 + 1 * 12) by lia.
          replace (m + 9) with (m - 3 + 1 * 12) by lia.
          rewrite !Z.mod_add by lia. rewrite !Z.mod_small by lia. lia. }
      destruct Hmp as [-> Hmp]. apply Z.eqb_neq in Hmp. rewrite Hmp. reflexivity.
Qed.

(** A month ends where the next one starts. *)
Lemma days_from_civil_after y m :
  1 <= m <= 12 ->
  days_from_civil (fst (monthAfter (y, m))) (snd (monthAfter (y, m))) 1
  = days_from_civil y m 1 + monthLength (y, m).
Proof.
  intros Hm.
  destruct (marchOf_spec y m Hm) as (era & yoe & mp & Hmarch & Hyoe & Hmp & Hy & Hm').
  rewrite (monthLength_march y m era yoe mp Hy Hm').
  rewrite !days_from_civil_march.
  rewrite <- surjective_pairing, (marchOf_after y m era yoe mp Hm Hmarch), Hmarch.
  pose proof (monthCheck_all yoe mp Hyoe Hmp) as Hcheck.
  unfold monthCheck in Hcheck. apply andb_true_iff in Hcheck as [_ Hlen].
  apply Z.eqb_eq in Hlen. rewrite <- Hlen.
  destruct (mp =? 11), (yoe =? 399); cbn [andb]; try lia.
  change (doe_of 0 0) with 0. lia.
Qed.

Lemma days_from_civil_day y m d :
  days_from_civil y m d = days_from_civil y m 1 + (d - 1).
Proof. rewrite !days_from_civil_march. destruct (marchOf (y, m)) as [[era yoe] mp]. lia. Qed.



(** X22: for a month value that reads as a year from 100 on and a month
    from 1 to 12, [daysInMonth] is the number of days of that month in the
    Gregorian calendar, 29 for February in a leap year, in every time
    zone. *)
Theorem daysInMonth_is_month_length
    (clock : Clock) (monthValue : jsstring) (year month : Z) :
  readsAs monthValue year month ->
  100 <= year -> 1 <= month <= 12 ->
  daysInMonth clock monthValue = monthLength (year, month).
Proof.
  intros (_ & Hyear & Hmonth) Hy Hm.
  unfold daysInMonth. rewrite Hyear, Hmonth.
  change (default 0 (Some year)) with year. change (default 0 (Some month)) with month.
  cbn [falsyNumber].
  replace (year =? 0) with false by (symmetry; apply Z.eqb_neq; lia).
  replace (month =? 0) with false by (symmetry; apply Z.eqb_neq; lia).
  cbn [negb andb]. unfold getDate, localDay, Date_local_day.
  replace ((0 <=? year) && (year <=? 99)) with false.
  2:{ symmetry. apply andb_false_iff. right. apply Z.leb_gt. lia. }
  assert (Hafter : year + month / 12 = fst (monthAfter (year, month))
                   /\ month mod 12 + 1 = snd (monthAfter (year, month))).
  { unfold monthAfter. cbn [fst snd]. destruct (Z.eqb_spec month 12) as [->|Hne].
    - split; reflexivity.
    - rewrite Z.div_small, Z.mod_small by lia. cbn [fst snd]. lia. }
  destruct Hafter as [-> ->].
  rewrite days_from_civil_after by done.
  match goal with
  | |- dayOfMonth (?t / msPerDay) = _ =>
    replace (t / msPerDay)
      with (days_from_civil year month (monthLength (year, month)))
  end.
  - apply civil_of_days_from_civil; [done|].
    pose proof (monthLength_bounds (year, month)). lia.
  - rewrite (days_from_civil_day year month (monthLength _)).
    unfold msPerDay. apply Z.div_unique with 0; lia.
Qed.

Lemma daysInMonth_is_month_length_witness :
  daysInMonth tokyoClock (js "2024-02") = 29
  /\ daysInMonth tokyoClock (js "2023-02") = 28.
Proof.
  split.
  - apply (daysInMonth_is_month_length tokyoClock (js "2024-02") 2024 2);
      [vm_compute; repeat split; reflexivity | lia | lia].
  - apply (daysInMonth_is_month_length tokyoClock (js "2023-02") 2023 2);
      [vm_compute; repeat split; reflexivity | lia | lia].
Defined.


(** ** Category actions *)

Lemma used_count_positive (name : jsstring) (rows : list Transaction) (item : Transaction) :
  item ∈ rows -> tx_category item = name ->
  (0 <? Z.of_nat (length (List.filter (fun item => str_eqb (tx_category item) name) rows)))
  = true.
Proof.
  intros Hin Hcat. apply Z.ltb_lt.
  assert (Hf : In item (List.filter (fun item => str_eqb (tx_category item) name) rows)).
  { apply filter_In. split; [by apply list_elem_of_In|]. by apply str_eqb_eq. }
  destruct (List.filter _ rows); [destruct Hf | simpl; lia].
Qed.

Lemma unused_count_zero (name : jsstring) (rows : list Transaction) :
  (forall item, item ∈ rows -> tx_category item <> name) ->
  (0 <? Z.of_nat (length (List.filter (fun item => str_eqb (tx_category item) name) rows)))
  = false.
Proof.
  intros Hnone.
  assert (Hnil : List.filter (fun item => str_eqb (tx_category item) name) rows = []).
  { induction rows as [|item rows IH]; [done|].
    simpl. assert (Hne : str_eqb (tx_category item) name = false).
    { apply str_eqb_neq, Hnone, list_elem_of_here. }
    rewrite Hne. apply IH. intros item' Hin. by apply Hnone, list_elem_of_further. }
  by rewrite Hnil.
Qed.

(** One round of evaluation of a category action: the monad, the setters
    and the requests are unfolded, the data and the strings are not. *)
Ltac category_step :=
  repeat progress
  (cbv beta iota zeta delta
    [handleAddCategory handleRenameCategory handleDeleteCategory loadCategories
     cancelEditCategory countTransactions deleteCategory deleteBudgetsOfCategory
     updateCategoryName updateTransactionCategory insertCategories selectCategories
     nextCategoryFault nextCategoryAnswer alert cbind cret
     setCategoryRows setTransactionRows setBudgetRows setCategories setForm
     setEditingCategoryId setEditingCategoryName setCategoryDraft setCategoryStatus
     setCategoryLoading
     c_categoryRows c_transactionRows c_budgetRows c_categories c_form
     c_editingCategoryId c_editingCategoryName c_categoryDraft c_status c_loading
     c_faults c_answers c_alerts
     from_option hd_error tl id fst snd orb andb];
   try change (negb true) with false; try change (negb false) with true).

(** X24: [handleDeleteCategory] never deletes a category some transaction
    uses: whatever the requests and the dialogs answer, the three tables,
    the categories shown and the form stay as they are. *)
Theorem handleDeleteCategory_keeps_used_category
    (name : jsstring) (w : CategoryWorld) (item : Transaction) :
  item ∈ c_transactionRows w -> tx_category item = name ->
  let w' := snd (handleDeleteCategory name w) in
  c_categoryRows w' = c_categoryRows w
  /\ c_transactionRows w' = c_transactionRows w
  /\ c_budgetRows w' = c_budgetRows w
  /\ c_categories w' = c_categories w
  /\ c_form w' = c_form w.
Proof.
  intros Hin Hcat. destruct w as [rows txs buds cats form eid ename draft st ld faults ans al].
  simpl in Hin.
  unfold handleDeleteCategory, countTransactions, cbind, cret, nextCategoryFault.
  cbn [c_form c_faults c_transactionRows c_categoryRows c_budgetRows c_categories].
  destruct (default None (head faults)) as [message|]; [by cbn|].
  cbn [c_transactionRows].
  rewrite (used_count_positive name txs item Hin Hcat). by cbn.
Qed.

Lemma handleDeleteCategory_keeps_used_category_witness :
  c_categoryRows (snd (handleDeleteCategory (js "食費") exampleCategoryWorld))
  = [js "食費"; js "住居"; js "娯楽"].
Proof.
  refine (proj1 (handleDeleteCategory_keeps_used_category (js "食費") exampleCategoryWorld
                   (mkTransaction (js "2024-01-05") 1200 s_expense s_consumption
                      (js "食費") None) _ _)).
  - apply list_elem_of_here.
  - reflexivity.
Defined.

Lemma Array_includes_false l x : Array_includes l x = false <-> (x ∉ l).
Proof.
  rewrite <- Array_includes_elem_of. destruct (Array_includes l x); split; try done; intros H; by destruct H.
Qed.

Lemma filter_other_nonempty (name other : jsstring) (rows : list jsstring) :
  other ∈ rows -> other <> name ->
  List.filter (fun row => negb (str_eqb row name)) rows <> [].
Proof.
  intros Hin Hne Hnil.
  assert (Hf : In other (List.filter (fun row => negb (str_eqb row name)) rows)).
  { apply filter_In. split; [by apply list_elem_of_In|].
    apply negb_true_iff. by apply str_eqb_neq. }
  rewrite Hnil in Hf. destruct Hf.
Qed.

(** X25: when no transaction uses the category, another category is
    stored, the user confirms and no request fails,
    [handleDeleteCategory] removes the category's row and
    every budget stored under it, in all months; the transactions stay, the
    screen shows the remaining categories, and a form that had the category
    selected selects 食費, in the list or not. *)
Theorem handleDeleteCategory_removes_category_and_budgets
    (name other : jsstring) (w : CategoryWorld) :
  (forall item, item ∈ c_transactionRows w -> tx_category item <> name) ->
  other ∈ c_categoryRows w -> other <> name ->
  head (c_answers w) = Some true ->
  (forall i, (i < 4)%nat -> categoryFaultAt i w = None) ->
  let w' := snd (handleDeleteCategory name w) in
  let rest := List.filter (fun row => negb (str_eqb row name)) (c_categoryRows w) in
  c_categoryRows w' = rest
  /\ c_categories w' = rest
  /\ c_budgetRows w'
     = List.filter (fun row => negb (str_eqb (b_category row) name)) (c_budgetRows w)
  /\ c_transactionRows w' = c_transactionRows w
  /\ (fm_category (c_form w) = name -> fm_category (c_form w') = js "食費")
  /\ c_loading w' = false.
Proof.
  intros Hnone Hother Hne Hans Hfaults.
  destruct w as [rows txs buds cats form eid ename draft st ld faults ans al].
  simpl in Hnone, Hother, Hans.
  pose proof (Hfaults 0%nat ltac:(lia)) as H0.
  pose proof (Hfaults 1%nat ltac:(lia)) as H1.
  pose proof (Hfaults 2%nat ltac:(lia)) as H2.
  pose proof (Hfaults 3%nat ltac:(lia)) as H3.
  clear Hfaults. unfold categoryFaultAt in *. cbn [c_faults] in *.
  pose proof (filter_other_nonempty name other rows Hother Hne) as Hrest.
  destruct ans as [|a ans]; [done|]. injection Hans as ->.
  destruct faults as [|f0 [|f1 [|f2 [|f3 faults]]]]; simpl in H0, H1, H2, H3; subst;
    category_step;
    rewrite (unused_count_zero name txs Hnone);
    category_step;
    (destruct (List.filter (fun row => negb (str_eqb row name)) rows) as [|r rest] eqn:Hf;
     [done|]);
    category_step;
    destruct (Array_includes (r :: rest) (fm_category form)) eqn:Hinc;
    category_step;
    destruct (str_eqb (fm_category form) name) eqn:Hsel;
    category_step;
    (repeat split; try done);
    intros Heq; apply str_eqb_neq in Hsel; by destruct Hsel.
Qed.

Lemma handleDeleteCategory_removes_category_and_budgets_witness :
  let w' := snd (handleDeleteCategory (js "娯楽") exampleCategoryWorld) in
  c_categoryRows w' = [js "食費"; js "住居"]
  /\ c_budgetRows w' = [mkBudgetRow (js "2024-01") (js "食費") 30000].
Proof.
  pose proof (handleDeleteCategory_removes_category_and_budgets (js "娯楽") (js "食費")
                exampleCategoryWorld) as H.
  destruct H as (Hrows & _ & Hbuds & _).
  - intros item Hin. apply list_elem_of_singleton in Hin as ->. vm_compute. discriminate.
  - apply list_elem_of_here.
  - vm_compute. discriminate.
  - reflexivity.
  - intros i _. by destruct i.
  - split; [exact Hrows | exact Hbuds].
Defined.

(** X26: deleting the only category empties the table, and the reload that
    follows seeds it again: the table and the screen hold the ten default
    categories, the deleted one among them when it was a default. *)
Theorem handleDeleteCategory_last_category_reseeds (name : jsstring) (w : CategoryWorld) :
  c_categoryRows w = [name] ->
  (forall item, item ∈ c_transactionRows w -> tx_category item <> name) ->
  head (c_answers w) = Some true ->
  (forall i, (i < 6)%nat -> categoryFaultAt i w = None) ->
  let w' := snd (handleDeleteCategory name w) in
  c_categoryRows w' ≡ₚ defaultCategories
  /\ c_categories w' ≡ₚ defaultCategories
  /\ c_loading w' = false.
Proof.
  intros Hrows Hnone Hans Hfaults.
  destruct w as [rows txs buds cats form eid ename draft st ld faults ans al].
  simpl in Hrows, Hnone, Hans. subst rows.
  pose proof (Hfaults 0%nat ltac:(lia)) as H0.
  pose proof (Hfaults 1%nat ltac:(lia)) as H1.
  pose proof (Hfaults 2%nat ltac:(lia)) as H2.
  pose proof (Hfaults 3%nat ltac:(lia)) as H3.
  pose proof (Hfaults 4%nat ltac:(lia)) as H4.
  pose proof (Hfaults 5%nat ltac:(lia)) as H5.
  clear Hfaults. unfold categoryFaultAt in *. cbn [c_faults] in *.
  destruct ans as [|a ans]; [done|]. injection Hans as ->.
  assert (Hf : List.filter (fun row => negb (str_eqb row name)) [name] = []).
  { simpl. by rewrite str_eqb_refl. }
  assert (Hseed : violatesUniqueName [] defaultCategories = false) by (by vm_compute).
  destruct faults as [|f0 [|f1 [|f2 [|f3 [|f4 [|f5 faults]]]]]];
    simpl in H0, H1, H2, H3, H4, H5; subst;
    category_step;
    rewrite (unused_count_zero name txs Hnone);
    category_step;
    rewrite Hf;
    category_step;
    rewrite Hseed;
    category_step;
    destruct (str_eqb (fm_category form) name);
    category_step;
    done.
Qed.

Lemma handleDeleteCategory_last_category_reseeds_witness :
  c_categories
    (snd (handleDeleteCategory (js "旅行")
            (mkCategoryWorld [js "旅行"] [] [] [js "旅行"]
               (mkForm (js "2024-01-05") [] s_expense s_consumption (js "旅行") [])
               None [] [] [] false [] [true] [])))
  ≡ₚ defaultCategories.
Proof.
  refine (proj1 (proj2 (handleDeleteCategory_last_category_reseeds (js "旅行") _ _ _ _ _))).
  - reflexivity.
  - intros item Hin. by apply elem_of_nil in Hin.
  - reflexivity.
  - intros i _. by destruct i.
Defined.

(** X27: started on an empty table with no request failing,
    [loadCategories] stores the ten default categories and shows them; the
    form is left as it is. *)
Theorem loadCategories_seeds_empty_table (form : Form) (w : CategoryWorld) :
  c_categoryRows w = [] ->
  (forall i, (i < 3)%nat -> categoryFaultAt i w = None) ->
  let w' := snd (loadCategories form w) in
  c_categoryRows w' ≡ₚ defaultCategories
  /\ c_categories w' ≡ₚ defaultCategories
  /\ c_form w' = c_form w
  /\ c_loading w' = false.
Proof.
  intros Hrows Hfaults.
  destruct w as [rows txs buds cats form0 eid ename draft st ld faults ans al].
  simpl in Hrows. subst rows.
  pose proof (Hfaults 0%nat ltac:(lia)) as H0.
  pose proof (Hfaults 1%nat ltac:(lia)) as H1.
  pose proof (Hfaults 2%nat ltac:(lia)) as H2.
  clear Hfaults. unfold categoryFaultAt in *. cbn [c_faults] in *.
  assert (Hseed : violatesUniqueName [] defaultCategories = false) by (by vm_compute).
  destruct faults as [|f0 [|f1 [|f2 faults]]]; simpl in H0, H1, H2; subst;
    category_step; rewrite Hseed; category_step; done.
Qed.

Lemma loadCategories_seeds_empty_table_witness :
  c_categories
    (snd (loadCategories (mkForm (js "2024-01-05") [] s_expense s_consumption (js "食費") [])
            (mkCategoryWorld [] [] [] []
               (mkForm (js "2024-01-05") [] s_expense s_consumption (js "食費") [])
               None [] [] [] false [] [] [])))
  ≡ₚ defaultCategories.
Proof.
  refine (proj1 (proj2 (loadCategories_seeds_empty_table _ _ _ _))).
  - reflexivity.
  - intros i _. by destruct i.
Defined.

Lemma rename_drops_old (old next : jsstring) (rows : list jsstring) :
  next <> old ->
  old ∉ List.map (fun name => if str_eqb name old then next else name) rows.
Proof.
  intros Hne Hin. apply list_elem_of_In, in_map_iff in Hin as (name & Heq & _).
  destruct (str_eqb name old) eqn:E; [done|]. apply str_eqb_neq in E. done.
Qed.

(** X28: [handleRenameCategory], given a new name that is not blank, differs
    from the old one and is not taken, with no request failing, renames the
    category's row and the category of every transaction under it, and shows
    the renamed list; the budgets are not touched, so a budget of the old
    name stays stored under a name that is no longer a category. *)
Theorem handleRenameCategory_renames_rows_not_budgets
    (oldName : jsstring) (w : CategoryWorld) :
  let nextName := trim (c_editingCategoryName w) in
  nextName <> [] -> nextName <> oldName ->
  oldName ∈ c_categoryRows w -> nextName ∉ c_categoryRows w ->
  (forall i, (i < 3)%nat -> categoryFaultAt i w = None) ->
  let w' := snd (handleRenameCategory oldName w) in
  let renamed :=
    List.map (fun name => if str_eqb name oldName then nextName else name)
      (c_categoryRows w) in
  c_categoryRows w' = renamed
  /\ c_categories w' = renamed
  /\ c_transactionRows w'
     = List.map
         (fun item =>
            if str_eqb (tx_category item) oldName
            then setTransactionCategory nextName item else item)
         (c_transactionRows w)
  /\ c_budgetRows w' = c_budgetRows w
  /\ (oldName ∉ c_categories w')
  /\ (fm_category (c_form w) = oldName -> fm_category (c_form w') = nextName)
  /\ c_editingCategoryId w' = None
  /\ c_loading w' = false.
Proof.
  intros nextName Hblank Hne Hold Hnext Hfaults.
  destruct w as [rows txs buds cats form eid ename draft st ld faults ans al].
  simpl in nextName, Hold, Hnext. subst nextName.
  pose proof (Hfaults 0%nat ltac:(lia)) as H0.
  pose proof (Hfaults 1%nat ltac:(lia)) as H1.
  pose proof (Hfaults 2%nat ltac:(lia)) as H2.
  clear Hfaults. unfold categoryFaultAt in *. cbn [c_faults] in *.
  pose proof (rename_drops_old oldName (trim ename) rows Hne) as Hdrop.
  assert (Htruthy : truthy (trim ename) = true) by (by destruct (trim ename)).
  assert (Hsame : str_eqb (trim ename) oldName = false) by (by apply str_eqb_neq).
  assert (Hfree : Array_includes rows (trim ename) = false)
    by (by apply Array_includes_false).
  assert (Hinc : Array_includes rows oldName = true)
    by (by apply Array_includes_elem_of).
  assert (Hmap : List.map (fun name => if str_eqb name oldName then trim ename else name)
                   rows <> []).
  { intros Hnil. apply map_eq_nil in Hnil. subst rows. by apply elem_of_nil in Hold. }
  destruct faults as [|f0 [|f1 [|f2 faults]]]; simpl in H0, H1, H2; subst;
    category_step;
    rewrite Htruthy, Hsame;
    category_step;
    rewrite Hfree, Hinc;
    category_step;
    (destruct (List.map (fun name => if str_eqb name oldName then trim ename else name)
                 rows) as [|r rest] eqn:Hrows; [done|]);
    category_step;
    destruct (Array_includes (r :: rest) (fm_category form));
    category_step;
    destruct (str_eqb (fm_category form) oldName) eqn:Hsel;
    category_step;
    (repeat split; try done);
    intros Heq; apply str_eqb_neq in Hsel; by destruct Hsel.
Qed.

Lemma handleRenameCategory_renames_rows_not_budgets_witness :
  let w' :=
    snd (handleRenameCategory (js "娯楽")
           (mkCategoryWorld
              [js "食費"; js "娯楽"]
              [mkTransaction (js "2024-01-05") 1200 s_expense s_waste (js "娯楽") None]
              [mkBudgetRow (js "2024-01") (js "娯楽") 5000]
              [js "食費"; js "娯楽"]
              (mkForm (js "2024-01-05") [] s_expense s_consumption (js "娯楽") [])
              (Some (js "娯楽")) (js " 趣味 ") [] [] false [] [] [])) in
  c_categories w' = [js "食費"; js "趣味"]
  /\ c_budgetRows w' = [mkBudgetRow (js "2024-01") (js "娯楽") 5000].
Proof.
  pose proof (handleRenameCategory_renames_rows_not_budgets (js "娯楽")
                (mkCategoryWorld
                   [js "食費"; js "娯楽"]
                   [mkTransaction (js "2024-01-05") 1200 s_expense s_waste (js "娯楽") None]
                   [mkBudgetRow (js "2024-01") (js "娯楽") 5000]
                   [js "食費"; js "娯楽"]
                   (mkForm (js "2024-01-05") [] s_expense s_consumption (js "娯楽") [])
                   (Some (js "娯楽")) (js " 趣味 ") [] [] false [] [] [])) as H.
  destruct H as (_ & Hcats & _ & Hbuds & _).
  - vm_compute. discriminate.
  - vm_compute. discriminate.
  - apply list_elem_of_further, list_elem_of_here.
  - apply Array_includes_false. by vm_compute.
  - intros i _. by destruct i.
  - split; [exact Hcats | exact Hbuds].
Defined.

(** X29: [handleRenameCategory] given the name of another stored category
    changes nothing: the tables, the categories shown and the form stay, the
    name stays under edit, and the status line carries the error. *)
Theorem handleRenameCategory_rejects_taken_name (oldName : jsstring) (w : CategoryWorld) :
  let nextName := trim (c_editingCategoryName w) in
  nextName <> [] -> nextName <> oldName ->
  oldName ∈ c_categoryRows w -> nextName ∈ c_categoryRows w ->
  let w' := snd (handleRenameCategory oldName w) in
  c_categoryRows w' = c_categoryRows w
  /\ c_transactionRows w' = c_transactionRows w
  /\ c_budgetRows w' = c_budgetRows w
  /\ c_categories w' = c_categories w
  /\ c_form w' = c_form w
  /\ c_editingCategoryId w' = c_editingCategoryId w
  /\ c_editingCategoryName w' = c_editingCategoryName w
  /\ (categoryFaultAt 0 w = None ->
      c_status w' = js "カテゴリ更新エラー: " ++ uniqueViolation)
  /\ c_loading w' = false.
Proof.
  intros nextName Hblank Hne Hold Hnext.
  destruct w as [rows txs buds cats form eid ename draft st ld faults ans al].
  simpl in nextName, Hold, Hnext. subst nextName.
  unfold categoryFaultAt. cbn [c_faults].
  assert (Htruthy : truthy (trim ename) = true) by (by destruct (trim ename)).
  assert (Hsame : str_eqb (trim ename) oldName = false) by (by apply str_eqb_neq).
  assert (Hsame' : str_eqb oldName (trim ename) = false)
    by (apply str_eqb_neq; congruence).
  assert (Htaken : Array_includes rows (trim ename) = true)
    by (by apply Array_includes_elem_of).
  assert (Hinc : Array_includes rows oldName = true)
    by (by apply Array_includes_elem_of).
  category_step. rewrite Htruthy, Hsame. category_step.
  destruct faults as [|[message|] faults]; category_step;
    rewrite ?Htaken, ?Hinc, ?Hsame'; category_step; by repeat split.
Qed.

Lemma handleRenameCategory_rejects_taken_name_witness :
  c_categoryRows
    (snd (handleRenameCategory (js "娯楽")
            (mkCategoryWorld
               [js "食費"; js "娯楽"] [] [] [js "食費"; js "娯楽"]
               (mkForm (js "2024-01-05") [] s_expense s_consumption (js "娯楽") [])
               (Some (js "娯楽")) (js "食費") [] [] false [] [] [])))
  = [js "食費"; js "娯楽"].
Proof.
  refine (proj1 (handleRenameCategory_rejects_taken_name (js "娯楽")
                   (mkCategoryWorld
                      [js "食費"; js "娯楽"] [] [] [js "食費"; js "娯楽"]
                      (mkForm (js "2024-01-05") [] s_expense s_consumption (js "娯楽") [])
                      (Some (js "娯楽")) (js "食費") [] [] false [] [] []) _ _ _ _)).
  - vm_compute. discriminate.
  - vm_compute. discriminate.
  - apply list_elem_of_further, list_elem_of_here.
  - apply list_elem_of_here.
Defined.

(** X30: [handleAddCategory] with a draft that is not blank and not yet a
    category, no request failing, stores the trimmed name after the existing
    categories, shows the new list and clears the draft; with a blank draft
    it does nothing at all. *)
Theorem handleAddCategory_appends_trimmed_name (w : CategoryWorld) :
  let name := trim (c_categoryDraft w) in
  (name = [] -> snd (handleAddCategory w) = w)
  /\ (name <> [] -> (name ∉ c_categoryRows w) ->
      (forall i, (i < 2)%nat -> categoryFaultAt i w = None) ->
      let w' := snd (handleAddCategory w) in
      c_categoryRows w' = c_categoryRows w ++ [name]
      /\ c_categories w' = c_categoryRows w ++ [name]
      /\ c_categoryDraft w' = []
      /\ c_transactionRows w' = c_transactionRows w
      /\ c_budgetRows w' = c_budgetRows w
      /\ c_loading w' = false).
Proof.
  intros name.
  destruct w as [rows txs buds cats form eid ename draft st ld faults ans al].
  simpl in name. subst name. split.
  - intros Hnil. category_step. rewrite Hnil. by category_step.
  - intros Hblank Hnew Hfaults. simpl in Hnew.
    pose proof (Hfaults 0%nat ltac:(lia)) as H0.
    pose proof (Hfaults 1%nat ltac:(lia)) as H1.
    clear Hfaults. unfold categoryFaultAt in *. cbn [c_faults] in *.
    assert (Htruthy : truthy (trim draft) = true) by (by destruct (trim draft)).
    assert (Hfree : violatesUniqueName rows [trim draft] = false).
    { simpl. apply Array_includes_false in Hnew. by rewrite Hnew. }
    destruct faults as [|f0 [|f1 faults]]; simpl in H0, H1; subst;
      category_step; rewrite Htruthy; category_step; rewrite Hfree; category_step;
      (destruct (rows ++ [trim draft]) as [|r rest] eqn:Hrows;
       [by destruct rows|]);
      category_step;
      destruct (Array_includes (r :: rest) (fm_category form));
      category_step; by repeat split.
Qed.

